(** * Kinetic-control Xmas tree: hand tracking, formation switching, particles

    A shallow embedding of the gesture pipeline of the repository:

    - [LocalGestureService.processVideoFrame] with its helpers
      [isFingerExtended], [isThumbExtended] and [calculateCentroid]
      (the hand-tracking service);
    - the gesture [useEffect] of [components/ChristmasTree.tsx] (zoom,
      velocity switch between the three formations, camera steering);
    - the particle update of the [animate] loop of the same component;
    - [LocalGestureService.initialize], the creation of the particles and
      the arrival of the font, the drag handlers of the panel, the numbers
      of [ControlPad] and the animation step of [GameCanvas].

    JavaScript numbers are kept behind the interface [JSNumber].  It has two
    interpretations: IEEE-754 binary64 ([PrimFloat], which is what the
    program runs on, with NaN and the infinities, and which computes), and
    the real numbers (the idealised arithmetic in which the statements about
    thresholds, easing and convergence are made). *)

From Stdlib Require Import Bool List ZArith Lia.
From Stdlib Require Import Reals Lra.
From Stdlib Require Floats.PrimFloat Numbers.Cyclic.Int63.Uint63.
From Stdlib Require Ascii String.
Import ListNotations.

Set Implicit Arguments.

(* ================================================================== *)
(** ** JavaScript numbers *)

Class JSNumber (num : Type) : Type := {
  fromZ : Z -> num;              (* an integer literal *)
  add : num -> num -> num;
  sub : num -> num -> num;
  mul : num -> num -> num;
  div : num -> num -> num;
  gtb : num -> num -> bool;      (* a > b *)
  hypot : num -> num -> num      (* Math.hypot(a, b) *)
}.

Declare Scope js_scope.
Delimit Scope js_scope with js.
Infix "+" := add : js_scope.
Infix "-" := sub : js_scope.
Infix "*" := mul : js_scope.
Infix "/" := div : js_scope.
Infix ">?" := gtb (at level 70, no associativity) : js_scope.

(** The decimal literal [m * 10^-k]: [dec 15 2] is the literal [0.15].
    Division is correctly rounded in IEEE arithmetic and both operands are
    exact, so on doubles this is the double nearest to the decimal, which is
    how the literal is read. *)
Definition dec {num} `{JSNumber num} (m : Z) (k : nat) : num :=
  (fromZ m / fromZ (10 ^ Z.of_nat k))%js.

(** *** Interpretation 1: binary64 *)

Definition float : Set := PrimFloat.float.

Definition float_of_Z (z : Z) : float :=
  match z with
  | Z0 => PrimFloat.zero
  | Zpos _ => PrimFloat.of_uint63 (Uint63.of_Z z)
  | Zneg p => PrimFloat.opp (PrimFloat.of_uint63 (Uint63.of_Z (Zpos p)))
  end.

(** [Math.hypot]: an infinite argument gives [+Infinity] (even next to a
    NaN), otherwise the square root of the sum of the squares. *)
Definition float_hypot (a b : float) : float :=
  if PrimFloat.is_infinity a || PrimFloat.is_infinity b then PrimFloat.infinity
  else PrimFloat.sqrt (PrimFloat.add (PrimFloat.mul a a) (PrimFloat.mul b b)).

#[export] Instance float_JSNumber : JSNumber float := {
  fromZ := float_of_Z;
  add := PrimFloat.add;
  sub := PrimFloat.sub;
  mul := PrimFloat.mul;
  div := PrimFloat.div;
  gtb := fun a b => PrimFloat.ltb b a;
  hypot := float_hypot
}.

(** *** Interpretation 2: real numbers *)

Definition Rgtb (a b : R) : bool := if Rgt_dec a b then true else false.

Definition Rhypot (a b : R) : R := sqrt (a * a + b * b)%R.

#[export] Instance R_JSNumber : JSNumber R := {
  fromZ := IZR;
  add := Rplus;
  sub := Rminus;
  mul := Rmult;
  div := Rdiv;
  gtb := Rgtb;
  hypot := Rhypot
}.

(* ================================================================== *)
(** ** types.ts *)

(** The gesture strings ['NONE'], ['GENERAL'] and ['POINTING']. *)
Inductive Gesture : Type := NONE | GENERAL | POINTING.

Definition Gesture_eqb (a b : Gesture) : bool :=
  match a, b with
  | NONE, NONE | GENERAL, GENERAL | POINTING, POINTING => true
  | _, _ => false
  end.

(** [handSpread?: number] is an optional field. *)
Record HandTrackingResult (num : Type) : Type := {
  x : num;
  y : num;
  isDetected : bool;
  gesture : Gesture;
  handSpread : option num
}.

(** A landmark of the hand-landmark detector: normalized [x], [y] and a
    depth [z]. *)
Record Landmark (num : Type) : Type := {
  lm_x : num;
  lm_y : num;
  lm_z : num
}.

(* ================================================================== *)
(** ** services: LocalGestureService *)

Module LocalGestureService.
Section Service.

Context {num : Type} `{JSNumber num}.
Local Open Scope js_scope.

(** Reading a coordinate of [landmarks[i]] throws a [TypeError] when the
    index is outside the array: [None] is the thrown exception. *)
Definition exn (A : Type) : Type := option A.

Definition bind {A B} (m : exn A) (k : A -> exn B) : exn B :=
  match m with
  | Some a => k a
  | None => None
  end.

Notation "v <- m ;; k" := (bind m (fun v => k))
  (at level 61, m at next level, right associativity).

Definition landmarkAt (landmarks : list (Landmark num)) (i : nat)
  : exn (Landmark num) := nth_error landmarks i.

Definition isFingerExtended (landmarks : list (Landmark num))
    (tipIdx pipIdx : nat) (palmScale : num) : exn bool :=
  wrist <- landmarkAt landmarks 0 ;;
  tip <- landmarkAt landmarks tipIdx ;;
  pip <- landmarkAt landmarks pipIdx ;;
  let dTip := hypot (lm_x tip - lm_x wrist) (lm_y tip - lm_y wrist) in
  let dPip := hypot (lm_x pip - lm_x wrist) (lm_y pip - lm_y wrist) in
  Some (dTip >? dPip + palmScale * dec 15 2).

Definition isThumbExtended (landmarks : list (Landmark num))
    (palmScale : num) : exn bool :=
  thumbTip <- landmarkAt landmarks 4 ;;
  thumbIP <- landmarkAt landmarks 3 ;;
  pinkyMCP <- landmarkAt landmarks 17 ;;
  let dTip := hypot (lm_x thumbTip - lm_x pinkyMCP) (lm_y thumbTip - lm_y pinkyMCP) in
  let dIP := hypot (lm_x thumbIP - lm_x pinkyMCP) (lm_y thumbIP - lm_y pinkyMCP) in
  Some (dTip >? dIP + palmScale * dec 1 1).

(** The [forEach] of [calculateCentroid]: the running sums [(sumX, sumY)]. *)
Fixpoint sumCoordinates (landmarks : list (Landmark num))
    (specificIndices : list nat) (sums : num * num) : exn (num * num) :=
  match specificIndices with
  | [] => Some sums
  | id :: rest =>
      l <- landmarkAt landmarks id ;;
      sumCoordinates landmarks rest (fst sums + lm_x l, snd sums + lm_y l)
  end.

Definition calculateCentroid (landmarks : list (Landmark num))
    (specificIndices : list nat) : exn (num * num) :=
  sums <- sumCoordinates landmarks specificIndices (fromZ 0, fromZ 0) ;;
  let n := fromZ (Z.of_nat (length specificIndices)) in
  Some (fst sums / n, snd sums / n).

(** The [forEach] that accumulates [totalDist]. *)
Fixpoint sumDistances (landmarks : list (Landmark num)) (ids : list nat)
    (centroid : num * num) (totalDist : num) : exn num :=
  match ids with
  | [] => Some totalDist
  | id :: rest =>
      l <- landmarkAt landmarks id ;;
      sumDistances landmarks rest centroid
        (totalDist + hypot (lm_x l - fst centroid) (lm_y l - snd centroid))
  end.

Definition allTips : list nat := [4; 8; 12; 16; 20]%nat.

(** Steps 1 to 5 of the detected branch of [processVideoFrame] (lines
    89-143): what is known about the hand before the result object is
    built. *)
Record Classified : Type := {
  c_gesture : Gesture;
  c_pointingTipIndex : Z;
  c_targetX : num;
  c_targetY : num;
  c_handSpread : num
}.

(** Step 3 (lines 104-118): [gesture] and [pointingTipIndex]. *)
Definition selectGesture (isIndexExtended isMiddleExtended isRingExtended
    isPinkyExtended isThumbExtended : bool) : Gesture * Z :=
  let areOthersCurled :=
    negb isMiddleExtended && negb isRingExtended && negb isPinkyExtended in
  if areOthersCurled then
    if isIndexExtended then (POINTING, 8%Z)
    else if isThumbExtended then (POINTING, 4%Z)
    else (GENERAL, (-1)%Z)
  else (GENERAL, (-1)%Z).

Definition classify (landmarks : list (Landmark num)) : exn Classified :=
  (* 1. basic measures *)
  wrist <- landmarkAt landmarks 0 ;;
  middleMCP <- landmarkAt landmarks 9 ;;
  let palmScale :=
    hypot (lm_x wrist - lm_x middleMCP) (lm_y wrist - lm_y middleMCP) in
  (* 2. finger states *)
  isIndexExtended <- isFingerExtended landmarks 8 6 palmScale ;;
  isMiddleExtended <- isFingerExtended landmarks 12 10 palmScale ;;
  isRingExtended <- isFingerExtended landmarks 16 14 palmScale ;;
  isPinkyExtended <- isFingerExtended landmarks 20 18 palmScale ;;
  isThumbExtended <- isThumbExtended landmarks palmScale ;;
  (* 3. gesture *)
  let gp := selectGesture isIndexExtended isMiddleExtended isRingExtended
              isPinkyExtended isThumbExtended in
  let gesture := fst gp in
  let pointingTipIndex := snd gp in
  (* 4. spread *)
  centroid <- calculateCentroid landmarks allTips ;;
  totalDist <- sumDistances landmarks allTips centroid (fromZ 0) ;;
  let handSpread := (totalDist / fromZ 5) / palmScale in
  (* 5. target *)
  if Gesture_eqb gesture POINTING && negb (pointingTipIndex =? -1)%Z then
    tip <- landmarkAt landmarks (Z.to_nat pointingTipIndex) ;;
    Some {| c_gesture := gesture; c_pointingTipIndex := pointingTipIndex;
            c_targetX := lm_x tip; c_targetY := lm_y tip;
            c_handSpread := handSpread |}
  else
    Some {| c_gesture := gesture; c_pointingTipIndex := pointingTipIndex;
            c_targetX := fst centroid; c_targetY := snd centroid;
            c_handSpread := handSpread |}.

(** The video element: only its dimensions are read. *)
Record Video : Type := {
  videoWidth : N;
  videoHeight : N
}.

(** What [handLandmarker.detectForVideo] does on the frame: it throws, or
    it returns a result whose [landmarks] is undefined or a list of hands,
    each hand a list of landmarks. *)
Inductive Detection : Type :=
| DetectThrows
| DetectReturns (landmarks : option (list (list (Landmark num)))).

(** The calls with an effect outside the function. *)
Inductive Effect : Type :=
| CallDetectForVideo
| CallDrawDebug
| CallClearRect.

Definition noResult : HandTrackingResult num :=
  {| x := dec 5 1; y := dec 5 1; isDetected := false; gesture := NONE;
     handSpread := Some (fromZ 0) |}.

(** [processVideoFrame video debugCanvas] (lines 74-170). [handLandmarker]
    is [None] before initialization, and otherwise holds what its
    [detectForVideo] does on this frame; [debugCanvas] tells whether a
    canvas was passed.  The result comes with the calls made, in order.
    The [try] covers the detector and everything computed from its result;
    its [catch] returns [noResult].  Drawing on the canvas is taken not to
    throw. *)
Definition processVideoFrame (handLandmarker : option Detection)
    (video : Video) (debugCanvas : bool)
  : HandTrackingResult num * list Effect :=
  match handLandmarker with
  | None => (noResult, [])
  | Some detectForVideo =>
      if (videoWidth video =? 0)%N || (videoHeight video =? 0)%N
      then (noResult, [])
      else
        match detectForVideo with
        | DetectThrows => (noResult, [CallDetectForVideo])
        | DetectReturns (Some (landmarks :: _)) =>
            match classify landmarks with
            | None => (noResult, [CallDetectForVideo])
            | Some c =>
                ({| x := fromZ 1 - c_targetX c;
                    y := c_targetY c;
                    isDetected := true;
                    gesture := c_gesture c;
                    handSpread := Some (c_handSpread c) |},
                 CallDetectForVideo ::
                   (if debugCanvas then [CallDrawDebug] else []))
            end
        | DetectReturns _ =>
            (noResult,
             CallDetectForVideo ::
               (if debugCanvas then [CallClearRect] else []))
        end
  end.

(** What the service can read of a landmark, and the landmark with its
    depth erased. *)
Definition xy (l : Landmark num) : num * num := (lm_x l, lm_y l).

Definition flat (l : Landmark num) : Landmark num :=
  {| lm_x := lm_x l; lm_y := lm_y l; lm_z := fromZ 0 |}.

End Service.
End LocalGestureService.

(* ================================================================== *)
(** ** components/ChristmasTree.tsx *)

Module ChristmasTree.

Local Open Scope R_scope.

(** *** three.js vectors

    [THREE.Vector3] with the methods the component calls, as three.js
    defines them: [length], [multiplyScalar], [divideScalar],
    [normalize] (which divides by [length() || 1]), [setLength],
    [distanceTo] and [lerp]. *)
Record Vector3 : Type := {
  vx : R;
  vy : R;
  vz : R
}.

Definition v_length (v : Vector3) : R :=
  sqrt (vx v * vx v + vy v * vy v + vz v * vz v).

Definition multiplyScalar (v : Vector3) (s : R) : Vector3 :=
  {| vx := vx v * s; vy := vy v * s; vz := vz v * s |}.

Definition divideScalar (v : Vector3) (s : R) : Vector3 :=
  multiplyScalar v (1 / s).

Definition normalize (v : Vector3) : Vector3 :=
  divideScalar v (if Req_dec_T (v_length v) 0 then 1 else v_length v).

Definition setLength (v : Vector3) (l : R) : Vector3 :=
  multiplyScalar (normalize v) l.

Definition distanceTo (a b : Vector3) : R :=
  let dx := vx a - vx b in
  let dy := vy a - vy b in
  let dz := vz a - vz b in
  sqrt (dx * dx + dy * dy + dz * dz).

Definition lerp (v t : Vector3) (alpha : R) : Vector3 :=
  {| vx := vx v + (vx t - vx v) * alpha;
     vy := vy v + (vy t - vy v) * alpha;
     vz := vz v + (vz t - vz v) * alpha |}.

(** *** The refs of the component *)

(** [stateRef.current]: 0 is the tree, 1 the explosion, 2 the text. *)
Inductive FormationState : Type := TREE | EXPLODE | TEXT.

Definition stateCode (s : FormationState) : Z :=
  match s with
  | TREE => 0
  | EXPLODE => 1
  | TEXT => 2
  end.

Definition FormationState_eqb (a b : FormationState) : bool :=
  (stateCode a =? stateCode b)%Z.

(** Of [OrbitControls] the effect touches [autoRotate] and reads [target];
    of the camera, its [position]. *)
Record OrbitControls : Type := {
  autoRotate : bool;
  target : Vector3
}.

Record Camera : Type := {
  position : Vector3
}.

Record Refs : Type := {
  controlsRef : option OrbitControls;
  cameraRef : option Camera;
  stateRef : FormationState;
  lastSpreadRef : R;
  lastSwitchTimeRef : Z;
  lastVelocityTimeRef : Z
}.

(** The refs at the first render, [Date.now()] being [mountTime]. *)
Definition initialRefs (mountTime : Z) : Refs :=
  {| controlsRef := None;
     cameraRef := None;
     stateRef := TREE;
     lastSpreadRef := 0;
     lastSwitchTimeRef := 0;
     lastVelocityTimeRef := mountTime |}.

(** The refs once the initialization effect has built the scene: the
    camera at (0, 20, 90), the controls rotating around the origin. *)
Definition mountedRefs (mountTime : Z) : Refs :=
  {| controlsRef :=
       Some {| autoRotate := true; target := {| vx := 0; vy := 0; vz := 0 |} |};
     cameraRef := Some {| position := {| vx := 0; vy := 20; vz := 90 |} |};
     stateRef := TREE;
     lastSpreadRef := 0;
     lastSwitchTimeRef := 0;
     lastVelocityTimeRef := mountTime |}.

Definition setAutoRotate (controls : OrbitControls) (b : bool) : OrbitControls :=
  {| autoRotate := b; target := target controls |}.

(** *** The gesture effect (lines 602-683) *)

(** [trackingResult.handSpread || 0]: an absent field and the number 0 are
    falsy.  (So is a NaN, which the reals do not have.) *)
Definition orZero (v : option R) : R :=
  match v with
  | Some h => if Req_dec_T h 0 then 0 else h
  | None => 0
  end.

(** [Math.max(0, Math.min(1, (spread - 0.35) / 0.65))]. *)
Definition normalizedSpread (trackingResult : HandTrackingResult R) : R :=
  let spread := orZero (handSpread trackingResult) in
  Rmax 0 (Rmin 1 ((spread - 0.35) / 0.65)).

Definition targetRadius (spread : R) : R := 200 - spread * 145.

(** Zoom logic: the camera keeps its direction and eases its distance to
    the origin. *)
Definition zoom (camera : Camera) (spread : R) : Camera :=
  let currentPos := position camera in
  let currentLen := v_length currentPos in
  let newLen := currentLen + (targetRadius spread - currentLen) * 0.1 in
  {| position := setLength currentPos newLen |}.

Definition EXPANSION_SPEED_THRESHOLD : R := 2.
Definition CONTRACTION_SPEED_THRESHOLD : R := -1.
Definition COOLDOWN_MS : Z := 800.

(** The two triggers (lines 628-652): the next state and the controls
    after the writes to [autoRotate] made there. *)
Definition trigger (state : FormationState) (velocity : R)
    (controls : OrbitControls) : FormationState * OrbitControls :=
  if Rgt_dec velocity EXPANSION_SPEED_THRESHOLD then
    match state with
    | TREE => (EXPLODE, setAutoRotate controls false)
    | TEXT => (TREE, setAutoRotate controls true)
    | EXPLODE => (state, controls)
    end
  else if Rlt_dec velocity CONTRACTION_SPEED_THRESHOLD then
    match state with
    | EXPLODE => (TEXT, setAutoRotate controls false)
    | _ => (state, controls)
    end
  else (state, controls).

(** The next state of the trigger table, without the controls. *)
Definition nextStateOf (state : FormationState) (v : R) : FormationState :=
  fst (trigger state v {| autoRotate := true;
                          target := {| vx := 0; vy := 0; vz := 0 |} |}).

Definition timeDelta (r : Refs) (now : Z) : R :=
  IZR (now - lastVelocityTimeRef r) / 1000.

Definition velocity (r : Refs) (spread : R) (now : Z) : R :=
  (spread - lastSpreadRef r) / timeDelta r now.

(** The four logic refs replaced, the scene refs kept. *)
Definition setLogic (r : Refs) (state : FormationState) (lastSpread : R)
    (lastSwitchTime lastVelocityTime : Z) : Refs :=
  {| controlsRef := controlsRef r;
     cameraRef := cameraRef r;
     stateRef := state;
     lastSpreadRef := lastSpread;
     lastSwitchTimeRef := lastSwitchTime;
     lastVelocityTimeRef := lastVelocityTime |}.

(** Velocity switch logic: the controls after it, and the refs with the
    four logic refs as it leaves them. *)
Definition velocitySwitch (r : Refs) (controls : OrbitControls)
    (spread : R) (now : Z) : OrbitControls * Refs :=
  if Rgt_dec (timeDelta r now) 0.1 then
    if (now - lastSwitchTimeRef r >? COOLDOWN_MS)%Z then
      let nc := trigger (stateRef r) (velocity r spread now) controls in
      let nextState := fst nc in
      if negb (FormationState_eqb nextState (stateRef r)) then
        (snd nc, setLogic r nextState spread now now)
      else
        (snd nc, setLogic r (stateRef r) spread (lastSwitchTimeRef r) now)
    else
      (controls, setLogic r (stateRef r) spread (lastSwitchTimeRef r) now)
  else (controls, r).

Definition targetAzimuth (trackingResult : HandTrackingResult R) : R :=
  - (x trackingResult - 0.5) * PI * 4.

Definition targetPolar (trackingResult : HandTrackingResult R) : R :=
  y trackingResult * PI.

(** The point of the sphere of the given radius at these angles. *)
Definition spherical (radius polar azimuth : R) : Vector3 :=
  {| vx := radius * sin polar * sin azimuth;
     vy := radius * cos polar;
     vz := radius * sin polar * cos azimuth |}.

(** [position.c += (c - position.c) * 0.1] on the three coordinates. *)
Definition ease (p goal : Vector3) : Vector3 :=
  {| vx := vx p + (vx goal - vx p) * 0.1;
     vy := vy p + (vy goal - vy p) * 0.1;
     vz := vz p + (vz goal - vz p) * 0.1 |}.

(** The last block of the effect: steering while pointing, auto-rotation
    otherwise.  ([lookAt] turns the camera and leaves its position.) *)
Definition steer (trackingResult : HandTrackingResult R)
    (controls : OrbitControls) (camera : Camera) : OrbitControls * Camera :=
  if Gesture_eqb (gesture trackingResult) POINTING && isDetected trackingResult
  then
    let radius := distanceTo (position camera) (target controls) in
    let goal :=
      spherical radius (targetPolar trackingResult) (targetAzimuth trackingResult) in
    (setAutoRotate controls false,
     {| position := ease (position camera) goal |})
  else (setAutoRotate controls true, camera).

(** The effect that runs on every new [trackingResult], [now] being
    [Date.now()]. *)
Definition gestureEffect (r : Refs) (trackingResult : HandTrackingResult R)
    (now : Z) : Refs :=
  match controlsRef r, cameraRef r with
  | Some controls, Some camera =>
      let spread := normalizedSpread trackingResult in
      let camera1 := zoom camera spread in
      let cr := velocitySwitch r controls spread now in
      let cc := steer trackingResult (fst cr) camera1 in
      {| controlsRef := Some (fst cc);
         cameraRef := Some (snd cc);
         stateRef := stateRef (snd cr);
         lastSpreadRef := lastSpreadRef (snd cr);
         lastSwitchTimeRef := lastSwitchTimeRef (snd cr);
         lastVelocityTimeRef := lastVelocityTimeRef (snd cr) |}
  | _, _ => r
  end.

(** One run of the effect per delivered result. *)
Record Tick : Type := {
  tickResult : HandTrackingResult R;
  tickNow : Z
}.

Definition run (r : Refs) (ticks : list Tick) : Refs :=
  fold_left (fun r t => gestureEffect r (tickResult t) (tickNow t)) ticks r.

(** The velocities computed along a run (one on each tick whose time delta
    passes 0.1 s), each from the refs of its tick, all satisfy [P]. *)
Fixpoint velocitiesAlong (P : R -> Prop) (r : Refs) (ticks : list Tick) : Prop :=
  match ticks with
  | [] => True
  | t :: rest =>
      (timeDelta r (tickNow t) > 0.1 ->
       P (velocity r (normalizedSpread (tickResult t)) (tickNow t))) /\
      velocitiesAlong P (gestureEffect r (tickResult t) (tickNow t)) rest
  end.

(** *** The particles of the animation loop (lines 541-559)

    Of a particle the three targets and the current position are kept; its
    rotation and scale do not act on the position.  The oscillation added
    while exploding goes to the instance matrix, not to [currentPos]. *)

Record Particle : Type := {
  treePos : Vector3;
  explodePos : Vector3;
  textPos : Vector3;
  currentPos : Vector3
}.

Definition lerpSpeed : R := 0.03.

Definition targetOf (state : FormationState) (p : Particle) : Vector3 :=
  match state with
  | TREE => treePos p
  | EXPLODE => explodePos p
  | TEXT => textPos p
  end.

(** The position part of one turn of the loop body for a particle. *)
Definition animateParticle (state : FormationState) (p : Particle) : Particle :=
  {| treePos := treePos p;
     explodePos := explodePos p;
     textPos := textPos p;
     currentPos := lerp (currentPos p) (targetOf state p) lerpSpeed |}.




(** Both scene refs are set: the effect does not return at its guard. *)
Definition Mounted (r : Refs) : Prop :=
  exists controls camera,
    controlsRef r = Some controls /\ cameraRef r = Some camera.

(** The four logic refs. *)
Definition logicOf (r : Refs) : FormationState * R * Z * Z :=
  (stateRef r, lastSpreadRef r, lastSwitchTimeRef r, lastVelocityTimeRef r).

(** The refs the component can be in: those of the first render, those
    after the scene is built, and from there after a run of the effect or
    a move of the camera by the orbit controls. *)
Inductive Reachable : Refs -> Prop :=
| reach_initial (mountTime : Z) : Reachable (initialRefs mountTime)
| reach_mounted (mountTime : Z) : Reachable (mountedRefs mountTime)
| reach_effect (r : Refs) (trackingResult : HandTrackingResult R) (now : Z) :
    Reachable r -> Reachable (gestureEffect r trackingResult now)
| reach_orbit (r : Refs) (camera camera' : Camera) :
    Reachable r -> cameraRef r = Some camera ->
    Reachable {| controlsRef := controlsRef r;
                 cameraRef := Some camera';
                 stateRef := stateRef r;
                 lastSpreadRef := lastSpreadRef r;
                 lastSwitchTimeRef := lastSwitchTimeRef r;
                 lastVelocityTimeRef := lastVelocityTimeRef r |}.

End ChristmasTree.

(* ================================================================== *)
(** ** App.tsx: one turn of the processing loop *)

(** The loop hands the frame to the service and the result to the tree. *)
Definition appTick (r : ChristmasTree.Refs)
    (handLandmarker : option (@LocalGestureService.Detection R))
    (video : LocalGestureService.Video) (debugCanvas : bool) (now : Z)
  : ChristmasTree.Refs :=
  ChristmasTree.gestureEffect r
    (fst (LocalGestureService.processVideoFrame handLandmarker video debugCanvas))
    now.

(** What a turn of the loop is given: the outcome of the detector on the
    frame, the video, whether the skeleton canvas is shown, and the time. *)
Record Frame : Type := {
  frameDetection : @LocalGestureService.Detection R;
  frameVideo : LocalGestureService.Video;
  frameCanvas : bool;
  frameNow : Z
}.

Definition frameResult (f : Frame) : HandTrackingResult R :=
  fst (LocalGestureService.processVideoFrame
         (Some (frameDetection f)) (frameVideo f) (frameCanvas f)).

Definition appRun (r : ChristmasTree.Refs) (frames : list Frame)
  : ChristmasTree.Refs :=
  fold_left
    (fun r f =>
       appTick r (Some (frameDetection f)) (frameVideo f) (frameCanvas f)
         (frameNow f))
    frames r.

(** The detector ran and found no hand. *)
Definition NoLandmarks (f : Frame) : Prop :=
  frameDetection f = LocalGestureService.DetectReturns None \/
  frameDetection f = LocalGestureService.DetectReturns (Some []).

(* ================================================================== *)
(** ** Sample inputs *)

Module Samples.
Import LocalGestureService.

(** A landmark at [(a/100, b/100)], depth 0, on doubles. *)
Definition pt (a b : Z) : Landmark float :=
  {| lm_x := dec a 2; lm_y := dec b 2; lm_z := fromZ 0 |}.

(** A hand pointing with the index: wrist at (0.5, 0.9), middle knuckle at
    (0.5, 0.6), index tip at (0.75, 0.5), the other fingers folded. *)
Definition pointing_pose : list (Landmark float) :=
  [ pt 50 90; pt 50 80; pt 50 80; pt 40 80; pt 40 80; pt 50 80; pt 60 60;
    pt 50 80; pt 75 50; pt 50 60; pt 50 70; pt 50 80; pt 50 70; pt 50 80;
    pt 45 70; pt 50 80; pt 45 70; pt 40 75; pt 40 72; pt 50 80; pt 40 72 ].

(** The same hand with the depth of every landmark changed. *)
Definition pointing_pose_deep : list (Landmark float) :=
  map (fun l => {| lm_x := lm_x l; lm_y := lm_y l; lm_z := dec 25 2 |})
    pointing_pose.

(** The same hand with a NaN for the [x] of the thumb tip (landmark 4) and
    of the index tip (landmark 8). *)
Definition nan_pose : list (Landmark float) :=
  firstn 4 pointing_pose
  ++ [ {| lm_x := PrimFloat.nan; lm_y := dec 80 2; lm_z := fromZ 0 |} ]
  ++ firstn 3 (skipn 5 pointing_pose)
  ++ [ {| lm_x := PrimFloat.nan; lm_y := dec 50 2; lm_z := fromZ 0 |} ]
  ++ skipn 9 pointing_pose.

(** The first twenty landmarks only. *)
Definition short_pose : list (Landmark float) := firstn 20 pointing_pose.

Definition vga : Video := {| videoWidth := 640; videoHeight := 480 |}.

(** Results on reals: an open hand and a hand pointing at raw x = 0.75. *)
Definition open_hand : HandTrackingResult R :=
  {| x := 0.5%R; y := 0.5%R; isDetected := true; gesture := GENERAL;
     handSpread := Some 1.2%R |}.

Definition pointing_hand : HandTrackingResult R :=
  {| x := (1 - 0.75)%R; y := 0.5%R; isDetected := true; gesture := POINTING;
     handSpread := Some 0.3%R |}.

(** A hand that points while its fingers spread. *)
Definition pointing_open : HandTrackingResult R :=
  {| x := 0.5%R; y := 0.5%R; isDetected := true; gesture := POINTING;
     handSpread := Some 1.2%R |}.

Definition closed_hand : HandTrackingResult R :=
  {| x := 0.5%R; y := 0.5%R; isDetected := true; gesture := GENERAL;
     handSpread := Some 0.3%R |}.

(** A hand half open: its normalized spread is 0.5. *)
Definition half_open_hand : HandTrackingResult R :=
  {| x := 0.5%R; y := 0.5%R; isDetected := true; gesture := GENERAL;
     handSpread := Some 0.675%R |}.

Definition tick (result : HandTrackingResult R) (now : Z) : ChristmasTree.Tick :=
  {| ChristmasTree.tickResult := result; ChristmasTree.tickNow := now |}.

(** A frame on which the detector finds no hand. *)
Definition empty_frame (now : Z) : Frame :=
  {| frameDetection := DetectReturns (Some []); frameVideo := vga;
     frameCanvas := false; frameNow := now |}.

(** The component mounts at time 1000000; the hand opens fast and stays
    open for three ticks; then ten frames without a hand follow. *)
Definition opening_ticks : list ChristmasTree.Tick :=
  [ tick open_hand 1000200; tick open_hand 1000500; tick open_hand 1000800 ].

Definition ten_empty_frames : list Frame :=
  map empty_frame
    [ 1001100; 1001150; 1001200; 1001250; 1001300;
      1001350; 1001400; 1001450; 1001500; 1001550 ]%Z.

End Samples.

(* ================================================================== *)
(** ** Moves of a pose, and the landmarks the service reads *)

Module PoseMoves.

Local Open Scope R_scope.

(** The hand shifted by [(a, b)] in the image, and the hand scaled by [k]
    around the origin of the image. *)
Definition translate (a b : R) (l : Landmark R) : Landmark R :=
  {| lm_x := lm_x l + a; lm_y := lm_y l + b; lm_z := lm_z l |}.

Definition scaleBy (k : R) (l : Landmark R) : Landmark R :=
  {| lm_x := k * lm_x l; lm_y := k * lm_y l; lm_z := lm_z l |}.

(** A classification with its target moved. *)
Definition moveTarget (f g : R -> R) (c : @LocalGestureService.Classified R)
  : @LocalGestureService.Classified R :=
  {| LocalGestureService.c_gesture := LocalGestureService.c_gesture c;
     LocalGestureService.c_pointingTipIndex :=
       LocalGestureService.c_pointingTipIndex c;
     LocalGestureService.c_targetX := f (LocalGestureService.c_targetX c);
     LocalGestureService.c_targetY := g (LocalGestureService.c_targetY c);
     LocalGestureService.c_handSpread := LocalGestureService.c_handSpread c |}.

(** A landmark inside the image. *)
Definition InImage (l : Landmark R) : Prop :=
  0 <= lm_x l <= 1 /\ 0 <= lm_y l <= 1.


(** Sample poses on reals: a landmark at [(a/100, b/100)]; the hand
    pointing with the index of [Samples.pointing_pose]; a hand whose five
    fingertips meet in one point. *)
Definition ptR (a b : Z) : Landmark R :=
  {| lm_x := IZR a / 100; lm_y := IZR b / 100; lm_z := 0 |}.

Definition pointing_pose_R : list (Landmark R) :=
  [ ptR 50 90; ptR 50 80; ptR 50 80; ptR 40 80; ptR 40 80; ptR 50 80;
    ptR 60 60; ptR 50 80; ptR 75 50; ptR 50 60; ptR 50 70; ptR 50 80;
    ptR 50 70; ptR 50 80; ptR 45 70; ptR 50 80; ptR 45 70; ptR 40 75;
    ptR 40 72; ptR 50 80; ptR 40 72 ].

Definition pinched_pose_R : list (Landmark R) :=
  [ ptR 50 90; ptR 50 80; ptR 50 80; ptR 45 75; ptR 50 70; ptR 50 80;
    ptR 55 65; ptR 50 80; ptR 50 70; ptR 50 60; ptR 50 65; ptR 50 80;
    ptR 50 70; ptR 50 80; ptR 45 65; ptR 50 80; ptR 50 70; ptR 40 75;
    ptR 40 70; ptR 50 80; ptR 50 70 ].



End PoseMoves.

(* ================================================================== *)
(** ** services: what [processVideoFrame] does to the debug canvas
       (lines 163-166 and 208-230) *)

Module DebugCanvas.
Import LocalGestureService.

(** The two colours of the active point: ["#FFFF00"] and ["#00FFFF"]. *)
Inductive FillStyle : Type := Yellow | Cyan.

(** What is done to the 2D context of the canvas: [clearRect] on the whole
    canvas, [drawConnectors], [drawLandmarks], and the disc of the active
    point ([arc], [fill], [stroke]). *)
Inductive CanvasOp : Type :=
| ClearRect
| DrawConnectors
| DrawLandmarks
| DrawActivePoint (fillStyle : FillStyle).

(** [drawDebug] (lines 208-230): [hasContext] tells whether
    [canvas.getContext('2d')] gave a context; without one it returns at
    once.  It clears the canvas before it draws. *)
Definition drawDebug (hasContext : bool) (gesture : Gesture) : list CanvasOp :=
  if hasContext then
    [ ClearRect; DrawConnectors; DrawLandmarks;
      DrawActivePoint (if Gesture_eqb gesture POINTING then Yellow else Cyan) ]
  else [].

(** What a call made by [processVideoFrame] does to the canvas; [gesture]
    is the gesture handed to [drawDebug].  [CallClearRect] is the
    [ctx?.clearRect] of lines 163-166. *)
Definition canvasOpsOf (hasContext : bool) (gesture : Gesture) (call : Effect)
  : list CanvasOp :=
  match call with
  | CallDetectForVideo => []
  | CallDrawDebug => drawDebug hasContext gesture
  | CallClearRect => if hasContext then [ClearRect] else []
  end.

(** What a frame does to the canvas: [drawDebug] gets the gesture that the
    result carries. *)
Definition canvasOps {num : Type} (hasContext : bool)
    (frame : HandTrackingResult num * list Effect) : list CanvasOp :=
  flat_map (canvasOpsOf hasContext (gesture (fst frame))) (snd frame).

End DebugCanvas.

(* ================================================================== *)
(** ** services: LocalGestureService.initialize (lines 8-72) *)

Module Initialization.

Import Ascii String.

(** *** The test of the user agent

    [/Android|webOS|iPhone|iPad|iPod|BlackBerry|IEMobile|Opera Mini/i]
    [.test(navigator.userAgent)]: one of the eight words occurs somewhere
    in the string, letter case apart.  The user agent is taken as a string
    of ASCII characters. *)

Definition isUpper (c : ascii) : bool :=
  (65 <=? nat_of_ascii c)%nat && (nat_of_ascii c <=? 90)%nat.

Definition lowerChar (c : ascii) : ascii :=
  if isUpper c then ascii_of_nat (nat_of_ascii c + 32) else c.

Definition upperChar (c : ascii) : ascii :=
  if (97 <=? nat_of_ascii c)%nat && (nat_of_ascii c <=? 122)%nat
  then ascii_of_nat (nat_of_ascii c - 32) else c.

Fixpoint mapString (f : ascii -> ascii) (s : string) : string :=
  match s with
  | EmptyString => EmptyString
  | String c rest => String (f c) (mapString f rest)
  end.

(** [word] is at the start of [s], letter case apart. *)
Fixpoint startsWith (word s : string) : bool :=
  match word, s with
  | EmptyString, _ => true
  | String _ _, EmptyString => false
  | String a word', String b s' =>
      Ascii.eqb (lowerChar a) (lowerChar b) && startsWith word' s'
  end.

(** [word] occurs in [s], letter case apart. *)
Fixpoint occursIn (word s : string) : bool :=
  startsWith word s ||
  match s with
  | EmptyString => false
  | String _ s' => occursIn word s'
  end.

Definition mobileWords : list string :=
  [ "Android"; "webOS"; "iPhone"; "iPad"; "iPod"; "BlackBerry"; "IEMobile";
    "Opera Mini" ]%string.

Definition isMobile (userAgent : string) : bool :=
  existsb (fun word => occursIn word userAgent) mobileWords.

(** *** The landmarker *)

Inductive Delegate : Type := CPU | GPU.

(** The options given to [HandLandmarker.createFromOptions]; a confidence
    left out is [None].  The confidences are in hundredths. *)
Record Options : Type := {
  delegate : Delegate;
  numHands : nat;
  minHandDetectionConfidence : option nat;
  minHandPresenceConfidence : option nat;
  minTrackingConfidence : option nat
}.

Definition mobileOptions : Options :=
  {| delegate := CPU; numHands := 1;
     minHandDetectionConfidence := Some 40;
     minHandPresenceConfidence := Some 40;
     minTrackingConfidence := Some 40 |}.

Definition gpuOptions : Options :=
  {| delegate := GPU; numHands := 1;
     minHandDetectionConfidence := Some 50;
     minHandPresenceConfidence := Some 50;
     minTrackingConfidence := Some 50 |}.

Definition fallbackOptions : Options :=
  {| delegate := CPU; numHands := 1;
     minHandDetectionConfidence := None;
     minHandPresenceConfidence := None;
     minTrackingConfidence := None |}.

(** What the browser does: whether the WASM files resolve, and whether a
    landmarker can be created with given options. *)
Record Browser : Type := {
  userAgent : string;
  visionResolves : bool;
  creates : Options -> bool
}.

Inductive Step : Type :=
| ResolveVision
| Create (options : Options).

(** How a call ends: it returns, or it throws (the error is logged and
    thrown again). *)
Inductive Outcome : Type := Returned | Thrown.

(** [initialize()], on the landmarker the service holds: the landmarker
    after the call, the steps tried in order, and how the call ends. *)
Definition initialize (handLandmarker : option Options) (browser : Browser)
  : option Options * list Step * Outcome :=
  match handLandmarker with
  | Some _ => (handLandmarker, [], Returned)
  | None =>
      if negb (visionResolves browser) then (None, [ResolveVision], Thrown)
      else if isMobile (userAgent browser) then
        if creates browser mobileOptions
        then (Some mobileOptions, [ResolveVision; Create mobileOptions], Returned)
        else (None, [ResolveVision; Create mobileOptions], Thrown)
      else if creates browser gpuOptions
      then (Some gpuOptions, [ResolveVision; Create gpuOptions], Returned)
      else if creates browser fallbackOptions
      then (Some fallbackOptions,
            [ResolveVision; Create gpuOptions; Create fallbackOptions],
            Returned)
      else (None,
            [ResolveVision; Create gpuOptions; Create fallbackOptions],
            Thrown)
  end.

(** A frame handed to a service whose landmarker is [handLandmarker], the
    detector doing [detection] on it if it runs. *)
Definition processFrameOf {num : Type} `{JSNumber num}
    (handLandmarker : option Options)
    (detection : @LocalGestureService.Detection num)
    (video : LocalGestureService.Video) (debugCanvas : bool) :=
  LocalGestureService.processVideoFrame
    (option_map (fun _ => detection) handLandmarker) video debugCanvas.

End Initialization.

(* ================================================================== *)
(** ** Vocabulary for the formation switch and the camera *)

Module SwitchWords.
Import ChristmasTree.

Local Open Scope R_scope.

(** The formation after a formation in the only cycle the switch makes. *)
Definition successor (state : FormationState) : FormationState :=
  match state with
  | TREE => EXPLODE
  | EXPLODE => TEXT
  | TEXT => TREE
  end.

(** The result of a tick steers the camera: a detected POINTING. *)
Definition steers (trackingResult : HandTrackingResult R) : bool :=
  Gesture_eqb (gesture trackingResult) POINTING && isDetected trackingResult.


(** *** The orbit controls between two runs of the effect

    The animation loop calls [controls.update()] on every frame (line 563),
    which moves the camera the effect reads on its next run: it turns it
    around the target while auto-rotation is on, and it keeps its distance
    to the target between [minDistance = 10] and [maxDistance = 150]
    (lines 232-233).  The code of the controls is not part of the
    repository: a move is any function on the camera, and what is assumed
    of it is said where it is used. *)





End SwitchWords.

(* ================================================================== *)
(** ** components/ChristmasTree.tsx: the particles at creation
       (lines 257-261 and 330-410) and when the font arrives
       (lines 472-485) *)

Module ParticleCreation.
Import ChristmasTree.

Local Open Scope R_scope.

Definition particleCount : nat := 4500.
Definition treeHeight : R := 40.
Definition treeRadius : R := 16.

(** [Math.floor(params.particleCount * 0.7)] and the rest: the numbers of
    instances the two meshes are created with. *)
Definition sphereCount : nat := 3150.
Definition cubeCount : nat := particleCount - sphereCount.

(** The values [Math.random()] returns while one particle is created, in
    the order of the calls. *)
Record Draws : Type := {
  rVal : R;          (* colour *)
  typeDraw : R;      (* sphere or cube *)
  scaleDraw : R;     (* baseScale *)
  rotSpeedX : R; rotSpeedY : R; rotSpeedZ : R;
  rotationX : R; rotationY : R;
  jitterX : R; jitterY : R; jitterZ : R;   (* tree position *)
  drawU : R; drawV : R;                    (* direction of the explosion *)
  radiusDraw : R; radiusCubed : R;         (* distance of the explosion *)
  rndIdx : R         (* glow cutoff *)
}.

(** [Math.random()] gives a number at least 0 and less than 1. *)
Definition InUnit (d : R) : Prop := 0 <= d < 1.

Definition UnitDraws (d : Draws) : Prop :=
  InUnit (rVal d) /\ InUnit (typeDraw d) /\ InUnit (scaleDraw d) /\
  InUnit (rotSpeedX d) /\ InUnit (rotSpeedY d) /\ InUnit (rotSpeedZ d) /\
  InUnit (rotationX d) /\ InUnit (rotationY d) /\
  InUnit (jitterX d) /\ InUnit (jitterY d) /\ InUnit (jitterZ d) /\
  InUnit (drawU d) /\ InUnit (drawV d) /\
  InUnit (radiusDraw d) /\ InUnit (radiusCubed d) /\ InUnit (rndIdx d).

Inductive Shape : Type := sphere | cube.

Definition Shape_eqb (a b : Shape) : bool :=
  match a, b with
  | sphere, sphere | cube, cube => true
  | _, _ => false
  end.

(** A particle of [particlesRef]: the positions of [ChristmasTree.Particle]
    with the other attributes. *)
Record NewParticle : Type := {
  id : nat;
  type : Shape;
  colorType : nat;
  positions : Particle;
  targetPos : Vector3;
  baseScale : R;
  rotSpeed : Vector3;
  rotation : Vector3;
  meshIndex : nat
}.

Definition colorOf (rVal : R) : nat :=
  if Rlt_dec rVal 0.7 then 0%nat
  else if Rlt_dec rVal 0.9 then 1%nat
  else 2%nat.

Definition treePosOf (i : nat) (d : Draws) : Vector3 :=
  let y := INR i / INR particleCount * treeHeight in
  let lp := y / treeHeight in
  let rad := (1 - lp) * treeRadius in
  let ang := INR i * 2.3999 in
  {| vx := cos ang * rad + (jitterX d - 0.5) * 1.5;
     vy := y - treeHeight / 2 + 2 + (jitterY d - 0.5);
     vz := sin ang * rad + (jitterZ d - 0.5) * 1.5 |}.

Definition explodePosOf (d : Draws) : Vector3 :=
  let theta := 2 * PI * drawU d in
  let phi := acos (2 * drawV d - 1) in
  let r := 25 + radiusDraw d * 70 + radiusCubed d ^ 3 * 60 in
  {| vx := r * sin phi * cos theta;
     vy := r * sin phi * sin theta;
     vz := r * cos phi |}.

(** The particle of turn [i] of the loop, before its mesh index is set. *)
Definition newParticle (i : nat) (d : Draws) : NewParticle :=
  let tree := treePosOf i d in
  {| id := i;
     type := if Rlt_dec (typeDraw d) 0.7 then sphere else cube;
     colorType := colorOf (rVal d);
     positions :=
       {| treePos := tree; explodePos := explodePosOf d; textPos := tree;
          currentPos := tree |};
     targetPos := tree;
     baseScale := 0.4 + scaleDraw d * 0.8;
     rotSpeed :=
       {| vx := (rotSpeedX d - 0.5) * 0.01; vy := (rotSpeedY d - 0.5) * 0.01;
          vz := (rotSpeedZ d - 0.5) * 0.01 |};
     rotation := {| vx := rotationX d * PI; vy := rotationY d * PI; vz := 0 |};
     meshIndex := 0 |}.

Definition withMeshIndex (p : NewParticle) (k : nat) : NewParticle :=
  {| id := id p; type := type p; colorType := colorType p;
     positions := positions p; targetPos := targetPos p;
     baseScale := baseScale p; rotSpeed := rotSpeed p;
     rotation := rotation p; meshIndex := k |}.

(** The loop from turn [i] on, [sI] and [cI] being the next free index of
    each mesh. *)
Fixpoint createFrom (i sI cI : nat) (draws : list Draws) : list NewParticle :=
  match draws with
  | [] => []
  | d :: rest =>
      let p := newParticle i d in
      match type p with
      | sphere => withMeshIndex p sI :: createFrom (S i) (S sI) cI rest
      | cube => withMeshIndex p cI :: createFrom (S i) sI (S cI) rest
      end
  end.

Definition createParticles (draws : list Draws) : list NewParticle :=
  createFrom 0 0 0 draws.

(** The font has arrived: every particle gets as text position a point
    sampled on the text, flattened to [z = 0]. *)
Definition withTextPos (p : NewParticle) (sample : Vector3) : NewParticle :=
  {| id := id p; type := type p; colorType := colorType p;
     positions :=
       {| treePos := treePos (positions p);
          explodePos := explodePos (positions p);
          textPos := {| vx := vx sample; vy := vy sample; vz := 0 |};
          currentPos := currentPos (positions p) |};
     targetPos := targetPos p;
     baseScale := baseScale p; rotSpeed := rotSpeed p;
     rotation := rotation p; meshIndex := meshIndex p |}.

Fixpoint fontLoadedFrom (k : nat) (sample : nat -> Vector3)
    (particles : list NewParticle) : list NewParticle :=
  match particles with
  | [] => []
  | p :: rest =>
      withTextPos p (sample k) :: fontLoadedFrom (S k) sample rest
  end.

(** [sample k] is the point the sampler gives on its call number [k]. *)
Definition fontLoaded (sample : nat -> Vector3)
    (particles : list NewParticle) : list NewParticle :=
  fontLoadedFrom 0 sample particles.

(** The loop body of [animate] on a particle of [particlesRef]. *)
Definition animateNew (state : FormationState) (p : NewParticle)
  : NewParticle :=
  {| id := id p; type := type p; colorType := colorType p;
     positions := animateParticle state (positions p);
     targetPos := targetPos p;
     baseScale := baseScale p; rotSpeed := rotSpeed p;
     rotation :=
       {| vx := vx (rotation p) + vx (rotSpeed p);
          vy := vy (rotation p) + vy (rotSpeed p);
          vz := vz (rotation p) |};
     meshIndex := meshIndex p |}.

(** The particles of one shape among [particles]. *)
Definition ofShape (s : Shape) (particles : list NewParticle)
  : list NewParticle :=
  filter (fun p => Shape_eqb (type p) s) particles.

End ParticleCreation.

(* ================================================================== *)
(** ** components/ChristmasTree.tsx: dragging the panel (lines 125-181) *)

Module PanelDrag.

Local Open Scope R_scope.

Record Point : Type := {
  px : R;
  py : R
}.

(** [position], [isDragging], [dragStartRef] and [startPosRef]. *)
Record Panel : Type := {
  position : Point;
  isDragging : bool;
  dragStartRef : Point;
  startPosRef : Point
}.

(** The sizes read in [handleDragMove]: the client sizes of the container
    and of the panel. *)
Record Layout : Type := {
  containerW : R;
  containerH : R;
  panelW : R;
  panelH : R
}.

Definition SAFE_MARGIN : R := 40.

(** [client] is where the mouse or the first touch is. *)
Definition handleDragStart (s : Panel) (client : Point) : Panel :=
  {| position := position s;
     isDragging := true;
     dragStartRef := client;
     startPosRef := position s |}.

(** [layout] is [None] when the container or the panel is not there. *)
Definition handleDragMove (s : Panel) (layout : option Layout)
    (client : Point) : Panel :=
  match isDragging s, layout with
  | true, Some l =>
      let deltaX := px client - px (dragStartRef s) in
      let deltaY := py client - py (dragStartRef s) in
      let newX := px (startPosRef s) + deltaX in
      let newY := py (startPosRef s) + deltaY in
      let minX := - panelW l + SAFE_MARGIN in
      let maxX := containerW l - SAFE_MARGIN in
      let minY := - panelH l + SAFE_MARGIN in
      let maxY := containerH l - SAFE_MARGIN in
      {| position :=
           {| px := Rmax minX (Rmin newX maxX);
              py := Rmax minY (Rmin newY maxY) |};
         isDragging := isDragging s;
         dragStartRef := dragStartRef s;
         startPosRef := startPosRef s |}
  | _, _ => s
  end.

Definition handleDragEnd (s : Panel) : Panel :=
  {| position := position s;
     isDragging := false;
     dragStartRef := dragStartRef s;
     startPosRef := startPosRef s |}.

(** The positions the clamp of [handleDragMove] allows. *)
Definition Within (l : Layout) (p : Point) : Prop :=
  SAFE_MARGIN <= px p + panelW l /\ px p <= containerW l - SAFE_MARGIN /\
  SAFE_MARGIN <= py p + panelH l /\ py p <= containerH l - SAFE_MARGIN.

End PanelDrag.

(* ================================================================== *)
(** ** components/ControlPad.tsx: the numbers shown *)

Module ControlPad.

Local Open Scope R_scope.

(** [Math.round]: the integer nearest to [v], halves going up. *)
Definition round (v : R) : Z := Int_part (v + 0.5).

Definition xPercent (result : HandTrackingResult R) : Z :=
  round (x result * 100).

Definition yPercent (result : HandTrackingResult R) : Z :=
  round (y result * 100).

(** [result.handSpread ? ... : 0]. *)
Definition spreadPercent (result : HandTrackingResult R) : R :=
  match handSpread result with
  | Some h =>
      if Req_dec_T h 0 then 0
      else Rmax 0 (Rmin 100 ((h - 0.35) / 0.65 * 100))
  | None => 0
  end.

(** The width of the bar, in percent. *)
Definition barWidth (result : HandTrackingResult R) : R :=
  if Gesture_eqb (gesture result) GENERAL then spreadPercent result else 0.

End ControlPad.

(* ================================================================== *)
(** ** components/GameCanvas.tsx: the step of the animation *)

Module GameCanvas.

Local Open Scope R_scope.

Definition CANVAS_WIDTH : R := 800.
Definition CANVAS_HEIGHT : R := 600.
Definition OBJECT_SIZE : R := 40.

Record TrailPoint : Type := {
  t_x : R;
  t_y : R;
  t_alpha : R;
  t_size : R
}.

(** [positionRef], [sizeRef] and [trailRef]. *)
Record Game : Type := {
  posX : R;
  posY : R;
  size : R;
  trail : list TrailPoint
}.

Definition initialGame : Game :=
  {| posX := CANVAS_WIDTH / 2; posY := CANVAS_HEIGHT / 2; size := OBJECT_SIZE;
     trail := [] |}.

(** The size the cursor goes to. *)
Definition targetSizeOf (g : Game) (trackingResult : HandTrackingResult R) : R :=
  if isDetected trackingResult then
    if Gesture_eqb (gesture trackingResult) POINTING then 40
    else
      match handSpread trackingResult with
      | Some h =>
          let minSpread := 0.35 in
          let maxSpread := 1 in
          let t := (h - minSpread) / (maxSpread - minSpread) in
          let t := Rmax 0 (Rmin 1 t) in
          let minSize := 15 in
          let maxSize := 140 in
          minSize + t * (maxSize - minSize)
      | None => size g
      end
  else size g.

Definition targetXOf (g : Game) (trackingResult : HandTrackingResult R) : R :=
  if isDetected trackingResult then
    let padding := size g in
    Rmax padding (Rmin (CANVAS_WIDTH - padding) (x trackingResult * CANVAS_WIDTH))
  else posX g.

Definition targetYOf (g : Game) (trackingResult : HandTrackingResult R) : R :=
  if isDetected trackingResult then
    let padding := size g in
    Rmax padding (Rmin (CANVAS_HEIGHT - padding) (y trackingResult * CANVAS_HEIGHT))
  else posY g.

(** [shift()] when the trail is longer than 20. *)
Definition trimTrail (points : list TrailPoint) : list TrailPoint :=
  if (20 <? length points)%nat then tl points else points.

(** Drawing a point of the trail takes 0.05 off its alpha. *)
Definition fade (p : TrailPoint) : TrailPoint :=
  {| t_x := t_x p; t_y := t_y p; t_alpha := t_alpha p - 0.05;
     t_size := t_size p |}.

(** One call of [animate] with the canvas and its context there. *)
Definition animateStep (g : Game) (trackingResult : HandTrackingResult R)
  : Game :=
  let lerpFactor := 0.15 in
  let sizeLerpFactor := 0.1 in
  let newX := posX g + (targetXOf g trackingResult - posX g) * lerpFactor in
  let newY := posY g + (targetYOf g trackingResult - posY g) * lerpFactor in
  let newSize :=
    size g + (targetSizeOf g trackingResult - size g) * sizeLerpFactor in
  let pushed :=
    if isDetected trackingResult
    then trail g ++ [ {| t_x := newX; t_y := newY; t_alpha := 1;
                         t_size := newSize |} ]
    else trail g in
  {| posX := newX; posY := newY; size := newSize;
     trail := map fade (trimTrail pushed) |}.

(** The colour of the cursor of a detected hand that does not point, as
    red, green and blue. *)
Definition cursorColor (g : Game) : R * R * R :=
  let t := (size g - 15) / (140 - 15) in
  if Rlt_dec t 0.5 then
    let localT := t * 2 in
    (245 + (6 - 245) * localT,
     158 + (182 - 158) * localT,
     11 + (212 - 11) * localT)
  else
    let localT := (t - 0.5) * 2 in
    (6 + (217 - 6) * localT,
     182 + (70 - 182) * localT,
     212 + (239 - 212) * localT).

Fixpoint animateSteps (g : Game) (results : list (HandTrackingResult R))
  : Game :=
  match results with
  | [] => g
  | r :: rest => animateSteps (animateStep g r) rest
  end.

(** The ranges of the cursor: its radius, and its centre on the canvas. *)
Definition InRange (g : Game) : Prop :=
  15 <= size g <= 140 /\
  15 <= posX g <= CANVAS_WIDTH - 15 /\
  15 <= posY g <= CANVAS_HEIGHT - 15.

(** The number of results with a hand. *)
Definition detections (results : list (HandTrackingResult R)) : nat :=
  length (filter (fun r => isDetected r) results).

End GameCanvas.

(* ================================================================== *)
(** ** components/GameCanvas.tsx: the step of the animation on numbers
       that may be NaN *)

Module GameCanvasNaN.
Import GameCanvas.

Local Open Scope R_scope.

(** [processVideoFrame] can return a NaN for [x], [y] and [handSpread].
    A number is here a real number or NaN: an arithmetic operation,
    [Math.max] and [Math.min] give NaN as soon as an operand is NaN, and a
    comparison with NaN is false.  Rounding is left out as before. *)
Inductive JSNum : Type :=
| Num (v : R)
| NaN.

Definition lift2 (f : R -> R -> R) (a b : JSNum) : JSNum :=
  match a, b with
  | Num u, Num v => Num (f u v)
  | _, _ => NaN
  end.

Definition nadd : JSNum -> JSNum -> JSNum := lift2 Rplus.
Definition nsub : JSNum -> JSNum -> JSNum := lift2 Rminus.
Definition nmul : JSNum -> JSNum -> JSNum := lift2 Rmult.
Definition ndiv : JSNum -> JSNum -> JSNum := lift2 Rdiv.
Definition nmax : JSNum -> JSNum -> JSNum := lift2 Rmax.
Definition nmin : JSNum -> JSNum -> JSNum := lift2 Rmin.

(** [a < b]. *)
Definition nltb (a b : JSNum) : bool :=
  match a, b with
  | Num u, Num v => if Rlt_dec u v then true else false
  | _, _ => false
  end.

Record TrailPointN : Type := {
  n_x : JSNum;
  n_y : JSNum;
  n_alpha : JSNum;
  n_size : JSNum
}.

Record GameN : Type := {
  posXN : JSNum;
  posYN : JSNum;
  sizeN : JSNum;
  trailN : list TrailPointN
}.

Definition initialGameN : GameN :=
  {| posXN := ndiv (Num CANVAS_WIDTH) (Num 2);
     posYN := ndiv (Num CANVAS_HEIGHT) (Num 2);
     sizeN := Num OBJECT_SIZE;
     trailN := [] |}.

Definition targetSizeOfN (g : GameN) (trackingResult : HandTrackingResult JSNum)
  : JSNum :=
  if isDetected trackingResult then
    if Gesture_eqb (gesture trackingResult) POINTING then Num 40
    else
      match handSpread trackingResult with
      | Some h =>
          let minSpread := Num 0.35 in
          let maxSpread := Num 1 in
          let t := ndiv (nsub h minSpread) (nsub maxSpread minSpread) in
          let t := nmax (Num 0) (nmin (Num 1) t) in
          let minSize := Num 15 in
          let maxSize := Num 140 in
          nadd minSize (nmul t (nsub maxSize minSize))
      | None => sizeN g
      end
  else sizeN g.

Definition targetXOfN (g : GameN) (trackingResult : HandTrackingResult JSNum)
  : JSNum :=
  if isDetected trackingResult then
    let padding := sizeN g in
    nmax padding
      (nmin (nsub (Num CANVAS_WIDTH) padding)
         (nmul (x trackingResult) (Num CANVAS_WIDTH)))
  else posXN g.

Definition targetYOfN (g : GameN) (trackingResult : HandTrackingResult JSNum)
  : JSNum :=
  if isDetected trackingResult then
    let padding := sizeN g in
    nmax padding
      (nmin (nsub (Num CANVAS_HEIGHT) padding)
         (nmul (y trackingResult) (Num CANVAS_HEIGHT)))
  else posYN g.

Definition trimTrailN (points : list TrailPointN) : list TrailPointN :=
  if (20 <? length points)%nat then tl points else points.

Definition fadeN (p : TrailPointN) : TrailPointN :=
  {| n_x := n_x p; n_y := n_y p; n_alpha := nsub (n_alpha p) (Num 0.05);
     n_size := n_size p |}.

(** One call of [animate] with the canvas and its context there. *)
Definition animateStepN (g : GameN) (trackingResult : HandTrackingResult JSNum)
  : GameN :=
  let lerpFactor := Num 0.15 in
  let sizeLerpFactor := Num 0.1 in
  let newX :=
    nadd (posXN g) (nmul (nsub (targetXOfN g trackingResult) (posXN g))
                      lerpFactor) in
  let newY :=
    nadd (posYN g) (nmul (nsub (targetYOfN g trackingResult) (posYN g))
                      lerpFactor) in
  let newSize :=
    nadd (sizeN g) (nmul (nsub (targetSizeOfN g trackingResult) (sizeN g))
                      sizeLerpFactor) in
  let pushed :=
    if isDetected trackingResult
    then trailN g ++ [ {| n_x := newX; n_y := newY; n_alpha := Num 1;
                          n_size := newSize |} ]
    else trailN g in
  {| posXN := newX; posYN := newY; sizeN := newSize;
     trailN := map fadeN (trimTrailN pushed) |}.

(** The colour of the cursor of a detected hand that does not point. *)
Definition cursorColorN (g : GameN) : JSNum * JSNum * JSNum :=
  let t := ndiv (nsub (sizeN g) (Num 15)) (nsub (Num 140) (Num 15)) in
  if nltb t (Num 0.5) then
    let localT := nmul t (Num 2) in
    (nadd (Num 245) (nmul (nsub (Num 6) (Num 245)) localT),
     nadd (Num 158) (nmul (nsub (Num 182) (Num 158)) localT),
     nadd (Num 11) (nmul (nsub (Num 212) (Num 11)) localT))
  else
    let localT := nmul (nsub t (Num 0.5)) (Num 2) in
    (nadd (Num 6) (nmul (nsub (Num 217) (Num 6)) localT),
     nadd (Num 182) (nmul (nsub (Num 70) (Num 182)) localT),
     nadd (Num 212) (nmul (nsub (Num 239) (Num 212)) localT)).

Fixpoint animateStepsN (g : GameN) (results : list (HandTrackingResult JSNum))
  : GameN :=
  match results with
  | [] => g
  | r :: rest => animateStepsN (animateStepN g r) rest
  end.

(** What the step reads of the result is a number: [x] and [y] of a
    detected hand, and its spread unless it points. *)
Definition ReadsNumbers (trackingResult : HandTrackingResult JSNum) : Prop :=
  isDetected trackingResult = true ->
  x trackingResult <> NaN /\ y trackingResult <> NaN /\
  (gesture trackingResult <> POINTING ->
   handSpread trackingResult <> Some NaN).

(** The real numbers among the numbers. *)
Definition realOf (a : JSNum) : R :=
  match a with
  | Num v => v
  | NaN => 0
  end.

Definition realResult (trackingResult : HandTrackingResult JSNum)
  : HandTrackingResult R :=
  {| x := realOf (x trackingResult);
     y := realOf (y trackingResult);
     isDetected := isDetected trackingResult;
     gesture := gesture trackingResult;
     handSpread := option_map realOf (handSpread trackingResult) |}.

Definition numPoint (p : TrailPoint) : TrailPointN :=
  {| n_x := Num (t_x p); n_y := Num (t_y p); n_alpha := Num (t_alpha p);
     n_size := Num (t_size p) |}.

Definition numGame (g : Game) : GameN :=
  {| posXN := Num (posX g); posYN := Num (posY g); sizeN := Num (size g);
     trailN := map numPoint (trail g) |}.

End GameCanvasNaN.

(* ================================================================== *)
(** ** Verification of the hand-tracking service *)

Module TrackingFacts.
Import LocalGestureService.

Section Generic.

Context {num : Type} {J : JSNumber num}.

(** Splits a list known to hold at least 21 elements into its first 21
    and the rest; shorter lists are closed by [tac]. *)
Ltac peel21 l tac :=
  do 21 (destruct l as [| ? l]; [ tac | ]).

Lemma classify_short (landmarks : list (Landmark num)) :
  (length landmarks < 21)%nat -> classify landmarks = None.
Proof.
  intros Hlen.
  peel21 landmarks ltac:(reflexivity).
  cbn in Hlen. lia.
Qed.

Lemma classify_long (landmarks : list (Landmark num)) :
  (21 <= length landmarks)%nat -> exists c, classify landmarks = Some c.
Proof.
  intros Hlen.
  peel21 landmarks ltac:(cbn in Hlen; lia).
  unfold classify.
  cbn [landmarkAt nth_error bind isFingerExtended isThumbExtended
       calculateCentroid sumCoordinates sumDistances allTips].
  match goal with
  | |- context [selectGesture ?a ?b ?c ?d ?e] =>
      generalize a, b, c, d, e
  end.
  intros [] [] [] [] []; cbn; eexists; reflexivity.
Qed.

Lemma frame_zero_dimension (handLandmarker : option Detection)
    (video : Video) (debugCanvas : bool) :
  videoWidth video = 0%N \/ videoHeight video = 0%N ->
  processVideoFrame handLandmarker video debugCanvas = (noResult, []).
Proof.
  intros Hz. unfold processVideoFrame.
  destruct handLandmarker as [d |]; [ | reflexivity ].
  destruct Hz as [-> | ->]; cbn; [ reflexivity | ].
  now rewrite orb_true_r.
Qed.

Lemma frame_dimension_test (video : Video) :
  videoWidth video <> 0%N -> videoHeight video <> 0%N ->
  (videoWidth video =? 0)%N || (videoHeight video =? 0)%N = false.
Proof.
  intros Hw Hh.
  apply N.eqb_neq in Hw, Hh. now rewrite Hw, Hh.
Qed.

Lemma frame_result_cases (handLandmarker : option Detection)
    (video : Video) (debugCanvas : bool) :
  fst (processVideoFrame handLandmarker video debugCanvas) = noResult \/
  isDetected (fst (processVideoFrame handLandmarker video debugCanvas)) = true.
Proof.
  unfold processVideoFrame.
  destruct handLandmarker as [[| [[| landmarks hands] |]] |];
    destruct ((videoWidth video =? 0)%N || (videoHeight video =? 0)%N);
    cbn; auto.
  destruct (classify landmarks); cbn; auto.
Qed.

Lemma frame_no_pose (video : Video) (debugCanvas : bool) (d : Detection) :
  d = DetectReturns None \/ d = DetectReturns (Some []) ->
  fst (processVideoFrame (Some d) video debugCanvas) = noResult.
Proof.
  intros [-> | ->]; unfold processVideoFrame;
    destruct ((videoWidth video =? 0)%N || (videoHeight video =? 0)%N);
    reflexivity.
Qed.

Lemma frame_of_hand (landmarks : list (Landmark num))
    (hands : list (list (Landmark num))) (video : Video) (debugCanvas : bool)
    (c : Classified) :
  videoWidth video <> 0%N -> videoHeight video <> 0%N ->
  classify landmarks = Some c ->
  fst (processVideoFrame (Some (DetectReturns (Some (landmarks :: hands))))
         video debugCanvas)
  = {| x := (fromZ 1 - c_targetX c)%js;
       y := c_targetY c;
       isDetected := true;
       gesture := c_gesture c;
       handSpread := Some (c_handSpread c) |}.
Proof.
  intros Hw Hh Hc. unfold processVideoFrame.
  rewrite (frame_dimension_test video Hw Hh), Hc. reflexivity.
Qed.

(** *** Depth is never read *)

Lemma landmarkAt_flat (landmarks : list (Landmark num)) (i : nat) :
  landmarkAt (map flat landmarks) i = option_map flat (landmarkAt landmarks i).
Proof. unfold landmarkAt. apply nth_error_map. Qed.

Lemma sumCoordinates_flat (landmarks : list (Landmark num)) (ids : list nat) :
  forall sums,
    sumCoordinates (map flat landmarks) ids sums
    = sumCoordinates landmarks ids sums.
Proof.
  induction ids as [| id rest IH]; intros sums; cbn [sumCoordinates].
  - reflexivity.
  - rewrite landmarkAt_flat.
    destruct (landmarkAt landmarks id) as [l |]; cbn [bind option_map flat lm_x lm_y]; [ apply IH | reflexivity ].
Qed.

Lemma sumDistances_flat (landmarks : list (Landmark num)) (ids : list nat)
    (centroid : num * num) :
  forall total,
    sumDistances (map flat landmarks) ids centroid total
    = sumDistances landmarks ids centroid total.
Proof.
  induction ids as [| id rest IH]; intros total; cbn [sumDistances].
  - reflexivity.
  - rewrite landmarkAt_flat.
    destruct (landmarkAt landmarks id) as [l |]; cbn [bind option_map flat lm_x lm_y]; [ apply IH | reflexivity ].
Qed.

Lemma isFingerExtended_flat (landmarks : list (Landmark num))
    (tipIdx pipIdx : nat) (palmScale : num) :
  isFingerExtended (map flat landmarks) tipIdx pipIdx palmScale
  = isFingerExtended landmarks tipIdx pipIdx palmScale.
Proof.
  unfold isFingerExtended. rewrite !landmarkAt_flat.
  destruct (landmarkAt landmarks 0); cbn [bind option_map flat lm_x lm_y]; [ | reflexivity ].
  destruct (landmarkAt landmarks tipIdx); cbn [bind option_map flat lm_x lm_y]; [ | reflexivity ].
  destruct (landmarkAt landmarks pipIdx); cbn [bind option_map flat lm_x lm_y]; reflexivity.
Qed.

Lemma isThumbExtended_flat (landmarks : list (Landmark num)) (palmScale : num) :
  isThumbExtended (map flat landmarks) palmScale
  = isThumbExtended landmarks palmScale.
Proof.
  unfold isThumbExtended. rewrite !landmarkAt_flat.
  destruct (landmarkAt landmarks 4); cbn [bind option_map flat lm_x lm_y]; [ | reflexivity ].
  destruct (landmarkAt landmarks 3); cbn [bind option_map flat lm_x lm_y]; [ | reflexivity ].
  destruct (landmarkAt landmarks 17); cbn [bind option_map flat lm_x lm_y]; reflexivity.
Qed.

Lemma calculateCentroid_flat (landmarks : list (Landmark num)) (ids : list nat) :
  calculateCentroid (map flat landmarks) ids = calculateCentroid landmarks ids.
Proof. unfold calculateCentroid. now rewrite sumCoordinates_flat. Qed.

Ltac case_bind :=
  match goal with
  | |- bind (option_map flat ?m) _ = bind ?m _ =>
      destruct m; cbn [bind option_map flat lm_x lm_y]; [ | reflexivity ]
  | |- bind ?m _ = bind ?m _ =>
      destruct m; cbn [bind]; [ | reflexivity ]
  end.

Lemma classify_flat (landmarks : list (Landmark num)) :
  classify (map flat landmarks) = classify landmarks.
Proof.
  unfold classify.
  repeat
    (first [ rewrite landmarkAt_flat; case_bind
           | rewrite isFingerExtended_flat; case_bind
           | rewrite isThumbExtended_flat; case_bind
           | rewrite calculateCentroid_flat; case_bind
           | rewrite sumDistances_flat; case_bind ]).
  match goal with
  | |- (if ?b then _ else _) = _ => destruct b; [ | reflexivity ]
  end.
  rewrite landmarkAt_flat.
  match goal with
  | |- context [landmarkAt landmarks ?i] => destruct (landmarkAt landmarks i)
  end; reflexivity.
Qed.

Lemma flat_of_xy (l1 l2 : list (Landmark num)) :
  map xy l1 = map xy l2 -> map flat l1 = map flat l2.
Proof.
  intros Hxy.
  assert (Hf : forall l : list (Landmark num),
             map flat l
             = map (fun p => {| lm_x := fst p; lm_y := snd p; lm_z := fromZ 0 |})
                 (map xy l)).
  { intros l. rewrite map_map. reflexivity. }
  now rewrite (Hf l1), (Hf l2), Hxy.
Qed.

Lemma classify_xy (l1 l2 : list (Landmark num)) :
  map xy l1 = map xy l2 -> classify l1 = classify l2.
Proof.
  intros Hxy.
  rewrite <- (classify_flat l1), <- (classify_flat l2).
  now rewrite (flat_of_xy _ _ Hxy).
Qed.

(** *** The claims about the service *)

(** C1. On a pose of 21 landmarks the classifier succeeds and follows the
    priority order: when middle, ring and pinky are all not extended and
    the index is extended, the gesture is POINTING and the target is the
    index tip (landmark 8), whatever the thumb does; otherwise, when the
    three are not extended and the thumb is extended, the gesture is
    POINTING and the target is the thumb tip (landmark 4); in every other
    case the gesture is GENERAL and the target is the centroid of the five
    fingertips, the mean of the landmarks 4, 8, 12, 16 and 20: their
    coordinates summed in this order from 0 and divided by 5.  On a frame
    of non-zero size the returned result carries that gesture and that
    target (with [x] mirrored). *)
Theorem classifier_priority_order (landmarks : list (Landmark num)) :
  length landmarks = 21%nat ->
  exists (wrist middleMCP thumbTip indexTip middleTip ringTip pinkyTip
            : Landmark num)
         (isIndex isMiddle isRing isPinky isThumb : bool)
         (c : Classified),
    landmarkAt landmarks 0 = Some wrist /\
    landmarkAt landmarks 9 = Some middleMCP /\
    landmarkAt landmarks 4 = Some thumbTip /\
    landmarkAt landmarks 8 = Some indexTip /\
    landmarkAt landmarks 12 = Some middleTip /\
    landmarkAt landmarks 16 = Some ringTip /\
    landmarkAt landmarks 20 = Some pinkyTip /\
    (let palmScale :=
       hypot (lm_x wrist - lm_x middleMCP)%js (lm_y wrist - lm_y middleMCP)%js in
     isFingerExtended landmarks 8 6 palmScale = Some isIndex /\
     isFingerExtended landmarks 12 10 palmScale = Some isMiddle /\
     isFingerExtended landmarks 16 14 palmScale = Some isRing /\
     isFingerExtended landmarks 20 18 palmScale = Some isPinky /\
     isThumbExtended landmarks palmScale = Some isThumb) /\
    (let centroidX :=
       ((fromZ 0 + lm_x thumbTip + lm_x indexTip + lm_x middleTip
         + lm_x ringTip + lm_x pinkyTip) / fromZ 5)%js in
     let centroidY :=
       ((fromZ 0 + lm_y thumbTip + lm_y indexTip + lm_y middleTip
         + lm_y ringTip + lm_y pinkyTip) / fromZ 5)%js in
     calculateCentroid landmarks [4; 8; 12; 16; 20]%nat
     = Some (centroidX, centroidY) /\
     classify landmarks = Some c /\
     (let othersCurled := negb isMiddle && negb isRing && negb isPinky in
      if othersCurled && isIndex then
        c_gesture c = POINTING /\
        c_targetX c = lm_x indexTip /\ c_targetY c = lm_y indexTip
      else if othersCurled && isThumb then
        c_gesture c = POINTING /\
        c_targetX c = lm_x thumbTip /\ c_targetY c = lm_y thumbTip
      else
        c_gesture c = GENERAL /\
        c_targetX c = centroidX /\ c_targetY c = centroidY)) /\
    (forall hands video debugCanvas,
        videoWidth video <> 0%N -> videoHeight video <> 0%N ->
        let r := fst (processVideoFrame
                        (Some (DetectReturns (Some (landmarks :: hands))))
                        video debugCanvas) in
        isDetected r = true /\ gesture r = c_gesture c /\
        x r = (fromZ 1 - c_targetX c)%js /\ y r = c_targetY c).
Proof.
  intros Hlen.
  peel21 landmarks ltac:(discriminate Hlen).
  destruct landmarks as [| extra rest]; [ clear Hlen | discriminate Hlen ].
  match goal with
  | |- context [classify ?l] => pose proof (eq_refl (classify l)) as Hc
  end.
  unfold classify at 2 in Hc.
  cbn [landmarkAt nth_error bind isFingerExtended isThumbExtended
       calculateCentroid sumCoordinates sumDistances allTips] in Hc.
  match type of Hc with
  | context [selectGesture ?a ?b ?c ?d ?e] =>
      remember a as isIndex eqn:EI; remember b as isMiddle eqn:EM;
      remember c as isRing eqn:ER; remember d as isPinky eqn:EP;
      remember e as isThumb eqn:ET
  end.
  destruct isIndex, isMiddle, isRing, isPinky, isThumb;
    cbn [selectGesture negb andb fst snd Gesture_eqb Z.eqb Z.to_nat
         Pos.to_nat Pos.iter_op Nat.add landmarkAt nth_error bind] in Hc;
    do 13 eexists; cbv zeta;
    repeat match goal with |- _ /\ _ => split end;
    try exact Hc;
    try (cbn [landmarkAt nth_error bind isFingerExtended isThumbExtended];
         first [ rewrite <- EI | rewrite <- EM | rewrite <- ER
               | rewrite <- EP | rewrite <- ET ]; reflexivity);
    try reflexivity;
    try (cbn; auto; fail).
  all: intros hands video debugCanvas Hw Hh;
    rewrite (frame_of_hand _ hands video debugCanvas Hw Hh Hc); cbn; auto.
Qed.

(** C3. The frame producer returns exactly the neutral result
    [{x: 0.5, y: 0.5, isDetected: false, gesture: NONE, handSpread: 0}]
    when the frame has zero width or height (and then it returns at once:
    no call is made, the detector is not run), when no pose is present,
    when the detector throws and when reading the landmarks throws.  It
    returns a result on every input, and a result that is not a detection
    is the neutral one. *)
Theorem neutral_result_on_absence_or_fault
    (handLandmarker : option Detection) (video : Video) (debugCanvas : bool) :
  noResult
  = {| x := dec 5 1; y := dec 5 1; isDetected := false; gesture := NONE;
       handSpread := Some (fromZ 0) |} /\
  (videoWidth video = 0%N \/ videoHeight video = 0%N ->
   processVideoFrame handLandmarker video debugCanvas = (noResult, [])) /\
  (handLandmarker = None ->
   processVideoFrame handLandmarker video debugCanvas = (noResult, [])) /\
  (handLandmarker = Some (DetectReturns None) \/
   handLandmarker = Some (DetectReturns (Some [])) ->
   fst (processVideoFrame handLandmarker video debugCanvas) = noResult) /\
  (handLandmarker = Some DetectThrows ->
   fst (processVideoFrame handLandmarker video debugCanvas) = noResult) /\
  (forall landmarks hands,
      handLandmarker = Some (DetectReturns (Some (landmarks :: hands))) ->
      classify landmarks = None ->
      fst (processVideoFrame handLandmarker video debugCanvas) = noResult) /\
  (isDetected (fst (processVideoFrame handLandmarker video debugCanvas)) = false ->
   fst (processVideoFrame handLandmarker video debugCanvas) = noResult).
Proof.
  split; [ reflexivity | ].
  split; [ apply frame_zero_dimension | ].
  split; [ intros ->; reflexivity | ].
  split.
  { intros [-> | ->]; apply frame_no_pose; auto. }
  split.
  { intros ->; unfold processVideoFrame;
      destruct ((videoWidth video =? 0)%N || (videoHeight video =? 0)%N);
      reflexivity. }
  split.
  { intros landmarks hands -> Hc; unfold processVideoFrame; rewrite Hc.
    destruct ((videoWidth video =? 0)%N || (videoHeight video =? 0)%N);
      reflexivity. }
  intros Hd.
  destruct (frame_result_cases handLandmarker video debugCanvas) as [E | E];
    [ exact E | congruence ].
Qed.

(** C8 (as the code has it). A pose of fewer than 21 landmarks is returned
    as the neutral no-detection result: the read outside the array throws
    and the exception is caught.  The coordinates themselves are not
    screened: on a frame of non-zero size every pose of at least 21
    landmarks is returned with [isDetected = true], whatever its
    coordinates are. *)
Theorem short_pose_rejected_long_pose_accepted
    (landmarks : list (Landmark num)) (hands : list (list (Landmark num)))
    (video : Video) (debugCanvas : bool) :
  ((length landmarks < 21)%nat ->
   classify landmarks = None /\
   fst (processVideoFrame (Some (DetectReturns (Some (landmarks :: hands))))
          video debugCanvas) = noResult) /\
  ((21 <= length landmarks)%nat ->
   videoWidth video <> 0%N -> videoHeight video <> 0%N ->
   isDetected
     (fst (processVideoFrame (Some (DetectReturns (Some (landmarks :: hands))))
             video debugCanvas)) = true).
Proof.
  split.
  - intros Hlen. pose proof (classify_short landmarks Hlen) as Hc.
    split; [ exact Hc | ].
    unfold processVideoFrame. rewrite Hc.
    destruct ((videoWidth video =? 0)%N || (videoHeight video =? 0)%N);
      reflexivity.
  - intros Hlen Hw Hh.
    destruct (classify_long landmarks Hlen) as [c Hc].
    now rewrite (frame_of_hand _ hands video debugCanvas Hw Hh Hc).
Qed.

(** C10. The result depends on the [x] and [y] of the landmarks only: two
    poses with the same [x] and [y], whatever their depths, give the same
    result (and the same calls) on the same frame. *)
Theorem result_ignores_depth
    (l1 l2 : list (Landmark num)) (hands1 hands2 : list (list (Landmark num)))
    (video : Video) (debugCanvas : bool) :
  map xy l1 = map xy l2 ->
  processVideoFrame (Some (DetectReturns (Some (l1 :: hands1)))) video debugCanvas
  = processVideoFrame (Some (DetectReturns (Some (l2 :: hands2)))) video debugCanvas.
Proof.
  intros Hxy. unfold processVideoFrame.
  now rewrite (classify_xy l1 l2 Hxy).
Qed.

End Generic.

(** *** The claims at sample inputs, on doubles *)

Import Samples.

Lemma classifier_priority_order_witness :
  length pointing_pose = 21%nat /\
  (exists c : Classified,
      classify pointing_pose = Some c /\ c_gesture c = POINTING /\
      c_targetX c = dec 75 2 /\ c_targetY c = dec 50 2) /\
  calculateCentroid pointing_pose [4; 8; 12; 16; 20]%nat
  = Some ((fromZ 0 + dec 40 2 + dec 75 2 + dec 50 2 + dec 45 2 + dec 40 2)
          / fromZ 5,
          (fromZ 0 + dec 80 2 + dec 50 2 + dec 70 2 + dec 70 2 + dec 72 2)
          / fromZ 5)%js.
Proof.
  split; [ reflexivity | ].
  destruct (@classifier_priority_order float float_JSNumber pointing_pose eq_refl)
    as (wrist & middleMCP & thumbTip & indexTip & middleTip & ringTip
        & pinkyTip & isIndex & isMiddle & isRing & isPinky & isThumb & c
        & _ & _ & H4 & H8 & H12 & H16 & H20 & _ & Hrest & _).
  cbv zeta in Hrest. destruct Hrest as (Hcen & Hc & _).
  split.
  - exists c. split; [ exact Hc | ].
    vm_compute in Hc. injection Hc as <-. vm_compute. auto.
  - rewrite Hcen.
    vm_compute in H4, H8, H12, H16, H20.
    injection H4 as <-. injection H8 as <-. injection H12 as <-.
    injection H16 as <-. injection H20 as <-.
    reflexivity.
Defined.

Lemma neutral_result_on_absence_or_fault_witness :
  processVideoFrame (Some (DetectReturns (Some [pointing_pose])))
    {| videoWidth := 0; videoHeight := 480 |} true
  = (noResult, []) /\
  fst (processVideoFrame (Some (DetectReturns (Some [short_pose]))) vga true)
  = noResult.
Proof.
  split.
  - apply (proj1 (proj2 (@neutral_result_on_absence_or_fault float float_JSNumber
                           (Some (DetectReturns (Some [pointing_pose])))
                           {| videoWidth := 0; videoHeight := 480 |} true))).
    left. reflexivity.
  - apply (proj1 (proj2 (proj2 (proj2 (proj2 (proj2
             (@neutral_result_on_absence_or_fault float float_JSNumber
                (Some (DetectReturns (Some [short_pose]))) vga true))))))
           short_pose []); reflexivity.
Defined.

(** C8 as stated fails: a pose of 21 landmarks whose thumb tip and index
    tip have a NaN for [x] is returned as a detection, with a NaN [x] and a
    NaN [handSpread]. *)
Lemma nan_pose_is_detected :
  length nan_pose = 21%nat /\
  option_map (fun l => PrimFloat.is_nan (lm_x l)) (nth_error nan_pose 4)
  = Some true /\
  option_map (fun l => PrimFloat.is_nan (lm_x l)) (nth_error nan_pose 8)
  = Some true /\
  isDetected
    (fst (processVideoFrame (Some (DetectReturns (Some [nan_pose]))) vga false))
  = true /\
  gesture
    (fst (processVideoFrame (Some (DetectReturns (Some [nan_pose]))) vga false))
  = GENERAL /\
  PrimFloat.is_nan
    (x (fst (processVideoFrame (Some (DetectReturns (Some [nan_pose]))) vga false)))
  = true /\
  option_map PrimFloat.is_nan
    (handSpread
       (fst (processVideoFrame (Some (DetectReturns (Some [nan_pose]))) vga false)))
  = Some true.
Proof. vm_compute. repeat split. Qed.

Lemma short_pose_rejected_long_pose_accepted_witness :
  fst (processVideoFrame (Some (DetectReturns (Some [short_pose]))) vga false)
  = noResult /\
  isDetected
    (fst (processVideoFrame (Some (DetectReturns (Some [nan_pose]))) vga false))
  = true.
Proof.
  split.
  - apply (proj1 (@short_pose_rejected_long_pose_accepted float float_JSNumber
                    short_pose [] vga false)).
    vm_compute. lia.
  - apply (proj2 (@short_pose_rejected_long_pose_accepted float float_JSNumber
                    nan_pose [] vga false)).
    + vm_compute. lia.
    + discriminate.
    + discriminate.
Defined.

Lemma result_ignores_depth_witness :
  map xy pointing_pose = map xy pointing_pose_deep /\
  pointing_pose <> pointing_pose_deep /\
  processVideoFrame (Some (DetectReturns (Some [pointing_pose]))) vga true
  = processVideoFrame (Some (DetectReturns (Some [pointing_pose_deep]))) vga true.
Proof.
  split; [ reflexivity | split; [ discriminate | ] ].
  apply (@result_ignores_depth float float_JSNumber
           pointing_pose pointing_pose_deep [] [] vga true).
  reflexivity.
Defined.

End TrackingFacts.

(* ================================================================== *)
(** ** Verification of the formation switch *)

Module FormationFacts.
Import ChristmasTree.

Local Open Scope R_scope.

(** Decides the tests on reals met after unfolding. *)
Ltac decide_tests :=
  repeat
    match goal with
    | |- context [Rgt_dec ?a ?b] => destruct (Rgt_dec a b)
    | |- context [Rlt_dec ?a ?b] => destruct (Rlt_dec a b)
    | |- context [(?a >? ?b)%Z] => destruct (Z.gtb_spec a b)
    end.

Lemma clamp_cases (v : R) :
  (v <= 0 /\ Rmax 0 (Rmin 1 v) = 0) \/
  (0 <= v <= 1 /\ Rmax 0 (Rmin 1 v) = v) \/
  (1 <= v /\ Rmax 0 (Rmin 1 v) = 1).
Proof.
  unfold Rmin. destruct (Rle_dec 1 v) as [H1 | H1];
    unfold Rmax;
    match goal with |- context [Rle_dec ?a ?b] => destruct (Rle_dec a b) end;
    lra.
Qed.

Lemma scaled_sign (s : R) :
  (s <= 0.35 -> (s - 0.35) / 0.65 <= 0) /\ (1 <= s -> 1 <= (s - 0.35) / 0.65).
Proof.
  split; intros Hs; apply Rmult_le_reg_r with 0.65; try lra;
    unfold Rdiv; rewrite Rmult_assoc, Rinv_l by lra; lra.
Qed.

Lemma normalizedSpread_bounds (tr : HandTrackingResult R) :
  0 <= normalizedSpread tr <= 1.
Proof.
  unfold normalizedSpread.
  destruct (clamp_cases ((orZero (handSpread tr) - 0.35) / 0.65))
    as [[? ->] | [[? ->] | [? ->]]]; lra.
Qed.

Lemma normalizedSpread_closed (tr : HandTrackingResult R) :
  handSpread tr = None \/ (exists h, handSpread tr = Some h /\ h <= 0.35) ->
  normalizedSpread tr = 0.
Proof.
  intros Hs. unfold normalizedSpread.
  assert (Hz : orZero (handSpread tr) <= 0.35).
  { destruct Hs as [-> | (h & -> & Hh)]; cbn; [ lra | ].
    destruct (Req_dec_T h 0); lra. }
  apply (proj1 (scaled_sign _)) in Hz.
  destruct (clamp_cases ((orZero (handSpread tr) - 0.35) / 0.65))
    as [[? ->] | [[? ->] | [? ->]]]; lra.
Qed.

Lemma normalizedSpread_open (tr : HandTrackingResult R) (h : R) :
  handSpread tr = Some h -> 1 <= h -> normalizedSpread tr = 1.
Proof.
  intros Hs Hh. unfold normalizedSpread. rewrite Hs. cbn.
  destruct (Req_dec_T h 0) as [E | _]; [ lra | ].
  apply (proj2 (scaled_sign _)) in Hh.
  destruct (clamp_cases ((h - 0.35) / 0.65))
    as [[? ->] | [[? ->] | [? ->]]]; lra.
Qed.

Lemma effect_unmounted (r : Refs) (tr : HandTrackingResult R) (now : Z) :
  controlsRef r = None \/ cameraRef r = None -> gestureEffect r tr now = r.
Proof.
  intros [E | E]; unfold gestureEffect; rewrite E;
    [ | destruct (controlsRef r) ]; reflexivity.
Qed.

Lemma trigger_state (state : FormationState) (v : R) (controls : OrbitControls) :
  fst (trigger state v controls) = nextStateOf state v.
Proof.
  unfold nextStateOf, trigger. decide_tests; destruct state; reflexivity.
Qed.

(** The four logic refs after a tick of a mounted component. *)
Lemma effect_logic (r : Refs) (tr : HandTrackingResult R) (now : Z)
    (controls : OrbitControls) (camera : Camera) :
  controlsRef r = Some controls -> cameraRef r = Some camera ->
  let r' := gestureEffect r tr now in
  let spread := normalizedSpread tr in
  (timeDelta r now > 0.1 ->
   (now - lastSwitchTimeRef r > COOLDOWN_MS)%Z ->
   stateRef r' = nextStateOf (stateRef r) (velocity r spread now) /\
   lastSpreadRef r' = spread /\ lastVelocityTimeRef r' = now /\
   (stateRef r' <> stateRef r -> lastSwitchTimeRef r' = now) /\
   (stateRef r' = stateRef r -> lastSwitchTimeRef r' = lastSwitchTimeRef r)) /\
  (timeDelta r now > 0.1 ->
   (now - lastSwitchTimeRef r <= COOLDOWN_MS)%Z ->
   stateRef r' = stateRef r /\ lastSpreadRef r' = spread /\
   lastVelocityTimeRef r' = now /\ lastSwitchTimeRef r' = lastSwitchTimeRef r) /\
  (~ timeDelta r now > 0.1 ->
   stateRef r' = stateRef r /\ lastSpreadRef r' = lastSpreadRef r /\
   lastVelocityTimeRef r' = lastVelocityTimeRef r /\
   lastSwitchTimeRef r' = lastSwitchTimeRef r).
Proof.
  intros Hc Hcam r' spread. subst r'.
  unfold gestureEffect. rewrite Hc, Hcam.
  cbn [stateRef lastSpreadRef lastSwitchTimeRef lastVelocityTimeRef].
  fold spread. unfold velocitySwitch.
  rewrite trigger_state.
  destruct (Rgt_dec (timeDelta r now) 0.1) as [Ht | Ht];
    destruct (Z.gtb_spec (now - lastSwitchTimeRef r) COOLDOWN_MS) as [Hcd | Hcd];
    (repeat split; intros; try lra; try lia);
    cbn [fst snd setLogic stateRef lastSpreadRef lastSwitchTimeRef
         lastVelocityTimeRef];
    try reflexivity.
  all: destruct (FormationState_eqb
                   (nextStateOf (stateRef r) (velocity r spread now))
                   (stateRef r)) eqn:E;
    unfold FormationState_eqb in E;
    [ apply Z.eqb_eq in E | apply Z.eqb_neq in E ];
    cbn [negb fst snd setLogic stateRef lastSpreadRef lastSwitchTimeRef
         lastVelocityTimeRef] in *;
    try reflexivity.
  all: try (destruct (nextStateOf (stateRef r) (velocity r spread now)),
              (stateRef r); cbn in E; try lia; try reflexivity; fail).
  - congruence.
  - exfalso. apply E. f_equal. assumption.
Qed.

Lemma nextStateOf_expand (state : FormationState) (v : R) :
  v > 2 ->
  nextStateOf state v
  = match state with TREE => EXPLODE | TEXT => TREE | EXPLODE => EXPLODE end.
Proof.
  intros Hv. unfold nextStateOf, trigger, EXPANSION_SPEED_THRESHOLD.
  destruct (Rgt_dec v 2); [ destruct state; reflexivity | lra ].
Qed.

Lemma nextStateOf_contract (state : FormationState) (v : R) :
  v < -1 ->
  nextStateOf state v
  = match state with EXPLODE => TEXT | TREE => TREE | TEXT => TEXT end.
Proof.
  intros Hv.
  unfold nextStateOf, trigger, EXPANSION_SPEED_THRESHOLD,
    CONTRACTION_SPEED_THRESHOLD.
  destruct (Rgt_dec v 2); [ lra | ].
  destruct (Rlt_dec v (-1)); [ destruct state; reflexivity | lra ].
Qed.

Lemma nextStateOf_calm (state : FormationState) (v : R) :
  -1 <= v <= 2 -> nextStateOf state v = state.
Proof.
  intros Hv.
  unfold nextStateOf, trigger, EXPANSION_SPEED_THRESHOLD,
    CONTRACTION_SPEED_THRESHOLD.
  destruct (Rgt_dec v 2); [ lra | ].
  destruct (Rlt_dec v (-1)); [ lra | reflexivity ].
Qed.

Lemma FormationState_eq_dec (a b : FormationState) : {a = b} + {a <> b}.
Proof. decide equality. Defined.

(** What a tick can do to the state and to the time of the last switch:
    nothing, or a switch made by the trigger table with the cooldown
    elapsed. *)
Lemma effect_cases (r : Refs) (tr : HandTrackingResult R) (now : Z) :
  let r' := gestureEffect r tr now in
  (stateRef r' = stateRef r /\ lastSwitchTimeRef r' = lastSwitchTimeRef r) \/
  (timeDelta r now > 0.1 /\
   (now - lastSwitchTimeRef r > COOLDOWN_MS)%Z /\
   stateRef r' = nextStateOf (stateRef r) (velocity r (normalizedSpread tr) now) /\
   stateRef r' <> stateRef r /\
   lastSwitchTimeRef r' = now).
Proof.
  intros r'. subst r'.
  destruct (controlsRef r) as [controls |] eqn:Hc;
    [ | rewrite effect_unmounted by auto; auto ].
  destruct (cameraRef r) as [camera |] eqn:Hcam;
    [ | rewrite effect_unmounted by auto; auto ].
  destruct (effect_logic r tr now Hc Hcam) as (Hgo & Hcool & Hskip).
  destruct (Rgt_dec (timeDelta r now) 0.1) as [Ht | Ht];
    [ | left; destruct (Hskip Ht) as (? & _ & _ & ?); auto ].
  destruct (Z.gtb_spec (now - lastSwitchTimeRef r) COOLDOWN_MS) as [Hcd | Hcd];
    [ | left; destruct (Hcool Ht Hcd) as (? & _ & _ & ?); auto ].
  assert (Hcd' : (now - lastSwitchTimeRef r > COOLDOWN_MS)%Z) by lia.
  destruct (Hgo Ht Hcd') as (Hs & _ & _ & Hchg & Hsame).
  destruct (FormationState_eq_dec (stateRef (gestureEffect r tr now)) (stateRef r))
    as [E | E]; [ left | right ]; auto 6.
Qed.

Lemma trigger_target (state : FormationState) (v : R) (controls : OrbitControls) :
  target (snd (trigger state v controls)) = target controls.
Proof.
  unfold trigger. decide_tests; destruct state; reflexivity.
Qed.

Lemma velocitySwitch_target (r : Refs) (controls : OrbitControls)
    (spread : R) (now : Z) :
  target (fst (velocitySwitch r controls spread now)) = target controls.
Proof.
  unfold velocitySwitch.
  destruct (Rgt_dec (timeDelta r now) 0.1); [ | reflexivity ].
  destruct (now - lastSwitchTimeRef r >? COOLDOWN_MS)%Z; [ | reflexivity ].
  destruct (negb _); cbn [fst]; apply trigger_target.
Qed.

Lemma effect_mounted (r : Refs) (tr : HandTrackingResult R) (now : Z)
    (controls : OrbitControls) (camera : Camera) :
  controlsRef r = Some controls -> cameraRef r = Some camera ->
  exists controls' camera',
    controlsRef (gestureEffect r tr now) = Some controls' /\
    cameraRef (gestureEffect r tr now) = Some camera' /\
    autoRotate controls'
    = negb (Gesture_eqb (gesture tr) POINTING && isDetected tr) /\
    target controls' = target controls.
Proof.
  intros Hc Hcam. unfold gestureEffect. rewrite Hc, Hcam.
  do 2 eexists. cbn [controlsRef cameraRef].
  split; [ reflexivity | split; [ reflexivity | ] ].
  pose proof (velocitySwitch_target r controls (normalizedSpread tr) now) as Ht.
  unfold steer.
  destruct (Gesture_eqb (gesture tr) POINTING && isDetected tr);
    cbn [fst autoRotate target setAutoRotate negb]; auto.
Qed.

(** The state does not move while the velocities stay between the two
    thresholds. *)
Lemma calm_run (ticks : list Tick) :
  forall r,
    velocitiesAlong (fun v => -1 <= v <= 2) r ticks ->
    stateRef (run r ticks) = stateRef r.
Proof.
  induction ticks as [| t rest IH]; intros r Hv; [ reflexivity | ].
  cbn [velocitiesAlong] in Hv. destruct Hv as [Hv Hrest].
  unfold run. cbn [fold_left]. fold (run (gestureEffect r (tickResult t) (tickNow t)) rest).
  rewrite (IH _ Hrest).
  destruct (effect_cases r (tickResult t) (tickNow t))
    as [[E _] | (Ht & _ & E & Hne & _)]; [ exact E | ].
  rewrite E. apply nextStateOf_calm. auto.
Qed.

(** No switch within the cooldown of the last one. *)
Lemma cooling_run (ticks : list Tick) (since : Z) :
  forall r,
    lastSwitchTimeRef r = since ->
    Forall (fun t => (tickNow t - since <= COOLDOWN_MS)%Z) ticks ->
    stateRef (run r ticks) = stateRef r /\
    lastSwitchTimeRef (run r ticks) = since.
Proof.
  induction ticks as [| t rest IH]; intros r Hs Hall; [ auto | ].
  inversion Hall as [| t' rest' Ht Hrest]; subst.
  unfold run. cbn [fold_left].
  fold (run (gestureEffect r (tickResult t) (tickNow t)) rest).
  destruct (effect_cases r (tickResult t) (tickNow t))
    as [[E El] | (_ & Hcd & _)]; [ | lia ].
  destruct (IH (gestureEffect r (tickResult t) (tickNow t)) El Hrest) as [E1 E2].
  split; congruence.
Qed.

(** *** Stepping a mounted component *)

Lemma step_mounted (r : Refs) (tr : HandTrackingResult R) (now : Z) :
  Mounted r -> Mounted (gestureEffect r tr now).
Proof.
  intros (controls & camera & Hc & Hcam).
  destruct (effect_mounted r tr now Hc Hcam) as (c' & cam' & H1 & H2 & _).
  exists c', cam'. auto.
Qed.

Lemma step_switch (r : Refs) (tr : HandTrackingResult R) (now : Z)
    (s' : FormationState) :
  Mounted r ->
  timeDelta r now > 0.1 ->
  (now - lastSwitchTimeRef r > COOLDOWN_MS)%Z ->
  nextStateOf (stateRef r) (velocity r (normalizedSpread tr) now) = s' ->
  s' <> stateRef r ->
  logicOf (gestureEffect r tr now) = (s', normalizedSpread tr, now, now).
Proof.
  intros (controls & camera & Hc & Hcam) Ht Hcd Hs Hne.
  destruct (effect_logic r tr now Hc Hcam) as (Hgo & _ & _).
  destruct (Hgo Ht Hcd) as (E1 & E2 & E3 & E4 & _).
  unfold logicOf. rewrite E1, E2, E3, Hs, E4; [ reflexivity | congruence ].
Qed.

Lemma step_sample (r : Refs) (tr : HandTrackingResult R) (now : Z) :
  Mounted r ->
  timeDelta r now > 0.1 ->
  (now - lastSwitchTimeRef r <= COOLDOWN_MS)%Z \/
  nextStateOf (stateRef r) (velocity r (normalizedSpread tr) now) = stateRef r ->
  logicOf (gestureEffect r tr now)
  = (stateRef r, normalizedSpread tr, lastSwitchTimeRef r, now).
Proof.
  intros (controls & camera & Hc & Hcam) Ht Hor.
  destruct (effect_logic r tr now Hc Hcam) as (Hgo & Hcool & _).
  unfold logicOf.
  destruct (Z.gtb_spec (now - lastSwitchTimeRef r) COOLDOWN_MS) as [Hcd | Hcd].
  - destruct Hor as [Hle | Hs]; [ lia | ].
    assert (Hcd' : (now - lastSwitchTimeRef r > COOLDOWN_MS)%Z) by lia.
    destruct (Hgo Ht Hcd') as (E1 & E2 & E3 & _ & E5).
    rewrite Hs in E1. rewrite E1, E2, E3, (E5 E1). reflexivity.
  - destruct (Hcool Ht Hcd) as (E1 & E2 & E3 & E4).
    rewrite E1, E2, E3, E4. reflexivity.
Qed.

Lemma step_skip (r : Refs) (tr : HandTrackingResult R) (now : Z) :
  ~ timeDelta r now > 0.1 ->
  logicOf (gestureEffect r tr now) = logicOf r.
Proof.
  intros Ht.
  destruct (controlsRef r) as [controls |] eqn:Hc;
    [ | rewrite effect_unmounted by auto; reflexivity ].
  destruct (cameraRef r) as [camera |] eqn:Hcam;
    [ | rewrite effect_unmounted by auto; reflexivity ].
  destruct (effect_logic r tr now Hc Hcam) as (_ & _ & Hskip).
  destruct (Hskip Ht) as (E1 & E2 & E3 & E4).
  unfold logicOf. rewrite E1, E2, E3, E4. reflexivity.
Qed.

Lemma logicOf_inv (r : Refs) (s : FormationState) (ls : R) (lsw lv : Z) :
  logicOf r = (s, ls, lsw, lv) ->
  stateRef r = s /\ lastSpreadRef r = ls /\
  lastSwitchTimeRef r = lsw /\ lastVelocityTimeRef r = lv.
Proof. unfold logicOf. intros E. injection E. auto. Qed.

Lemma mounted_at_start (mountTime : Z) : Mounted (mountedRefs mountTime).
Proof. unfold Mounted, mountedRefs. cbn. eauto. Qed.

(** Rewrites the time delta and the velocity of a tick with the known
    logic refs and computes the difference of the two times. *)
Ltac known_refs E :=
  destruct (logicOf_inv E) as (?Es & ?Els & ?Elsw & ?Elv);
  unfold velocity, timeDelta, COOLDOWN_MS;
  rewrite ?Es, ?Els, ?Elsw, ?Elv;
  repeat match goal with
         | |- context [(Zpos ?a - Zpos ?b)%Z] =>
             let c := eval vm_compute in (Zpos a - Zpos b)%Z in
             change (Zpos a - Zpos b)%Z with c
         | |- context [(Zpos ?a - 0)%Z] =>
             change (Zpos a - 0)%Z with (Zpos a)
         end.

Lemma spread_of_open_hand : normalizedSpread Samples.open_hand = 1.
Proof. apply normalizedSpread_open with 1.2; [ reflexivity | lra ]. Qed.

Lemma spread_of_closed_hand : normalizedSpread Samples.closed_hand = 0.
Proof. apply normalizedSpread_closed. right. exists 0.3. split; [ reflexivity | lra ]. Qed.

Lemma spread_of_half_open_hand :
  normalizedSpread Samples.half_open_hand = 0.5.
Proof.
  unfold normalizedSpread, Samples.half_open_hand. cbn [handSpread orZero].
  destruct (Req_dec_T 0.675 0) as [E | _]; [ lra | ].
  destruct (clamp_cases ((0.675 - 0.35) / 0.65))
    as [[? ->] | [[? ->] | [? ->]]]; lra.
Qed.

Lemma spread_of_no_result : normalizedSpread LocalGestureService.noResult = 0.
Proof.
  apply normalizedSpread_closed. right. exists 0. split; [ reflexivity | lra ].
Qed.

(** The sample start: the hand opens 200 ms after the mount. *)
Lemma first_opening :
  logicOf (gestureEffect (mountedRefs 1000000) Samples.open_hand 1000200)
  = (EXPLODE, 1, 1000200%Z, 1000200%Z).
Proof.
  assert (E : logicOf (mountedRefs 1000000) = (TREE, 0, 0%Z, 1000000%Z))
    by reflexivity.
  rewrite step_switch with (s' := EXPLODE).
  - now rewrite spread_of_open_hand.
  - apply mounted_at_start.
  - known_refs E. lra.
  - known_refs E. lia.
  - rewrite spread_of_open_hand. known_refs E.
    rewrite nextStateOf_expand by lra. reflexivity.
  - discriminate.
Qed.

Lemma Forall_firstn_keep {A : Type} (P : A -> Prop) (l : list A) :
  Forall P l -> forall k, Forall P (firstn k l).
Proof.
  induction 1 as [| a l Ha Hl IH]; intros [| k]; cbn; auto.
Qed.

(** *** The claims about the formation switch *)

(** C2. The machine starts in TREE.  The velocity of a tick is
    [(n - lastSpread) / dt], where [n] is the normalized spread
    [max(0, min(1, (spread - 0.35) / 0.65))] of the result ([spread] its
    [handSpread], 0 when absent) and [dt = (now - lastVelocityTime) / 1000]
    the time in seconds since the last sample.  On a tick of the mounted
    component with the velocity computed ([dt] over 0.1 s) and the cooldown
    elapsed (more than 800 ms since the last change), a velocity above +2
    takes TREE to EXPLODE and TEXT to TREE, a velocity below -1 takes
    EXPLODE to TEXT, and every other combination of state and velocity
    leaves the state as it is.  Along any run whose computed velocities all
    lie between -1 and 2 the state stays what it was at the start. *)
Theorem formation_step_function :
  (forall mountTime,
      stateRef (initialRefs mountTime) = TREE /\
      stateRef (mountedRefs mountTime) = TREE) /\
  (forall r trackingResult now,
      let spread :=
        match handSpread trackingResult with Some h => h | None => 0 end in
      let n := Rmax 0 (Rmin 1 ((spread - 0.35) / 0.65)) in
      let dt := IZR (now - lastVelocityTimeRef r) / 1000 in
      let v := (n - lastSpreadRef r) / dt in
      (timeDelta r now = dt /\
       velocity r (normalizedSpread trackingResult) now = v) /\
      (Mounted r ->
       dt > 0.1 ->
       (now - lastSwitchTimeRef r > 800)%Z ->
       let s' := stateRef (gestureEffect r trackingResult now) in
       (v > 2 -> stateRef r = TREE -> s' = EXPLODE) /\
       (v > 2 -> stateRef r = TEXT -> s' = TREE) /\
       (v < -1 -> stateRef r = EXPLODE -> s' = TEXT) /\
       (v > 2 -> stateRef r = EXPLODE -> s' = EXPLODE) /\
       (v < -1 -> stateRef r <> EXPLODE -> s' = stateRef r) /\
       (-1 <= v <= 2 -> s' = stateRef r))) /\
  (forall r ticks,
      velocitiesAlong (fun v => -1 <= v <= 2) r ticks ->
      stateRef (run r ticks) = stateRef r).
Proof.
  split; [ intros mountTime; split; reflexivity | ].
  split; [ | intros r ticks; apply calm_run ].
  intros r tr now spread n dt v.
  assert (Hn : normalizedSpread tr = n).
  { unfold normalizedSpread, orZero, n, spread.
    destruct (handSpread tr) as [h |]; [ | reflexivity ].
    destruct (Req_dec_T h 0) as [-> | _]; reflexivity. }
  assert (Hv : velocity r (normalizedSpread tr) now = v)
    by (rewrite Hn; reflexivity).
  split; [ split; [ reflexivity | exact Hv ] | ].
  intros (controls & camera & Hc & Hcam) Ht Hcd s'.
  destruct (effect_logic r tr now Hc Hcam) as (Hgo & _ & _).
  destruct (Hgo Ht Hcd) as (E & _).
  subst s'. rewrite Hv in E. rewrite E.
  repeat split; intros Hgt.
  - intros Hs. rewrite nextStateOf_expand, Hs by exact Hgt. reflexivity.
  - intros Hs. rewrite nextStateOf_expand, Hs by exact Hgt. reflexivity.
  - intros Hs. rewrite nextStateOf_contract, Hs by exact Hgt. reflexivity.
  - intros Hs. rewrite nextStateOf_expand, Hs by exact Hgt. reflexivity.
  - intros Hs. rewrite nextStateOf_contract by exact Hgt.
    destruct (stateRef r); congruence.
  - apply nextStateOf_calm. exact Hgt.
Qed.

(** C4 (as the code has it). A tick changes the state only when more
    than 800 ms have passed since the last change, and it then records its
    own time as the time of the last change; a tick no more than 800 ms
    after the last change changes nothing, whatever its velocity.  Hence
    after a tick that changed the state, no tick within 800 ms of it
    changes the state again: the state after any number of such ticks is
    the state after the first change.  So of two ticks no more than 800 ms
    apart at most one changes the state. *)
Theorem cooldown_gate :
  (forall r trackingResult now,
      stateRef (gestureEffect r trackingResult now) <> stateRef r ->
      (now - lastSwitchTimeRef r > 800)%Z /\
      lastSwitchTimeRef (gestureEffect r trackingResult now) = now) /\
  (forall r trackingResult now ticks,
      stateRef (gestureEffect r trackingResult now) <> stateRef r ->
      Forall (fun t => (tickNow t - now <= 800)%Z) ticks ->
      forall k,
        stateRef (run (gestureEffect r trackingResult now) (firstn k ticks))
        = stateRef (gestureEffect r trackingResult now)) /\
  (forall r trackingResult now,
      (now - lastSwitchTimeRef r <= 800)%Z ->
      stateRef (gestureEffect r trackingResult now) = stateRef r /\
      lastSwitchTimeRef (gestureEffect r trackingResult now)
      = lastSwitchTimeRef r) /\
  (forall r first second,
      (tickNow second - tickNow first <= 800)%Z ->
      let r1 := gestureEffect r (tickResult first) (tickNow first) in
      let r2 := gestureEffect r1 (tickResult second) (tickNow second) in
      stateRef r1 = stateRef r \/ stateRef r2 = stateRef r1).
Proof.
  split; [ | split; [ | split ] ].
  - intros r tr now Hne.
    destruct (effect_cases r tr now) as [[E _] | (_ & Hcd & _ & _ & El)];
      [ contradiction | ].
    split; [ exact Hcd | exact El ].
  - intros r tr now ticks Hne Hall k.
    destruct (effect_cases r tr now) as [[E _] | (_ & _ & _ & _ & El)];
      [ contradiction | ].
    apply (@cooling_run (firstn k ticks) now); [ exact El | ].
    apply Forall_firstn_keep. exact Hall.
  - intros r tr now Hle.
    destruct (effect_cases r tr now) as [[E El] | (_ & Hcd & _)];
      [ auto | unfold COOLDOWN_MS in Hcd; lia ].
  - intros r first second Hle r1 r2.
    destruct (effect_cases r (tickResult first) (tickNow first))
      as [[E _] | (_ & _ & _ & _ & El)]; [ left; exact E | right ].
    destruct (effect_cases r1 (tickResult second) (tickNow second))
      as [[E _] | (_ & Hcd & _)]; [ exact E | ].
    fold r1 in El. rewrite El in Hcd. unfold COOLDOWN_MS in Hcd. lia.
Qed.

(** C6 (as the code has it). After a tick in state TREE with the velocity
    over +2, the velocity computed and the cooldown elapsed, the machine is
    in EXPLODE and the time of the last switch is the time of the tick.
    The auto-rotate flag at the end of the tick is the one the last block
    of the effect writes: disabled when the result of the tick is a
    detected POINTING gesture, enabled otherwise. *)
Theorem expand_from_tree (r : Refs) (trackingResult : HandTrackingResult R)
    (now : Z) :
  Mounted r ->
  stateRef r = TREE ->
  timeDelta r now > 0.1 ->
  (now - lastSwitchTimeRef r > COOLDOWN_MS)%Z ->
  velocity r (normalizedSpread trackingResult) now > 2 ->
  stateRef (gestureEffect r trackingResult now) = EXPLODE /\
  lastSwitchTimeRef (gestureEffect r trackingResult now) = now /\
  option_map autoRotate (controlsRef (gestureEffect r trackingResult now))
  = Some (negb (Gesture_eqb (gesture trackingResult) POINTING
                && isDetected trackingResult)).
Proof.
  intros Hm Hs Ht Hcd Hv.
  assert (E : logicOf (gestureEffect r trackingResult now)
              = (EXPLODE, normalizedSpread trackingResult, now, now)).
  { apply step_switch; auto.
    - rewrite nextStateOf_expand, Hs by exact Hv. reflexivity.
    - rewrite Hs. discriminate. }
  destruct (logicOf_inv E) as (E1 & _ & E3 & _).
  destruct Hm as (controls & camera & Hc & Hcam).
  destruct (effect_mounted r trackingResult now Hc Hcam)
    as (c' & cam' & H1 & _ & H3 & _).
  rewrite H1. cbn [option_map]. rewrite H3. auto.
Qed.

(** *** The claims at sample runs *)

Lemma start_logic :
  logicOf (mountedRefs 1000000) = (TREE, 0, 0%Z, 1000000%Z).
Proof. reflexivity. Qed.

Lemma formation_step_function_witness :
  velocity (mountedRefs 1000000) (normalizedSpread Samples.open_hand) 1000200
  = (Rmax 0 (Rmin 1 ((1.2 - 0.35) / 0.65)) - 0)
    / (IZR (1000200 - 1000000) / 1000) /\
  stateRef (gestureEffect (mountedRefs 1000000) Samples.open_hand 1000200)
  = EXPLODE /\
  stateRef (run (mountedRefs 1000000) [Samples.tick Samples.open_hand 1000600])
  = TREE.
Proof.
  pose proof start_logic as E.
  pose proof (proj1 (proj2 formation_step_function)
                (mountedRefs 1000000) Samples.open_hand 1000200%Z) as H.
  cbv zeta in H. destruct H as [[_ Hv] Htable].
  split; [ exact Hv | split ].
  - apply (proj1 (Htable (mounted_at_start 1000000)
                    ltac:(cbn; lra) ltac:(cbn; lia))).
    + rewrite <- Hv, spread_of_open_hand. known_refs E. lra.
    + reflexivity.
  - apply (proj2 (proj2 formation_step_function)).
    cbn [velocitiesAlong Samples.tick tickResult tickNow].
    split; [ intros _ | exact I ].
    rewrite spread_of_open_hand. known_refs E. lra.
Defined.

Lemma cooldown_gate_witness :
  stateRef (gestureEffect (mountedRefs 1000000) Samples.open_hand 1000200)
  <> stateRef (mountedRefs 1000000) /\
  velocity (gestureEffect (mountedRefs 1000000) Samples.open_hand 1000200)
    (normalizedSpread Samples.closed_hand) 1000500 < -1 /\
  stateRef
    (run (gestureEffect (mountedRefs 1000000) Samples.open_hand 1000200)
       [Samples.tick Samples.closed_hand 1000500])
  = stateRef (gestureEffect (mountedRefs 1000000) Samples.open_hand 1000200).
Proof.
  pose proof first_opening as E.
  assert (Hne : stateRef (gestureEffect (mountedRefs 1000000)
                            Samples.open_hand 1000200)
                <> stateRef (mountedRefs 1000000)).
  { destruct (logicOf_inv E) as (Es & _). rewrite Es. discriminate. }
  split; [ exact Hne | split ].
  - rewrite spread_of_closed_hand. known_refs E. lra.
  - apply (proj1 (proj2 cooldown_gate) (mountedRefs 1000000)
             Samples.open_hand
             1000200%Z [Samples.tick Samples.closed_hand 1000500] Hne
             ltac:(repeat constructor; cbn; lia) 1%nat).
Defined.

(** C4 as stated fails: two qualifying triggers less than 800 ms apart can
    give no transition at all.  The hand opens fast 200 ms after the mount
    and the machine goes to EXPLODE; it then half closes at 1000400 and
    closes at 1000700.  Both ticks see a velocity under -1 in the state
    EXPLODE, they are 300 ms apart, and both fall within 800 ms of the
    change to EXPLODE: neither changes the state. *)
Lemma two_triggers_inside_cooldown :
  let r1 := gestureEffect (mountedRefs 1000000) Samples.open_hand 1000200 in
  let r2 := gestureEffect r1 Samples.half_open_hand 1000400 in
  let r3 := gestureEffect r2 Samples.closed_hand 1000700 in
  stateRef r1 = EXPLODE /\
  velocity r1 (normalizedSpread Samples.half_open_hand) 1000400 < -1 /\
  timeDelta r1 1000400 > 0.1 /\
  stateRef r2 = EXPLODE /\
  velocity r2 (normalizedSpread Samples.closed_hand) 1000700 < -1 /\
  timeDelta r2 1000700 > 0.1 /\
  (1000700 - 1000400 < 800)%Z /\
  stateRef r3 = EXPLODE.
Proof.
  intros r1 r2 r3.
  pose proof first_opening as E1. fold r1 in E1.
  assert (M1 : Mounted r1) by apply step_mounted, mounted_at_start.
  assert (T1 : timeDelta r1 1000400 > 0.1) by (known_refs E1; lra).
  assert (E2 : logicOf r2 = (EXPLODE, 0.5, 1000200%Z, 1000400%Z)).
  { unfold r2. rewrite step_sample.
    - rewrite spread_of_half_open_hand. known_refs E1. reflexivity.
    - exact M1.
    - exact T1.
    - left. known_refs E1. lia. }
  assert (M2 : Mounted r2) by apply step_mounted, M1.
  assert (T2 : timeDelta r2 1000700 > 0.1) by (known_refs E2; lra).
  assert (E3 : logicOf r3 = (EXPLODE, 0, 1000200%Z, 1000700%Z)).
  { unfold r3. rewrite step_sample.
    - rewrite spread_of_closed_hand. known_refs E2. reflexivity.
    - exact M2.
    - exact T2.
    - left. known_refs E2. lia. }
  split; [ exact (proj1 (logicOf_inv E1)) | ].
  split; [ rewrite spread_of_half_open_hand; known_refs E1; lra | ].
  split; [ exact T1 | ].
  split; [ exact (proj1 (logicOf_inv E2)) | ].
  split; [ rewrite spread_of_closed_hand; known_refs E2; lra | ].
  split; [ exact T2 | ].
  split; [ lia | ].
  exact (proj1 (logicOf_inv E3)).
Qed.

(** C6 as stated fails: the hand opens fast while the tree shows, the
    machine goes to EXPLODE, and auto-rotation is on at the end of the
    tick, the gesture not being POINTING. *)
Lemma expanding_leaves_auto_rotate_on :
  stateRef (mountedRefs 1000000) = TREE /\
  timeDelta (mountedRefs 1000000) 1000200 > 0.1 /\
  (1000200 - lastSwitchTimeRef (mountedRefs 1000000) > COOLDOWN_MS)%Z /\
  velocity (mountedRefs 1000000) (normalizedSpread Samples.open_hand) 1000200 > 2 /\
  stateRef (gestureEffect (mountedRefs 1000000) Samples.open_hand 1000200)
  = EXPLODE /\
  option_map autoRotate
    (controlsRef (gestureEffect (mountedRefs 1000000) Samples.open_hand 1000200))
  = Some true.
Proof.
  pose proof start_logic as E.
  split; [ reflexivity | ].
  split; [ known_refs E; lra | ].
  split; [ known_refs E; lia | ].
  split; [ rewrite spread_of_open_hand; known_refs E; lra | ].
  split.
  - pose proof first_opening as E'.
    destruct (logicOf_inv E') as (Es & _). exact Es.
  - reflexivity.
Qed.

Lemma expand_from_tree_witness :
  stateRef (gestureEffect (mountedRefs 1000000) Samples.pointing_open 1000200)
  = EXPLODE /\
  option_map autoRotate
    (controlsRef (gestureEffect (mountedRefs 1000000) Samples.pointing_open
                    1000200))
  = Some false.
Proof.
  pose proof start_logic as E.
  assert (Hs : normalizedSpread Samples.pointing_open = 1)
    by (apply normalizedSpread_open with 1.2; [ reflexivity | lra ]).
  destruct (@expand_from_tree (mountedRefs 1000000) Samples.pointing_open
              1000200%Z (mounted_at_start 1000000) eq_refl
              ltac:(known_refs E; lra) ltac:(known_refs E; lia)
              ltac:(rewrite Hs; known_refs E; lra))
    as (H1 & _ & H3).
  split; [ exact H1 | exact H3 ].
Defined.

End FormationFacts.

(* ================================================================== *)
(** ** Verification of the loop without a hand *)

Module AbsenceFacts.
Import ChristmasTree FormationFacts.

Local Open Scope R_scope.

Lemma effect_lastSpread (r : Refs) (tr : HandTrackingResult R) (now : Z) :
  lastSpreadRef (gestureEffect r tr now) = lastSpreadRef r \/
  lastSpreadRef (gestureEffect r tr now) = normalizedSpread tr.
Proof.
  destruct (controlsRef r) as [controls |] eqn:Hc;
    [ | rewrite effect_unmounted by auto; auto ].
  destruct (cameraRef r) as [camera |] eqn:Hcam;
    [ | rewrite effect_unmounted by auto; auto ].
  destruct (effect_logic r tr now Hc Hcam) as (Hgo & Hcool & Hskip).
  destruct (Rgt_dec (timeDelta r now) 0.1) as [Ht | Ht];
    [ | left; apply (Hskip Ht) ].
  destruct (Z.gtb_spec (now - lastSwitchTimeRef r) COOLDOWN_MS) as [Hcd | Hcd];
    [ | right; apply (Hcool Ht Hcd) ].
  right. apply Hgo; [ exact Ht | lia ].
Qed.

(** The last spread sample of a reachable component is a normalized one. *)
Lemma reachable_spread (r : Refs) :
  Reachable r -> 0 <= lastSpreadRef r <= 1.
Proof.
  induction 1 as [t | t | r tr now Hr IH | r camera camera' Hr IH Hcam];
    cbn [lastSpreadRef initialRefs mountedRefs]; try lra; try exact IH.
  destruct (effect_lastSpread r tr now) as [-> | ->];
    [ exact IH | apply normalizedSpread_bounds ].
Qed.

(** A tick without a hand: the spread sample stays non-negative, and the
    state stays, or goes from EXPLODE to TEXT. *)
Lemma absent_tick (r : Refs) (now : Z) :
  0 <= lastSpreadRef r ->
  let r' := gestureEffect r LocalGestureService.noResult now in
  0 <= lastSpreadRef r' /\
  (stateRef r' = stateRef r \/ (stateRef r = EXPLODE /\ stateRef r' = TEXT)).
Proof.
  intros Hls r'. subst r'. split.
  - destruct (effect_lastSpread r LocalGestureService.noResult now) as [-> | ->];
      [ exact Hls | rewrite spread_of_no_result; lra ].
  - destruct (effect_cases r LocalGestureService.noResult now)
      as [[E _] | (Ht & _ & E & Hne & _)]; [ left; exact E | ].
    rewrite spread_of_no_result in E.
    assert (Hv : velocity r 0 now <= 0).
    { unfold velocity.
      apply Rmult_le_reg_r with (timeDelta r now); [ lra | ].
      unfold Rdiv. rewrite Rmult_assoc, Rinv_l by lra. lra. }
    destruct (Rlt_dec (velocity r 0 now) (-1)) as [Hc | Hc].
    + rewrite nextStateOf_contract in E by exact Hc.
      destruct (stateRef r); auto.
    + rewrite nextStateOf_calm in E by lra. auto.
Qed.

Lemma appTick_no_landmarks (r : Refs) (f : Frame) :
  NoLandmarks f ->
  frameResult f = LocalGestureService.noResult /\
  appTick r (Some (frameDetection f)) (frameVideo f) (frameCanvas f) (frameNow f)
  = gestureEffect r LocalGestureService.noResult (frameNow f).
Proof.
  intros Hf.
  assert (E : frameResult f = LocalGestureService.noResult)
    by (apply TrackingFacts.frame_no_pose; exact Hf).
  split; [ exact E | ].
  unfold appTick. unfold frameResult in E. now rewrite E.
Qed.

Lemma appRun_cons (r : Refs) (f : Frame) (rest : list Frame) :
  NoLandmarks f ->
  appRun r (f :: rest)
  = appRun (gestureEffect r LocalGestureService.noResult (frameNow f)) rest.
Proof.
  intros Hf. unfold appRun. cbn [fold_left].
  now rewrite (proj2 (appTick_no_landmarks r Hf)).
Qed.

Lemma absent_run (frames : list Frame) :
  Forall NoLandmarks frames ->
  forall r,
    0 <= lastSpreadRef r ->
    (stateRef r <> EXPLODE -> stateRef (appRun r frames) = stateRef r) /\
    (stateRef r = EXPLODE ->
     stateRef (appRun r frames) = EXPLODE \/ stateRef (appRun r frames) = TEXT).
Proof.
  induction 1 as [| f rest Hf Hrest IH]; intros r Hls; [ cbn; auto | ].
  rewrite (appRun_cons r rest Hf).
  destruct (absent_tick r (frameNow f) Hls) as (Hls' & Hst).
  destruct (IH _ Hls') as (Hkeep & Hfall).
  split; intros Hs.
  - destruct Hst as [E | [E _]]; [ | contradiction ].
    rewrite Hkeep; congruence.
  - destruct Hst as [E | [_ E]].
    + apply Hfall. congruence.
    + right. rewrite Hkeep; [ exact E | rewrite E; discriminate ].
Qed.

(** C7 (as the code has it). Along any run of frames on which the detector
    finds no hand, ten of them or any other number, from any reachable
    refs, every frame gives exactly the neutral result
    [{x: 0.5, y: 0.5, isDetected: false, gesture: NONE, handSpread: 0}].
    The formation state after the run is the one before it when that one
    is TREE or TEXT; from EXPLODE the run ends in EXPLODE or in TEXT (the
    fall of the spread to 0 can fire the contraction trigger). *)
Theorem absent_hand_run (r : Refs) (frames : list Frame) :
  Reachable r ->
  Forall NoLandmarks frames ->
  (x (@LocalGestureService.noResult R _) = 0.5 /\
   y (@LocalGestureService.noResult R _) = 0.5 /\
   isDetected (@LocalGestureService.noResult R _) = false /\
   gesture (@LocalGestureService.noResult R _) = NONE /\
   handSpread (@LocalGestureService.noResult R _) = Some 0) /\
  Forall (fun f => frameResult f = LocalGestureService.noResult) frames /\
  (stateRef r <> EXPLODE -> stateRef (appRun r frames) = stateRef r) /\
  (stateRef r = EXPLODE ->
   stateRef (appRun r frames) = EXPLODE \/ stateRef (appRun r frames) = TEXT).
Proof.
  intros Hr Hall.
  split.
  { cbn. unfold dec. cbn. repeat split; try reflexivity; lra. }
  split.
  { apply Forall_impl with (2 := Hall).
    intros f Hf. apply (appTick_no_landmarks r Hf). }
  apply absent_run; [ exact Hall | apply (reachable_spread Hr) ].
Qed.

(** *** The sample run: the hand opens, stays open, then leaves *)

Lemma reachable_run (ticks : list Tick) :
  forall r, Reachable r -> Reachable (run r ticks).
Proof.
  induction ticks as [| t rest IH]; intros r Hr; [ exact Hr | ].
  apply IH. constructor. exact Hr.
Qed.

Lemma opened_logic :
  Mounted (run (mountedRefs 1000000) Samples.opening_ticks) /\
  logicOf (run (mountedRefs 1000000) Samples.opening_ticks)
  = (EXPLODE, 1, 1000200%Z, 1000800%Z).
Proof.
  unfold run, Samples.opening_ticks.
  cbn [fold_left Samples.tick tickResult tickNow].
  pose proof first_opening as E1.
  set (r1 := gestureEffect (mountedRefs 1000000) Samples.open_hand 1000200) in *.
  assert (M1 : Mounted r1) by apply step_mounted, mounted_at_start.
  assert (E2 : logicOf (gestureEffect r1 Samples.open_hand 1000500)
               = (EXPLODE, 1, 1000200%Z, 1000500%Z)).
  { rewrite step_sample.
    - rewrite spread_of_open_hand. known_refs E1. reflexivity.
    - exact M1.
    - known_refs E1. lra.
    - left. known_refs E1. lia. }
  set (r2 := gestureEffect r1 Samples.open_hand 1000500) in *.
  assert (M2 : Mounted r2) by apply step_mounted, M1.
  split; [ apply step_mounted, M2 | ].
  rewrite step_sample.
  - rewrite spread_of_open_hand. known_refs E2. reflexivity.
  - exact M2.
  - known_refs E2. lra.
  - left. known_refs E2. lia.
Qed.

Lemma ten_frames_empty :
  Forall (fun f => NoLandmarks f /\ frameResult f = LocalGestureService.noResult)
    Samples.ten_empty_frames.
Proof.
  unfold Samples.ten_empty_frames. cbn [map].
  repeat (constructor; [ split; [ right; reflexivity | reflexivity ] | ]).
  constructor.
Qed.

Lemma ten_frames_no_landmarks : Forall NoLandmarks Samples.ten_empty_frames.
Proof.
  apply Forall_impl with (2 := ten_frames_empty). intros f [Hf _]. exact Hf.
Qed.

(** C7 as stated fails: the component reached EXPLODE with the hand open;
    ten frames without a hand follow, each gives the neutral result, and
    the first of them moves the machine to TEXT. *)
Lemma absent_hand_leaves_explode :
  Reachable (run (mountedRefs 1000000) Samples.opening_ticks) /\
  length Samples.ten_empty_frames = 10%nat /\
  Forall (fun f => NoLandmarks f /\ frameResult f = LocalGestureService.noResult)
    Samples.ten_empty_frames /\
  stateRef (run (mountedRefs 1000000) Samples.opening_ticks) = EXPLODE /\
  stateRef (appRun (run (mountedRefs 1000000) Samples.opening_ticks)
              Samples.ten_empty_frames) = TEXT.
Proof.
  destruct opened_logic as (M & E).
  split; [ apply reachable_run; constructor | ].
  split; [ reflexivity | ].
  split; [ exact ten_frames_empty | ].
  split; [ apply (logicOf_inv E) | ].
  set (before := run (mountedRefs 1000000) Samples.opening_ticks) in *.
  pose proof ten_frames_no_landmarks as Hten.
  unfold Samples.ten_empty_frames in *. cbn [map] in *.
  inversion Hten as [| f0 rest0 Hf0 Hrest]; subst.
  rewrite appRun_cons by exact Hf0.
  cbn [frameNow Samples.empty_frame].
  assert (E' : logicOf (gestureEffect before LocalGestureService.noResult 1001100)
               = (TEXT, 0, 1001100%Z, 1001100%Z)).
  { rewrite step_switch with (s' := TEXT).
    - now rewrite spread_of_no_result.
    - exact M.
    - known_refs E. lra.
    - known_refs E. lia.
    - rewrite spread_of_no_result. known_refs E.
      rewrite nextStateOf_contract by lra. reflexivity.
    - known_refs E. discriminate. }
  destruct (logicOf_inv E') as (Es & Els & _).
  rewrite (proj1 (absent_run Hrest _ ltac:(rewrite Els; lra)));
    [ exact Es | rewrite Es; discriminate ].
Qed.

Lemma absent_hand_run_witness :
  Forall (fun f => frameResult f = LocalGestureService.noResult)
    Samples.ten_empty_frames /\
  stateRef (appRun (mountedRefs 1000000) Samples.ten_empty_frames) = TREE.
Proof.
  destruct (@absent_hand_run (mountedRefs 1000000) Samples.ten_empty_frames
              (reach_mounted 1000000) ten_frames_no_landmarks)
    as (_ & Hout & Hkeep & _).
  split; [ exact Hout | ].
  apply Hkeep. discriminate.
Defined.

End AbsenceFacts.

(* ================================================================== *)
(** ** Verification of the particle update *)

Module ParticleFacts.
Import ChristmasTree.

Local Open Scope R_scope.

Lemma sum_squares_nonneg (a b c : R) : 0 <= a * a + b * b + c * c.
Proof. nra. Qed.










End ParticleFacts.

(* ================================================================== *)
(** ** Verification of the camera steering *)

Module SteeringFacts.
Import ChristmasTree LocalGestureService.

Local Open Scope R_scope.

(** [setLength] gives a vector that is not null the length asked for. *)
Lemma v_length_setLength (v : Vector3) (l : R) :
  v_length v <> 0 -> 0 <= l -> v_length (setLength v l) = l.
Proof.
  intros Hv Hl.
  unfold setLength, normalize, divideScalar, multiplyScalar.
  destruct (Req_dec_T (v_length v) 0) as [E | _]; [ contradiction | ].
  unfold v_length at 1. cbn [vx vy vz].
  set (L := v_length v) in *.
  assert (HL : L * L = vx v * vx v + vy v * vy v + vz v * vz v).
  { unfold L, v_length. apply sqrt_sqrt. apply ParticleFacts.sum_squares_nonneg. }
  replace (vx v * (1 / L) * l * (vx v * (1 / L) * l)
           + vy v * (1 / L) * l * (vy v * (1 / L) * l)
           + vz v * (1 / L) * l * (vz v * (1 / L) * l))
    with (l * l * ((vx v * vx v + vy v * vy v + vz v * vz v) / (L * L)))
    by (field; exact Hv).
  rewrite <- HL.
  replace (l * l * (L * L / (L * L))) with (l * l) by (field; exact Hv).
  apply sqrt_square. exact Hl.
Qed.



End SteeringFacts.

(* ================================================================== *)
(** ** More on the hand-tracking service *)

Module ServiceFacts.
Import LocalGestureService PoseMoves DebugCanvas.

Section AnyArithmetic.

Context {num : Type} {J : JSNumber num}.

(** X1. Every result the service returns is well formed: it says a hand
    is detected exactly when its gesture is not NONE, its gesture is then
    GENERAL or POINTING, and it always carries a spread. *)
Theorem result_well_formed (handLandmarker : option Detection)
    (video : Video) (debugCanvas : bool) :
  let r := fst (processVideoFrame handLandmarker video debugCanvas) in
  (isDetected r = true <-> gesture r <> NONE) /\
  (isDetected r = false <-> gesture r = NONE) /\
  (isDetected r = true -> gesture r = GENERAL \/ gesture r = POINTING) /\
  handSpread r <> None.
Proof.
  intros r.
  assert (Hcases : r = noResult \/
                   exists c landmarks, classify landmarks = Some c /\
                     r = {| x := (fromZ 1 - c_targetX c)%js; y := c_targetY c;
                            isDetected := true; gesture := c_gesture c;
                            handSpread := Some (c_handSpread c) |}).
  { subst r. unfold processVideoFrame.
    destruct handLandmarker as [[| [[| landmarks hands] |]] |];
      destruct ((videoWidth video =? 0)%N || (videoHeight video =? 0)%N);
      cbn; auto.
    destruct (classify landmarks) as [c |] eqn:Hc; cbn; eauto. }
  destruct Hcases as [-> | (c & landmarks & Hc & ->)].
  - cbn. repeat split; try discriminate; try congruence; auto.
  - assert (Hg : c_gesture c = GENERAL \/ c_gesture c = POINTING).
    { unfold classify in Hc.
      repeat match type of Hc with
             | bind ?m _ = Some _ =>
                 destruct m; cbn [bind] in Hc; [ | discriminate Hc ]
             end.
      match type of Hc with
      | context [selectGesture ?a ?b ?c ?d ?e] =>
          destruct a, b, c, d, e
      end; cbn in Hc;
        repeat match type of Hc with
               | bind ?m _ = Some _ =>
                   destruct m; cbn [bind] in Hc; [ | discriminate Hc ]
               end;
        injection Hc as <-; cbn; auto. }
    cbn. repeat split; try discriminate; auto;
      destruct Hg as [-> | ->]; intros; try discriminate; auto.
Qed.

(** X2. The calls of a frame and what they do to the debug canvas
    (drawing on a canvas is taken not to throw).  The detector is called
    at most once, and not at all before initialization or on a frame of
    zero width or height.  After it the service calls [drawDebug] exactly
    when a hand is detected and a canvas was passed, and runs its own
    [clearRect] (lines 163-166) only when a canvas was passed and no hand
    is detected; never both; neither when the detector or the reading of
    a landmark throws.  On the canvas: [drawDebug] clears before it draws,
    so a frame either leaves the canvas alone, or only clears it, or
    clears it and draws the skeleton and the active point, yellow for
    POINTING and cyan otherwise.  The canvas is only cleared exactly when
    it has a context and the service ran its own [clearRect]; the skeleton
    is drawn exactly when a hand is detected and a canvas with a context
    was passed; the canvas is left alone exactly when no canvas with a
    context was passed, the detector was not called, or an exception was
    caught. *)
Theorem calls_of_a_frame (handLandmarker : option Detection)
    (video : Video) (debugCanvas hasContext : bool) :
  let frame := processVideoFrame handLandmarker video debugCanvas in
  let r := fst frame in
  let calls := snd frame in
  let ops := canvasOps hasContext frame in
  let skeleton := fun fillStyle =>
    [ClearRect; DrawConnectors; DrawLandmarks; DrawActivePoint fillStyle] in
  (calls = [] \/ calls = [CallDetectForVideo] \/
   calls = [CallDetectForVideo; CallDrawDebug] \/
   calls = [CallDetectForVideo; CallClearRect]) /\
  (calls = [] <->
   handLandmarker = None \/ videoWidth video = 0%N \/ videoHeight video = 0%N) /\
  (calls = [CallDetectForVideo; CallDrawDebug] <->
   isDetected r = true /\ debugCanvas = true) /\
  (calls = [CallDetectForVideo; CallClearRect] ->
   isDetected r = false /\ debugCanvas = true) /\
  (handLandmarker = Some DetectThrows ->
   calls = [] \/ calls = [CallDetectForVideo]) /\
  (forall landmarks hands,
      handLandmarker = Some (DetectReturns (Some (landmarks :: hands))) ->
      classify landmarks = None ->
      calls = [] \/ calls = [CallDetectForVideo]) /\
  (ops = [] \/ ops = [ClearRect] \/
   ops = skeleton Yellow \/ ops = skeleton Cyan) /\
  (ops = [ClearRect] <->
   isDetected r = false /\ hasContext = true /\
   calls = [CallDetectForVideo; CallClearRect]) /\
  (ops = skeleton Yellow <->
   isDetected r = true /\ gesture r = POINTING /\
   debugCanvas = true /\ hasContext = true) /\
  (ops = skeleton Cyan <->
   isDetected r = true /\ gesture r <> POINTING /\
   debugCanvas = true /\ hasContext = true) /\
  (ops = [] <->
   debugCanvas = false \/ hasContext = false \/
   calls = [] \/ calls = [CallDetectForVideo]).
Proof.
  intros frame r calls ops skeleton.
  subst frame r calls ops skeleton. unfold canvasOps, processVideoFrame.
  destruct video as [w h].
  destruct handLandmarker as [[| [[| landmarks hands] |]] |];
    destruct w, h; destruct debugCanvas, hasContext;
    try (destruct (classify landmarks) as [c |] eqn:Hc;
         [ destruct (c_gesture c) eqn:Hg | ]);
    cbn; rewrite ?Hg; cbn;
    repeat split; intros;
    repeat match goal with
           | H : _ \/ _ |- _ => destruct H
           | H : _ /\ _ |- _ => destruct H
           | H : Some (DetectReturns (Some (_ :: _))) = Some _ |- _ =>
               injection H as <- <-
           end;
    try discriminate; try congruence; auto 6.
Qed.



End AnyArithmetic.

(** *** On real numbers *)

Section OnReals.

Local Open Scope R_scope.

Ltac on_reals :=
  cbn [fromZ add sub mul div gtb hypot R_JSNumber lm_x lm_y lm_z
       translate scaleBy fst snd] in *.

Lemma landmarkAt_map (f : Landmark R -> Landmark R)
    (landmarks : list (Landmark R)) (i : nat) :
  landmarkAt (map f landmarks) i = option_map f (landmarkAt landmarks i).
Proof. unfold landmarkAt. apply nth_error_map. Qed.

Lemma Rhypot_nonneg (a b : R) : 0 <= Rhypot a b.
Proof. unfold Rhypot. apply sqrt_pos. Qed.

Lemma Rhypot_scale (k a b : R) :
  0 <= k -> Rhypot (k * a) (k * b) = k * Rhypot a b.
Proof.
  intros Hk. unfold Rhypot.
  replace (k * a * (k * a) + k * b * (k * b)) with (k * k * (a * a + b * b))
    by ring.
  rewrite sqrt_mult_alt by nra.
  now rewrite sqrt_square.
Qed.

Lemma Rhypot_zero : Rhypot 0 0 = 0.
Proof.
  unfold Rhypot. replace (0 * 0 + 0 * 0) with 0 by ring. apply sqrt_0.
Qed.

Lemma Rgtb_scale (k a b : R) : 0 < k -> Rgtb (k * a) (k * b) = Rgtb a b.
Proof.
  intros Hk. unfold Rgtb.
  destruct (Rgt_dec (k * a) (k * b)) as [H1 | H1];
    destruct (Rgt_dec a b) as [H2 | H2]; try reflexivity; exfalso.
  - apply H2. apply Rmult_lt_reg_l with k; assumption.
  - apply H1. apply Rmult_lt_compat_l; assumption.
Qed.

(** **** Shifting the hand *)

Lemma isFingerExtended_translate (a b : R) (landmarks : list (Landmark R))
    (tipIdx pipIdx : nat) (palmScale : R) :
  isFingerExtended (map (translate a b) landmarks) tipIdx pipIdx palmScale
  = isFingerExtended landmarks tipIdx pipIdx palmScale.
Proof.
  unfold isFingerExtended. rewrite !landmarkAt_map.
  destruct (landmarkAt landmarks 0) as [w |]; cbn [option_map bind];
    [ | reflexivity ].
  destruct (landmarkAt landmarks tipIdx) as [t |]; cbn [option_map bind];
    [ | reflexivity ].
  destruct (landmarkAt landmarks pipIdx) as [p |]; cbn [option_map bind];
    [ | reflexivity ].
  on_reals.
  replace (lm_x t + a - (lm_x w + a)) with (lm_x t - lm_x w) by ring.
  replace (lm_y t + b - (lm_y w + b)) with (lm_y t - lm_y w) by ring.
  replace (lm_x p + a - (lm_x w + a)) with (lm_x p - lm_x w) by ring.
  replace (lm_y p + b - (lm_y w + b)) with (lm_y p - lm_y w) by ring.
  reflexivity.
Qed.

Lemma isThumbExtended_translate (a b : R) (landmarks : list (Landmark R))
    (palmScale : R) :
  isThumbExtended (map (translate a b) landmarks) palmScale
  = isThumbExtended landmarks palmScale.
Proof.
  unfold isThumbExtended. rewrite !landmarkAt_map.
  destruct (landmarkAt landmarks 4) as [t |]; cbn [option_map bind];
    [ | reflexivity ].
  destruct (landmarkAt landmarks 3) as [p |]; cbn [option_map bind];
    [ | reflexivity ].
  destruct (landmarkAt landmarks 17) as [w |]; cbn [option_map bind];
    [ | reflexivity ].
  on_reals.
  replace (lm_x t + a - (lm_x w + a)) with (lm_x t - lm_x w) by ring.
  replace (lm_y t + b - (lm_y w + b)) with (lm_y t - lm_y w) by ring.
  replace (lm_x p + a - (lm_x w + a)) with (lm_x p - lm_x w) by ring.
  replace (lm_y p + b - (lm_y w + b)) with (lm_y p - lm_y w) by ring.
  reflexivity.
Qed.

Lemma calculateCentroid_translate (a b : R) (landmarks : list (Landmark R)) :
  calculateCentroid (map (translate a b) landmarks) allTips
  = option_map (fun c => (fst c + a, snd c + b))
      (calculateCentroid landmarks allTips).
Proof.
  unfold calculateCentroid, allTips. cbn [sumCoordinates length].
  rewrite !landmarkAt_map.
  repeat (match goal with
          | |- context [landmarkAt landmarks ?i] =>
              destruct (landmarkAt landmarks i)
          end; cbn [option_map bind]; [ | reflexivity ]).
  on_reals. f_equal. f_equal; field.
Qed.

Lemma sumDistances_translate (a b : R) (landmarks : list (Landmark R))
    (ids : list nat) (centroid : R * R) :
  forall total,
    sumDistances (map (translate a b) landmarks) ids
      (fst centroid + a, snd centroid + b) total
    = sumDistances landmarks ids centroid total.
Proof.
  induction ids as [| id rest IH]; intros total; cbn [sumDistances];
    [ reflexivity | ].
  rewrite landmarkAt_map.
  destruct (landmarkAt landmarks id) as [l |]; cbn [option_map bind];
    [ | reflexivity ].
  on_reals.
  replace (lm_x l + a - (fst centroid + a)) with (lm_x l - fst centroid) by ring.
  replace (lm_y l + b - (snd centroid + b)) with (lm_y l - snd centroid) by ring.
  apply IH.
Qed.

Lemma classify_translate (a b : R) (landmarks : list (Landmark R)) :
  classify (map (translate a b) landmarks)
  = option_map (moveTarget (fun u => u + a) (fun v => v + b))
      (classify landmarks).
Proof.
  unfold classify.
  rewrite calculateCentroid_translate, !landmarkAt_map.
  destruct (landmarkAt landmarks 0) as [w |]; cbn [option_map bind];
    [ | reflexivity ].
  destruct (landmarkAt landmarks 9) as [m |]; cbn [option_map bind];
    [ | reflexivity ].
  on_reals.
  replace (lm_x w + a - (lm_x m + a)) with (lm_x w - lm_x m) by ring.
  replace (lm_y w + b - (lm_y m + b)) with (lm_y w - lm_y m) by ring.
  rewrite !isFingerExtended_translate, isThumbExtended_translate.
  repeat match goal with
         | |- bind ?m _ = option_map _ (bind ?m _) =>
             destruct m; cbn [bind option_map]; [ | reflexivity ]
         end.
  destruct (calculateCentroid landmarks allTips) as [c |];
    cbn [option_map bind]; [ | reflexivity ].
  rewrite sumDistances_translate.
  match goal with
  | |- bind ?m _ = option_map _ (bind ?m _) =>
      destruct m as [total |]; cbn [bind option_map]; [ | reflexivity ]
  end.
  match goal with
  | |- (if ?t then _ else _) = _ => destruct t
  end; [ | reflexivity ].
  rewrite landmarkAt_map.
  match goal with
  | |- context [landmarkAt landmarks ?i] => destruct (landmarkAt landmarks i)
  end; reflexivity.
Qed.

(** **** Scaling the hand *)

Lemma isFingerExtended_scale (k : R) (landmarks : list (Landmark R))
    (tipIdx pipIdx : nat) (palmScale : R) :
  0 < k ->
  isFingerExtended (map (scaleBy k) landmarks) tipIdx pipIdx (k * palmScale)
  = isFingerExtended landmarks tipIdx pipIdx palmScale.
Proof.
  intros Hk. unfold isFingerExtended. rewrite !landmarkAt_map.
  destruct (landmarkAt landmarks 0) as [w |]; cbn [option_map bind];
    [ | reflexivity ].
  destruct (landmarkAt landmarks tipIdx) as [t |]; cbn [option_map bind];
    [ | reflexivity ].
  destruct (landmarkAt landmarks pipIdx) as [p |]; cbn [option_map bind];
    [ | reflexivity ].
  on_reals.
  replace (k * lm_x t - k * lm_x w) with (k * (lm_x t - lm_x w)) by ring.
  replace (k * lm_y t - k * lm_y w) with (k * (lm_y t - lm_y w)) by ring.
  replace (k * lm_x p - k * lm_x w) with (k * (lm_x p - lm_x w)) by ring.
  replace (k * lm_y p - k * lm_y w) with (k * (lm_y p - lm_y w)) by ring.
  rewrite !Rhypot_scale by lra.
  match goal with
  | |- Some (Rgtb (k * ?d) (k * ?e + k * ?s * ?c)) = _ =>
      replace (k * e + k * s * c) with (k * (e + s * c)) by ring
  end.
  now rewrite Rgtb_scale.
Qed.

Lemma isThumbExtended_scale (k : R) (landmarks : list (Landmark R))
    (palmScale : R) :
  0 < k ->
  isThumbExtended (map (scaleBy k) landmarks) (k * palmScale)
  = isThumbExtended landmarks palmScale.
Proof.
  intros Hk. unfold isThumbExtended. rewrite !landmarkAt_map.
  destruct (landmarkAt landmarks 4) as [t |]; cbn [option_map bind];
    [ | reflexivity ].
  destruct (landmarkAt landmarks 3) as [p |]; cbn [option_map bind];
    [ | reflexivity ].
  destruct (landmarkAt landmarks 17) as [w |]; cbn [option_map bind];
    [ | reflexivity ].
  on_reals.
  replace (k * lm_x t - k * lm_x w) with (k * (lm_x t - lm_x w)) by ring.
  replace (k * lm_y t - k * lm_y w) with (k * (lm_y t - lm_y w)) by ring.
  replace (k * lm_x p - k * lm_x w) with (k * (lm_x p - lm_x w)) by ring.
  replace (k * lm_y p - k * lm_y w) with (k * (lm_y p - lm_y w)) by ring.
  rewrite !Rhypot_scale by lra.
  match goal with
  | |- Some (Rgtb (k * ?d) (k * ?e + k * ?s * ?c)) = _ =>
      replace (k * e + k * s * c) with (k * (e + s * c)) by ring
  end.
  now rewrite Rgtb_scale.
Qed.

Lemma calculateCentroid_scale (k : R) (landmarks : list (Landmark R)) :
  calculateCentroid (map (scaleBy k) landmarks) allTips
  = option_map (fun c => (k * fst c, k * snd c))
      (calculateCentroid landmarks allTips).
Proof.
  unfold calculateCentroid, allTips. cbn [sumCoordinates length].
  rewrite !landmarkAt_map.
  repeat (match goal with
          | |- context [landmarkAt landmarks ?i] =>
              destruct (landmarkAt landmarks i)
          end; cbn [option_map bind]; [ | reflexivity ]).
  on_reals. f_equal. f_equal; field.
Qed.

Lemma sumDistances_scale (k : R) (landmarks : list (Landmark R))
    (ids : list nat) (centroid : R * R) :
  0 <= k ->
  forall total,
    sumDistances (map (scaleBy k) landmarks) ids
      (k * fst centroid, k * snd centroid) (k * total)
    = option_map (Rmult k) (sumDistances landmarks ids centroid total).
Proof.
  intros Hk.
  induction ids as [| id rest IH]; intros total; cbn [sumDistances];
    [ reflexivity | ].
  rewrite landmarkAt_map.
  destruct (landmarkAt landmarks id) as [l |]; cbn [option_map bind];
    [ | reflexivity ].
  on_reals.
  replace (k * lm_x l - k * fst centroid) with (k * (lm_x l - fst centroid))
    by ring.
  replace (k * lm_y l - k * snd centroid) with (k * (lm_y l - snd centroid))
    by ring.
  rewrite Rhypot_scale by exact Hk.
  rewrite <- Rmult_plus_distr_l.
  apply IH.
Qed.

Lemma spread_scale (k total palmScale : R) :
  0 < k -> k * total / 5 / (k * palmScale) = total / 5 / palmScale.
Proof.
  intros Hk. unfold Rdiv. rewrite Rinv_mult.
  transitivity (k * / k * (total * / 5 * / palmScale)); [ ring | ].
  rewrite Rinv_r by lra. ring.
Qed.

Lemma classify_scale (k : R) (landmarks : list (Landmark R)) :
  0 < k ->
  classify (map (scaleBy k) landmarks)
  = option_map (moveTarget (Rmult k) (Rmult k)) (classify landmarks).
Proof.
  intros Hk. unfold classify.
  rewrite calculateCentroid_scale, !landmarkAt_map.
  destruct (landmarkAt landmarks 0) as [w |]; cbn [option_map bind];
    [ | reflexivity ].
  destruct (landmarkAt landmarks 9) as [m |]; cbn [option_map bind];
    [ | reflexivity ].
  on_reals.
  replace (k * lm_x w - k * lm_x m) with (k * (lm_x w - lm_x m)) by ring.
  replace (k * lm_y w - k * lm_y m) with (k * (lm_y w - lm_y m)) by ring.
  rewrite Rhypot_scale by lra.
  rewrite !isFingerExtended_scale, isThumbExtended_scale by exact Hk.
  repeat match goal with
         | |- bind ?m _ = option_map _ (bind ?m _) =>
             destruct m; cbn [bind option_map]; [ | reflexivity ]
         end.
  destruct (calculateCentroid landmarks allTips) as [c |];
    cbn [option_map bind]; [ | reflexivity ].
  replace 0 with (k * 0) at 1 by ring.
  rewrite sumDistances_scale by lra.
  match goal with
  | |- bind (option_map _ ?m) _ = option_map _ (bind ?m _) =>
      destruct m as [total |]; cbn [bind option_map]; [ | reflexivity ]
  end.
  rewrite spread_scale by exact Hk.
  match goal with
  | |- (if ?t then _ else _) = _ => destruct t
  end; [ | reflexivity ].
  rewrite landmarkAt_map.
  match goal with
  | |- context [landmarkAt landmarks ?i] => destruct (landmarkAt landmarks i)
  end; reflexivity.
Qed.

(** **** Ranges *)

Lemma div_nonneg (a b : R) : 0 <= a -> 0 <= b -> 0 <= a / b.
Proof.
  intros Ha Hb. unfold Rdiv.
  destruct (Req_dec_T b 0) as [-> | Hne].
  - rewrite Rinv_0. lra.
  - apply Rmult_le_pos; [ exact Ha | ].
    left. apply Rinv_0_lt_compat. lra.
Qed.

Lemma sumDistances_nonneg (landmarks : list (Landmark R)) (ids : list nat)
    (centroid : R * R) :
  forall total result,
    0 <= total ->
    sumDistances landmarks ids centroid total = Some result ->
    0 <= result.
Proof.
  induction ids as [| id rest IH]; intros total result Ht Hs;
    cbn [sumDistances] in Hs.
  - injection Hs as <-. exact Ht.
  - destruct (landmarkAt landmarks id) as [l |]; cbn [bind] in Hs;
      [ | discriminate Hs ].
    apply IH in Hs; [ exact Hs | ].
    on_reals.
    pose proof (Rhypot_nonneg (lm_x l - fst centroid) (lm_y l - snd centroid)).
    lra.
Qed.

Lemma landmarkAt_in_image (landmarks : list (Landmark R)) (i : nat)
    (l : Landmark R) :
  Forall InImage landmarks -> landmarkAt landmarks i = Some l -> InImage l.
Proof.
  intros Hall Hl. unfold landmarkAt in Hl.
  apply nth_error_In in Hl.
  rewrite Forall_forall in Hall. auto.
Qed.

Lemma centroid_in_image (landmarks : list (Landmark R)) (c : R * R) :
  Forall InImage landmarks ->
  calculateCentroid landmarks allTips = Some c ->
  0 <= fst c <= 1 /\ 0 <= snd c <= 1.
Proof.
  intros Hall Hc. unfold calculateCentroid, allTips in Hc.
  cbn [sumCoordinates length] in Hc.
  repeat match type of Hc with
         | context [landmarkAt landmarks ?i] =>
             let E := fresh "E" in
             destruct (landmarkAt landmarks i) eqn:E; cbn [bind] in Hc;
             [ apply (@landmarkAt_in_image landmarks _ _ Hall) in E; destruct E as [? ?]
             | discriminate Hc ]
         end.
  injection Hc as <-. on_reals. cbn [Z.of_nat Pos.of_succ_nat Pos.succ].
  split; lra.
Qed.

(** What [classify] returns: the spread is not negative, and the target
    is a landmark of the pose or the centroid of the fingertips. *)
Lemma classify_result (landmarks : list (Landmark R)) (c : Classified) :
  classify landmarks = Some c ->
  0 <= c_handSpread c /\
  ((exists tip i, landmarkAt landmarks i = Some tip /\
                  c_targetX c = lm_x tip /\ c_targetY c = lm_y tip) \/
   calculateCentroid landmarks allTips = Some (c_targetX c, c_targetY c)).
Proof.
  intros Hc. unfold classify in Hc.
  destruct (landmarkAt landmarks 0) as [w |]; cbn [bind] in Hc;
    [ | discriminate Hc ].
  destruct (landmarkAt landmarks 9) as [m |]; cbn [bind] in Hc;
    [ | discriminate Hc ].
  repeat match type of Hc with
         | bind (isFingerExtended ?a ?b ?c ?d) _ = Some _ =>
             destruct (isFingerExtended a b c d); cbn [bind] in Hc;
             [ | discriminate Hc ]
         | bind (isThumbExtended ?a ?b) _ = Some _ =>
             destruct (isThumbExtended a b); cbn [bind] in Hc;
             [ | discriminate Hc ]
         end.
  destruct (calculateCentroid landmarks allTips) as [cen |] eqn:Ecen;
    cbn [bind] in Hc; [ | discriminate Hc ].
  match type of Hc with
  | bind ?s _ = Some _ =>
      destruct s as [total |] eqn:Etot; cbn [bind] in Hc; [ | discriminate Hc ]
  end.
  assert (Hspread : 0 <= total / 5 /
                         Rhypot (lm_x w - lm_x m) (lm_y w - lm_y m)).
  { apply div_nonneg; [ | apply Rhypot_nonneg ].
    apply sumDistances_nonneg in Etot; [ lra | on_reals; lra ]. }
  match type of Hc with
  | (if ?t then _ else _) = _ => destruct t
  end.
  - match type of Hc with
    | bind (landmarkAt landmarks ?i) _ = Some _ =>
        destruct (landmarkAt landmarks i) as [tip |] eqn:Etip;
        cbn [bind] in Hc; [ | discriminate Hc ]
    end.
    injection Hc as <-. cbn. split; [ exact Hspread | ].
    left. eauto.
  - injection Hc as <-. cbn. split; [ exact Hspread | ].
    right. destruct cen; reflexivity.
Qed.

(** **** The properties *)

Lemma frame_value (landmarks : list (Landmark R))
    (hands : list (list (Landmark R))) (video : Video) (debugCanvas : bool) :
  let r := fst (processVideoFrame
                  (Some (DetectReturns (Some (landmarks :: hands))))
                  video debugCanvas) in
  r = noResult \/
  exists c, classify landmarks = Some c /\
            r = {| x := 1 - c_targetX c; y := c_targetY c; isDetected := true;
                   gesture := c_gesture c;
                   handSpread := Some (c_handSpread c) |}.
Proof.
  intros r. subst r. unfold processVideoFrame.
  destruct ((videoWidth video =? 0)%N || (videoHeight video =? 0)%N);
    [ left; reflexivity | ].
  destruct (classify landmarks) as [c |]; [ right | left; reflexivity ].
  exists c. split; reflexivity.
Qed.

Lemma frame_moved (f g : R -> R) (l1 l2 : list (Landmark R))
    (hands : list (list (Landmark R))) (video : Video) (debugCanvas : bool) :
  classify l2 = option_map (moveTarget f g) (classify l1) ->
  let r := fst (processVideoFrame (Some (DetectReturns (Some (l1 :: hands))))
                  video debugCanvas) in
  let r' := fst (processVideoFrame (Some (DetectReturns (Some (l2 :: hands))))
                   video debugCanvas) in
  (isDetected r = false -> r' = r) /\
  (isDetected r = true ->
   isDetected r' = true /\ gesture r' = gesture r /\
   handSpread r' = handSpread r /\
   1 - x r' = f (1 - x r) /\ y r' = g (y r)).
Proof.
  intros Hc r r'. subst r r'. unfold processVideoFrame. rewrite Hc.
  destruct ((videoWidth video =? 0)%N || (videoHeight video =? 0)%N);
    [ cbn; split; [ reflexivity | discriminate ] | ].
  destruct (classify l1) as [c |]; cbn;
    [ | split; [ reflexivity | discriminate ] ].
  split; [ discriminate | intros _ ].
  repeat split.
  replace (1 - (1 - c_targetX c)) with (c_targetX c) by ring. ring.
Qed.

(** X4. Shifting the whole hand by [(a, b)] in the image changes neither
    the gesture nor the spread: the target moves by [(a, b)], so the
    mirrored [x] of the result moves by [-a] and its [y] by [b]; a frame
    without a detection stays one. *)
Theorem shifting_the_hand (a b : R) (landmarks : list (Landmark R))
    (hands : list (list (Landmark R))) (video : Video) (debugCanvas : bool) :
  let r := fst (processVideoFrame
                  (Some (DetectReturns (Some (landmarks :: hands))))
                  video debugCanvas) in
  let r' := fst (processVideoFrame
                   (Some (DetectReturns
                            (Some (map (translate a b) landmarks :: hands))))
                   video debugCanvas) in
  (isDetected r = false -> r' = r) /\
  (isDetected r = true ->
   isDetected r' = true /\ gesture r' = gesture r /\
   handSpread r' = handSpread r /\ x r' = x r - a /\ y r' = y r + b).
Proof.
  intros r r'.
  destruct (frame_moved (fun u => u + a) (fun v => v + b) landmarks
              (map (translate a b) landmarks) hands video debugCanvas
              (classify_translate a b landmarks)) as [Hno Hyes].
  fold r r' in Hno, Hyes.
  split; [ exact Hno | ].
  intros Hd. destruct (Hyes Hd) as (H1 & H2 & H3 & H4 & H5).
  repeat split; try assumption. lra.
Qed.

(** X5. Scaling the whole hand by [k > 0] (the hand nearer to or farther
    from the camera) changes neither the gesture nor the spread: every
    threshold is a multiple of the palm scale.  The target is scaled by
    [k]. *)
Theorem scaling_the_hand (k : R) (landmarks : list (Landmark R))
    (hands : list (list (Landmark R))) (video : Video) (debugCanvas : bool) :
  0 < k ->
  let r := fst (processVideoFrame
                  (Some (DetectReturns (Some (landmarks :: hands))))
                  video debugCanvas) in
  let r' := fst (processVideoFrame
                   (Some (DetectReturns
                            (Some (map (scaleBy k) landmarks :: hands))))
                   video debugCanvas) in
  (isDetected r = false -> r' = r) /\
  (isDetected r = true ->
   isDetected r' = true /\ gesture r' = gesture r /\
   handSpread r' = handSpread r /\
   1 - x r' = k * (1 - x r) /\ y r' = k * y r).
Proof.
  intros Hk.
  apply (frame_moved (Rmult k) (Rmult k) landmarks
           (map (scaleBy k) landmarks) hands video debugCanvas
           (@classify_scale k landmarks Hk)).
Qed.

Lemma frame_spread (landmarks : list (Landmark R))
    (hands : list (list (Landmark R))) (video : Video) (debugCanvas : bool) :
  exists h,
    handSpread (fst (processVideoFrame
                       (Some (DetectReturns (Some (landmarks :: hands))))
                       video debugCanvas)) = Some h /\ 0 <= h.
Proof.
  destruct (frame_value landmarks hands video debugCanvas)
    as [E | (c & Hc & E)]; rewrite E.
  - exists 0. split; [ reflexivity | lra ].
  - destruct (@classify_result landmarks c Hc) as [Hs Ht]. cbn.
    exists (c_handSpread c). auto.
Qed.

Lemma frame_in_range (landmarks : list (Landmark R))
    (hands : list (list (Landmark R))) (video : Video) (debugCanvas : bool) :
  Forall InImage landmarks ->
  let r := fst (processVideoFrame
                  (Some (DetectReturns (Some (landmarks :: hands))))
                  video debugCanvas) in
  0 <= x r <= 1 /\ 0 <= y r <= 1.
Proof.
  intros Hall r.
  destruct (frame_value landmarks hands video debugCanvas)
    as [E | (c & Hc & E)]; fold r in E; rewrite E.
  - cbn. unfold dec. cbn. lra.
  - destruct (@classify_result landmarks c Hc) as [Hs Ht]. cbn.
    destruct Ht as [(tip & i & Htip & -> & ->) | Hcen].
    + destruct (@landmarkAt_in_image landmarks i tip Hall Htip). lra.
    + destruct (@centroid_in_image landmarks _ Hall Hcen) as [H1 H2].
      cbn in H1, H2. lra.
Qed.

(** X6. When every landmark of the hand lies in the image ([x] and [y]
    between 0 and 1), so do the [x] and [y] of the result; and the spread
    of a result is never negative, wherever the landmarks are. *)
Theorem result_in_range (landmarks : list (Landmark R))
    (hands : list (list (Landmark R))) (video : Video) (debugCanvas : bool) :
  let r := fst (processVideoFrame
                  (Some (DetectReturns (Some (landmarks :: hands))))
                  video debugCanvas) in
  (exists h, handSpread r = Some h /\ 0 <= h) /\
  (Forall InImage landmarks -> 0 <= x r <= 1 /\ 0 <= y r <= 1).
Proof.
  intros r. split.
  - apply frame_spread.
  - intros Hall. apply (frame_in_range hands video debugCanvas Hall).
Qed.

Lemma Rhypot_null (a b : R) : Rhypot a b = 0 -> a = 0 /\ b = 0.
Proof.
  unfold Rhypot. intros H.
  apply sqrt_eq_0 in H; [ split; nra | nra ].
Qed.

(** X7. When the five fingertips (landmarks 4, 8, 12, 16 and 20) meet in
    one point and the palm has a size (the wrist and the middle knuckle,
    landmarks 0 and 9, are not at the same point of the image), the
    spread is 0. *)
Theorem pinched_hand_has_no_spread (p : R * R)
    (landmarks : list (Landmark R)) (hands : list (list (Landmark R)))
    (video : Video) (debugCanvas : bool) :
  Forall (fun i => option_map xy (landmarkAt landmarks i) = Some p)
    [4; 8; 12; 16; 20]%nat ->
  (forall wrist middleMCP,
      landmarkAt landmarks 0 = Some wrist ->
      landmarkAt landmarks 9 = Some middleMCP ->
      xy wrist <> xy middleMCP) ->
  handSpread (fst (processVideoFrame
                     (Some (DetectReturns (Some (landmarks :: hands))))
                     video debugCanvas)) = Some 0.
Proof.
  intros Hall Hpalm.
  destruct (frame_value landmarks hands video debugCanvas)
    as [E | (c & Hc & E)]; rewrite E; [ reflexivity | ].
  cbn. f_equal.
  repeat match goal with
         | H : Forall _ (_ :: _) |- _ =>
             let E := fresh "T" in
             inversion H as [| ? ? E ?]; subst; clear H
         end.
  cbv beta in *.
  unfold classify in Hc.
  destruct (landmarkAt landmarks 0) as [w |] eqn:Ew; cbn [bind] in Hc;
    [ | discriminate Hc ].
  destruct (landmarkAt landmarks 9) as [m |] eqn:Em; cbn [bind] in Hc;
    [ | discriminate Hc ].
  assert (Hscale : Rhypot (lm_x w - lm_x m) (lm_y w - lm_y m) <> 0).
  { intros H0. apply Rhypot_null in H0. destruct H0 as [Hx Hy].
    apply (Hpalm w m eq_refl eq_refl).
    unfold xy. f_equal; lra. }
  repeat match type of Hc with
         | bind (isFingerExtended ?a ?b ?c ?d) _ = Some _ =>
             destruct (isFingerExtended a b c d); cbn [bind] in Hc;
             [ | discriminate Hc ]
         | bind (isThumbExtended ?a ?b) _ = Some _ =>
             destruct (isThumbExtended a b); cbn [bind] in Hc;
             [ | discriminate Hc ]
         end.
  unfold calculateCentroid, allTips in Hc.
  cbn [sumCoordinates sumDistances length] in Hc.
  destruct p as [px py].
  repeat match goal with
         | T : option_map xy (landmarkAt landmarks ?i) = Some _ |- _ =>
             let E := fresh "E" in
             destruct (landmarkAt landmarks i) as [[? ? ?] |] eqn:E;
             [ cbn in T; injection T as -> -> | discriminate T ]
         end.
  cbn [bind fst snd] in Hc. on_reals.
  cbn [Z.of_nat Pos.of_succ_nat Pos.succ length] in Hc.
  replace (px - (0 + px + px + px + px + px) / 5) with 0 in Hc by field.
  replace (py - (0 + py + py + py + py + py) / 5) with 0 in Hc by field.
  rewrite Rhypot_zero in Hc.
  assert (Hz : (0 + 0 + 0 + 0 + 0 + 0) / 5 /
               Rhypot (lm_x w - lm_x m) (lm_y w - lm_y m) = 0)
    by (field; exact Hscale).
  match type of Hc with
  | (if ?t then _ else _) = _ => destruct t
  end;
    repeat match type of Hc with
           | bind ?s _ = Some _ =>
               destruct s; cbn [bind] in Hc; [ | discriminate Hc ]
           end;
    injection Hc as <-; cbn; exact Hz.
Qed.

End OnReals.
(** *** At sample poses *)


Lemma scaling_the_hand_witness :
  let r := fst (processVideoFrame
                  (Some (DetectReturns (Some [pointing_pose_R])))
                  Samples.vga false) in
  let r' := fst (processVideoFrame
                   (Some (DetectReturns
                            (Some [map (scaleBy (1 / 2)) pointing_pose_R])))
                   Samples.vga false) in
  (isDetected r = false -> r' = r) /\
  (isDetected r = true ->
   isDetected r' = true /\ gesture r' = gesture r /\
   handSpread r' = handSpread r /\
   (1 - x r' = 1 / 2 * (1 - x r))%R /\ y r' = (1 / 2 * y r)%R).
Proof.
  apply (@scaling_the_hand (1 / 2)%R pointing_pose_R [] Samples.vga false).
  lra.
Defined.

Lemma pinched_hand_has_no_spread_witness :
  handSpread (fst (processVideoFrame
                     (Some (DetectReturns (Some [pinched_pose_R])))
                     Samples.vga false)) = Some 0%R.
Proof.
  apply (@pinched_hand_has_no_spread (IZR 50 / 100, IZR 70 / 100)%R
           pinched_pose_R [] Samples.vga false).
  - repeat constructor.
  - intros wrist middleMCP Hw Hm.
    injection Hw as <-. injection Hm as <-.
    unfold xy, ptR. cbn [lm_x lm_y]. intros E. injection E as E. lra.
Defined.

End ServiceFacts.

(* ================================================================== *)
(** ** Verification of the initialization *)

Module InitializationFacts.
Import Ascii String Initialization.

Lemma lowerChar_upperChar (c : ascii) : lowerChar (upperChar c) = lowerChar c.
Proof.
  destruct c as [b0 b1 b2 b3 b4 b5 b6 b7].
  destruct b0, b1, b2, b3, b4, b5, b6, b7; reflexivity.
Qed.

Lemma lowerChar_lowerChar (c : ascii) : lowerChar (lowerChar c) = lowerChar c.
Proof.
  destruct c as [b0 b1 b2 b3 b4 b5 b6 b7].
  destruct b0, b1, b2, b3, b4, b5, b6, b7; reflexivity.
Qed.

Section Recasing.

Variable f : ascii -> ascii.
Hypothesis f_case : forall c, lowerChar (f c) = lowerChar c.

Lemma startsWith_recased (word : string) :
  forall s, startsWith word (mapString f s) = startsWith word s.
Proof.
  induction word as [| a word IH]; intros [| b s]; cbn; try reflexivity.
  now rewrite f_case, IH.
Qed.

Lemma occursIn_recased (word : string) :
  forall s, occursIn word (mapString f s) = occursIn word s.
Proof.
  induction s as [| b s IH].
  - reflexivity.
  - cbn [occursIn mapString].
    change (String (f b) (mapString f s)) with (mapString f (String b s)).
    now rewrite startsWith_recased, IH.
Qed.

Lemma isMobile_recased (s : string) : isMobile (mapString f s) = isMobile s.
Proof.
  unfold isMobile.
  induction mobileWords as [| word rest IH]; [ reflexivity | ].
  cbn [existsb]. now rewrite occursIn_recased, IH.
Qed.

End Recasing.

Lemma startsWith_append (word : string) :
  forall s post, startsWith word s = true -> startsWith word (s ++ post) = true.
Proof.
  induction word as [| a word IH]; intros [| b s] post H; cbn in *;
    try reflexivity; try discriminate.
  apply andb_true_iff in H. destruct H as [H1 H2].
  now rewrite H1, (IH s post H2).
Qed.

Lemma occursIn_append (word : string) :
  forall s post, occursIn word s = true -> occursIn word (s ++ post) = true.
Proof.
  induction s as [| b s IH]; intros post H.
  - cbn in H. rewrite orb_false_r in H.
    destruct word; [ destruct post; reflexivity | discriminate H ].
  - cbn [occursIn] in H. apply orb_true_iff in H.
    change (String b s ++ post)%string with (String b (s ++ post)).
    cbn [occursIn]. apply orb_true_iff.
    destruct H as [H | H].
    + left. apply (startsWith_append word (String b s) post H).
    + right. apply IH. exact H.
Qed.

Lemma occursIn_prepend (word : string) :
  forall pre s, occursIn word s = true -> occursIn word (pre ++ s) = true.
Proof.
  induction pre as [| b pre IH]; intros s H; [ exact H | ].
  change (String b pre ++ s)%string with (String b (pre ++ s)).
  cbn [occursIn]. rewrite (IH s H). apply orb_true_r.
Qed.

Lemma mapString_app (f : ascii -> ascii) (s t : string) :
  mapString f (s ++ t) = (mapString f s ++ mapString f t)%string.
Proof.
  induction s as [| c s IH]; [ reflexivity | ].
  cbn. now rewrite IH.
Qed.

Lemma startsWith_spec (word : string) :
  forall s,
    startsWith word s = true <->
    exists after,
      mapString lowerChar s = (mapString lowerChar word ++ after)%string.
Proof.
  induction word as [| a word IH]; intros s.
  - split; [ intros _; exists (mapString lowerChar s) | ]; reflexivity.
  - destruct s as [| b s].
    + split; [ discriminate | intros [after H]; discriminate H ].
    + cbn [startsWith mapString append].
      rewrite andb_true_iff, Ascii.eqb_eq, IH.
      split.
      * intros [Hc [after Hs]]. exists after. now rewrite Hc, Hs.
      * intros [after H]. injection H as Hc Hs. split; [ auto | eauto ].
Qed.

Lemma occursIn_spec (word : string) :
  forall s,
    occursIn word s = true <->
    exists before after,
      mapString lowerChar s
      = (before ++ mapString lowerChar word ++ after)%string.
Proof.
  induction s as [| b s IH].
  - cbn [occursIn]. rewrite orb_false_r. split.
    + intros H. apply startsWith_spec in H. destruct H as [after H].
      exists EmptyString, after. exact H.
    + intros (before & after & H). apply startsWith_spec.
      destruct before; [ exists after; exact H | discriminate H ].
  - cbn [occursIn]. rewrite orb_true_iff, IH. split.
    + intros [H | (before & after & H)].
      * apply startsWith_spec in H. destruct H as [after H].
        exists EmptyString, after. exact H.
      * exists (String (lowerChar b) before), after.
        cbn [mapString append]. now rewrite H.
    + intros (before & after & H). destruct before as [| c before].
      * left. apply startsWith_spec. exists after. exact H.
      * right. cbn [mapString append] in H. injection H as _ H.
        exists before, after. exact H.
Qed.

(** X8. The test of the user agent answers true exactly when one of the
    eight words Android, webOS, iPhone, iPad, iPod, BlackBerry, IEMobile
    and Opera Mini occurs somewhere in the string, letter case apart (the
    user agent and the word compared in small letters).  So a user agent
    that is mobile stays mobile with any text before and after it, and
    writing a user agent in capitals or in small letters does not change
    the answer.  The user agent of an iPhone and one that spells android
    in capitals are mobile; one of a desktop browser is not. *)
Theorem isMobile_anywhere_any_case (ua : string) :
  (isMobile ua = true <->
   exists word before after,
     In word [ "Android"; "webOS"; "iPhone"; "iPad"; "iPod"; "BlackBerry";
               "IEMobile"; "Opera Mini" ]%string /\
     mapString lowerChar ua
     = (before ++ mapString lowerChar word ++ after)%string) /\
  (forall before after,
      isMobile ua = true -> isMobile (before ++ ua ++ after) = true) /\
  isMobile (mapString upperChar ua) = isMobile ua /\
  isMobile (mapString lowerChar ua) = isMobile ua /\
  mapString lowerChar "Opera Mini/7.1 (BlackBerry; U)"
  = "opera mini/7.1 (blackberry; u)"%string /\
  isMobile "Mozilla/5.0 (iPhone; CPU iPhone OS 16_0 like Mac OS X)" = true /\
  isMobile "mozilla/5.0 (linux; ANDROID 13; pixel 7)" = true /\
  isMobile "Mozilla/5.0 (Windows NT 10.0; Win64; x64) Chrome/119.0" = false /\
  isMobile "" = false.
Proof.
  split; [ | split; [ | split; [ | split ] ] ].
  - unfold isMobile. rewrite existsb_exists. split.
    + intros (word & Hin & Hocc). apply occursIn_spec in Hocc.
      destruct Hocc as (before & after & H).
      exists word, before, after. split; [ exact Hin | exact H ].
    + intros (word & before & after & Hin & H).
      exists word. split; [ exact Hin | ].
      apply occursIn_spec. exists before, after. exact H.
  - intros before after H. unfold isMobile in *.
    apply existsb_exists in H. destruct H as (word & Hin & Hocc).
    apply existsb_exists. exists word. split; [ exact Hin | ].
    apply occursIn_prepend, occursIn_append. exact Hocc.
  - apply isMobile_recased. exact lowerChar_upperChar.
  - apply isMobile_recased. exact lowerChar_lowerChar.
  - repeat split; vm_compute; reflexivity.
Qed.

(** X9. How a call of [initialize] ends.  With a landmarker already there
    it does nothing.  Otherwise it returns exactly when it leaves a
    landmarker, and it throws exactly when it leaves none; so a call after
    a call that returned tries nothing, and after a call that threw every
    frame gets the neutral result without any call to a detector. *)
Theorem initialize_outcome (browser : Browser) :
  (forall options,
      initialize (Some options) browser = (Some options, [], Returned)) /\
  (let '(landmarker, steps, outcome) := initialize None browser in
   (outcome = Returned <-> landmarker <> None) /\
   (outcome = Thrown <-> landmarker = None) /\
   (forall browser',
       outcome = Returned ->
       initialize landmarker browser' = (landmarker, [], Returned)) /\
   (forall (num : Type) (J : JSNumber num) detection video debugCanvas,
       outcome = Thrown ->
       @processFrameOf num J landmarker detection video debugCanvas
       = (LocalGestureService.noResult, []))).
Proof.
  split; [ reflexivity | ].
  unfold initialize.
  destruct (visionResolves browser), (isMobile (userAgent browser)),
    (creates browser mobileOptions), (creates browser gpuOptions),
    (creates browser fallbackOptions);
    cbn; repeat split; intros; try discriminate; try congruence;
    try reflexivity.
Qed.

(** X10. What [initialize] tries.  The WASM files are resolved first and
    once.  On a mobile user agent the GPU is never tried: the only
    landmarker created is on the CPU, for one hand, with the three
    confidences at 0.4.  Elsewhere the GPU is tried first, for one hand
    with the three confidences at 0.5, and the CPU only after the GPU
    failed, for one hand with the confidences left to their defaults.
    The landmarker kept is the last one tried, and its creation
    succeeded.  (The confidences are written in hundredths.) *)
Theorem initialize_steps (browser : Browser) :
  let onMobile :=
    {| delegate := CPU; numHands := 1;
       minHandDetectionConfidence := Some 40%nat;
       minHandPresenceConfidence := Some 40%nat;
       minTrackingConfidence := Some 40%nat |} in
  let onGPU :=
    {| delegate := GPU; numHands := 1;
       minHandDetectionConfidence := Some 50%nat;
       minHandPresenceConfidence := Some 50%nat;
       minTrackingConfidence := Some 50%nat |} in
  let onCPU :=
    {| delegate := CPU; numHands := 1;
       minHandDetectionConfidence := None;
       minHandPresenceConfidence := None;
       minTrackingConfidence := None |} in
  let '(landmarker, steps, outcome) := initialize None browser in
  (exists creations,
      steps = ResolveVision :: map Create creations /\
      (visionResolves browser = false -> creations = []) /\
      (visionResolves browser = true -> creations <> []) /\
      (isMobile (userAgent browser) = true ->
       creations = [] \/ creations = [onMobile]) /\
      (isMobile (userAgent browser) = false ->
       creations = [] \/
       (creations = [onGPU] /\ creates browser onGPU = true) \/
       (creations = [onGPU; onCPU] /\ creates browser onGPU = false))) /\
  (forall o, landmarker = Some o ->
             creates browser o = true /\
             (o = onMobile \/ o = onGPU \/ o = onCPU) /\
             exists earlier, steps = earlier ++ [Create o]).
Proof.
  intros onMobile onGPU onCPU.
  change onMobile with mobileOptions.
  change onGPU with gpuOptions.
  change onCPU with fallbackOptions.
  clear onMobile onGPU onCPU.
  unfold initialize.
  destruct (visionResolves browser) eqn:Ev,
    (isMobile (userAgent browser)) eqn:Em,
    (creates browser mobileOptions) eqn:E1,
    (creates browser gpuOptions) eqn:E2,
    (creates browser fallbackOptions) eqn:E3;
    cbn [negb];
    (split;
     [ first
         [ exists []; cbn; repeat split; intros; try discriminate;
           auto; fail
         | exists [mobileOptions]; cbn; repeat split; intros;
           try discriminate; auto; fail
         | exists [gpuOptions]; cbn; repeat split; intros;
           try discriminate; auto; fail
         | exists [gpuOptions; fallbackOptions]; cbn; repeat split; intros;
           try discriminate; auto; fail ]
     | intros o Ho; try discriminate Ho; injection Ho as <-;
       repeat split; try assumption; auto;
       first [ exists [ResolveVision]; reflexivity
             | exists [ResolveVision; Create gpuOptions]; reflexivity ] ]).
Qed.

End InitializationFacts.

(* ================================================================== *)
(** ** More on the formation switch and the camera *)

Module SwitchFacts.
Import ChristmasTree FormationFacts SwitchWords.

Local Open Scope R_scope.

(** X11. Every change of formation is a step of the cycle
    TREE, EXPLODE, TEXT, TREE: no tick goes from EXPLODE back to TREE or
    skips a formation.  A tick that changes the formation is one of a
    mounted component with the velocity computed and the cooldown elapsed;
    its velocity is over +2 when it leaves TREE or TEXT and under -1 when
    it leaves EXPLODE. *)
Theorem changes_follow_the_cycle (r : Refs)
    (trackingResult : HandTrackingResult R) (now : Z) :
  stateRef (gestureEffect r trackingResult now) <> stateRef r ->
  stateRef (gestureEffect r trackingResult now) = successor (stateRef r) /\
  Mounted r /\
  timeDelta r now > 0.1 /\
  (now - lastSwitchTimeRef r > COOLDOWN_MS)%Z /\
  (stateRef r <> EXPLODE ->
   velocity r (normalizedSpread trackingResult) now > 2) /\
  (stateRef r = EXPLODE ->
   velocity r (normalizedSpread trackingResult) now < -1).
Proof.
  intros Hne.
  destruct (effect_cases r trackingResult now)
    as [[E _] | (Ht & Hcd & E & _ & _)]; [ contradiction | ].
  assert (Hm : Mounted r).
  { unfold Mounted.
    destruct (controlsRef r) as [c |] eqn:Hc;
      [ | exfalso; apply Hne; now rewrite effect_unmounted by auto ].
    destruct (cameraRef r) as [cam |] eqn:Hcam;
      [ eauto | exfalso; apply Hne; now rewrite effect_unmounted by auto ]. }
  rewrite E in Hne |- *.
  set (v := velocity r (normalizedSpread trackingResult) now) in *.
  destruct (Rgt_dec v 2) as [Hv | Hv].
  - rewrite nextStateOf_expand in Hne |- * by exact Hv.
    destruct (stateRef r); repeat split; auto; try congruence.
  - destruct (Rlt_dec v (-1)) as [Hw | Hw].
    + rewrite nextStateOf_contract in Hne |- * by exact Hw.
      destruct (stateRef r); repeat split; auto; try congruence.
    + rewrite nextStateOf_calm in Hne by lra. contradiction.
Qed.

(** X12. In every reachable state of the component the last spread sample
    lies between 0 and 1, so a velocity, which is computed over more than
    0.1 s, lies strictly between -10 and 10. *)
Theorem velocity_is_bounded (r : Refs)
    (trackingResult : HandTrackingResult R) (now : Z) :
  Reachable r ->
  0 <= lastSpreadRef r <= 1 /\
  (timeDelta r now > 0.1 ->
   -10 < velocity r (normalizedSpread trackingResult) now < 10).
Proof.
  intros Hr.
  pose proof (AbsenceFacts.reachable_spread Hr) as Hls.
  split; [ exact Hls | ].
  intros Ht.
  pose proof (normalizedSpread_bounds trackingResult) as Hs.
  unfold velocity.
  set (d := normalizedSpread trackingResult - lastSpreadRef r).
  assert (Hd : -1 <= d <= 1) by (unfold d; lra).
  set (dt := timeDelta r now) in *.
  assert (Hi : 0 < / dt < 10).
  { split; [ apply Rinv_0_lt_compat; lra | ].
    replace 10 with (/ 0.1) by lra.
    apply Rinv_lt_contravar; [ apply Rmult_lt_0_compat; lra | lra ]. }
  unfold Rdiv. split; nra.
Qed.

(** X13. At the end of every tick of the mounted component, in any of the
    three formations and whether the formation changed or not, the
    auto-rotation is off exactly when the result of the tick is a detected
    POINTING gesture; the point the controls orbit is left alone. *)
Theorem auto_rotate_follows_pointing (r : Refs)
    (trackingResult : HandTrackingResult R) (now : Z)
    (controls : OrbitControls) (camera : Camera) :
  controlsRef r = Some controls -> cameraRef r = Some camera ->
  exists controls',
    controlsRef (gestureEffect r trackingResult now) = Some controls' /\
    autoRotate controls' = negb (steers trackingResult) /\
    target controls' = target controls.
Proof.
  intros Hc Hcam.
  destruct (effect_mounted r trackingResult now Hc Hcam)
    as (c' & cam' & H1 & _ & H3 & H4).
  exists c'. auto.
Qed.

(** **** The zoom *)

Lemma targetRadius_range (trackingResult : HandTrackingResult R) :
  55 <= targetRadius (normalizedSpread trackingResult) <= 200.
Proof.
  pose proof (normalizedSpread_bounds trackingResult).
  unfold targetRadius. lra.
Qed.

Lemma setLength_null (v : Vector3) (l : R) :
  v_length v = 0 -> setLength v l = v.
Proof.
  intros Hv.
  assert (Hz : vx v = 0 /\ vy v = 0 /\ vz v = 0).
  { unfold v_length in Hv.
    apply sqrt_eq_0 in Hv; [ | apply ParticleFacts.sum_squares_nonneg ].
    repeat split; nra. }
  destruct Hz as (Hx & Hy & Hz).
  unfold setLength, normalize, divideScalar, multiplyScalar.
  destruct v as [a b c]. cbn [vx vy vz] in *. subst.
  f_equal; ring.
Qed.


Lemma zoom_length (camera : Camera) (trackingResult : HandTrackingResult R) :
  v_length (position camera) <> 0 ->
  v_length (position (zoom camera (normalizedSpread trackingResult)))
  = v_length (position camera)
    + (targetRadius (normalizedSpread trackingResult)
       - v_length (position camera)) * 0.1.
Proof.
  intros Hne.
  pose proof (targetRadius_range trackingResult) as HT.
  assert (H0 : 0 <= v_length (position camera))
    by (unfold v_length; apply sqrt_pos).
  unfold zoom. cbn [position].
  apply SteeringFacts.v_length_setLength; [ exact Hne | lra ].
Qed.

(** X14. The zoom of a tick keeps the direction of the camera and eases
    its distance to the origin a tenth of the way to the target radius,
    which lies between 55 (hand open) and 200 (hand closed): the new
    distance lies between the old one and the target radius, and the gap
    to the target radius shrinks by the factor 0.9.  A camera at the
    origin is left there. *)
Theorem zoom_eases_the_distance (camera : Camera)
    (trackingResult : HandTrackingResult R) :
  let s := normalizedSpread trackingResult in
  let len := v_length (position camera) in
  let len' := v_length (position (zoom camera s)) in
  55 <= targetRadius s <= 200 /\
  (len = 0 -> zoom camera s = camera) /\
  (len <> 0 ->
   position (zoom camera s)
   = multiplyScalar (position camera)
       ((len + (targetRadius s - len) * 0.1) / len) /\
   len' = len + (targetRadius s - len) * 0.1 /\
   len' - targetRadius s = 0.9 * (len - targetRadius s) /\
   Rmin len (targetRadius s) <= len' <= Rmax len (targetRadius s)).
Proof.
  intros s len len'.
  pose proof (targetRadius_range trackingResult) as HT. fold s in HT.
  assert (H0 : 0 <= len) by (unfold len, v_length; apply sqrt_pos).
  split; [ exact HT | split ].
  - intros Hz. unfold zoom. fold len. rewrite setLength_null by exact Hz.
    destruct camera; reflexivity.
  - intros Hne.
    assert (Hl : len' = len + (targetRadius s - len) * 0.1)
      by (apply zoom_length; exact Hne).
    split.
    + unfold zoom, setLength, normalize, divideScalar, multiplyScalar.
      cbn [position vx vy vz]. fold len.
      destruct (Req_dec_T len 0) as [E | _]; [ contradiction | ].
      f_equal; field; exact Hne.
    + split; [ exact Hl | ]. split; [ lra | ].
      rewrite Hl. unfold Rmin, Rmax.
      destruct (Rle_dec len (targetRadius s)); lra.
Qed.

Lemma run_cons (r : Refs) (t : Tick) (rest : list Tick) :
  run r (t :: rest) = run (gestureEffect r (tickResult t) (tickNow t)) rest.
Proof. reflexivity. Qed.

Lemma run_app (first rest : list Tick) :
  forall r, run r (first ++ rest) = run (run r first) rest.
Proof. intros r. unfold run. apply fold_left_app. Qed.




(** **** The steering *)



(** *** At the sample start *)

Lemma changes_follow_the_cycle_witness :
  stateRef (gestureEffect (mountedRefs 1000000) Samples.open_hand 1000200)
  = successor (stateRef (mountedRefs 1000000)) /\
  velocity (mountedRefs 1000000) (normalizedSpread Samples.open_hand) 1000200
  > 2.
Proof.
  pose proof first_opening as E.
  assert (Hne : stateRef (gestureEffect (mountedRefs 1000000)
                            Samples.open_hand 1000200)
                <> stateRef (mountedRefs 1000000)).
  { destruct (logicOf_inv E) as (Es & _). rewrite Es. discriminate. }
  destruct (@changes_follow_the_cycle (mountedRefs 1000000) Samples.open_hand
              1000200%Z Hne) as (H1 & _ & _ & _ & H5 & _).
  split; [ exact H1 | ].
  apply H5. discriminate.
Defined.

Lemma velocity_is_bounded_witness :
  0 <= lastSpreadRef (mountedRefs 1000000) <= 1 /\
  (timeDelta (mountedRefs 1000000) 1000200 > 0.1 ->
   -10 < velocity (mountedRefs 1000000) (normalizedSpread Samples.open_hand)
           1000200 < 10).
Proof.
  apply (@velocity_is_bounded (mountedRefs 1000000) Samples.open_hand
           1000200%Z (reach_mounted 1000000)).
Defined.

Lemma auto_rotate_follows_pointing_witness :
  exists controls',
    controlsRef (gestureEffect (mountedRefs 1000000) Samples.pointing_hand
                   1000200) = Some controls' /\
    autoRotate controls' = negb (steers Samples.pointing_hand) /\
    target controls' = {| vx := 0; vy := 0; vz := 0 |}.
Proof.
  apply (@auto_rotate_follows_pointing (mountedRefs 1000000)
           Samples.pointing_hand 1000200%Z
           {| autoRotate := true; target := {| vx := 0; vy := 0; vz := 0 |} |}
           {| position := {| vx := 0; vy := 20; vz := 90 |} |}
           eq_refl eq_refl).
Defined.



End SwitchFacts.

(* ================================================================== *)
(** ** Verification of the creation of the particles *)

Module CreationFacts.
Import ChristmasTree ParticleCreation.

Local Open Scope R_scope.

Lemma INR_particleCount : INR particleCount = 4500.
Proof. unfold particleCount. rewrite INR_IZR_INZ. reflexivity. Qed.

(** X17. The explosion target of a particle lies in the shell around the
    origin between the radii 25 and 155: at distance
    [25 + 70 a + 60 b^3] for two of its draws [a] and [b]. *)
Theorem explosion_shell (d : Draws) :
  let r := 25 + radiusDraw d * 70 + radiusCubed d ^ 3 * 60 in
  (0 <= r -> v_length (explodePosOf d) = r) /\
  (UnitDraws d -> 25 <= v_length (explodePosOf d) < 155).
Proof.
  intros r.
  assert (Hlen : 0 <= r -> v_length (explodePosOf d) = r).
  { intros Hr. unfold v_length, explodePosOf. cbn [vx vy vz]. fold r.
    set (phi := acos (2 * drawV d - 1)). set (theta := 2 * PI * drawU d).
    pose proof (sin2_cos2 phi) as Hp. pose proof (sin2_cos2 theta) as Ht.
    unfold Rsqr in Hp, Ht.
    replace (r * sin phi * cos theta * (r * sin phi * cos theta)
             + r * sin phi * sin theta * (r * sin phi * sin theta)
             + r * cos phi * (r * cos phi))
      with (r * r
            * (sin phi * sin phi
               * (sin theta * sin theta + cos theta * cos theta)
               + cos phi * cos phi)) by ring.
    rewrite Ht, Rmult_1_r, Hp, Rmult_1_r.
    apply sqrt_square. exact Hr. }
  split; [ exact Hlen | ].
  intros Hd. unfold UnitDraws, InUnit in Hd.
  destruct Hd as (_ & _ & _ & _ & _ & _ & _ & _ & _ & _ & _ & _ & _
                  & Ha & Hb & _).
  assert (Hc : 0 <= radiusCubed d ^ 3 < 1).
  { cbn [pow]. rewrite Rmult_1_r.
    set (b := radiusCubed d) in *.
    assert (0 <= b * b < 1) by nra. nra. }
  rewrite Hlen; unfold r; lra.
Qed.

(** X18. The tree target of particle [i] of the 4500 lies in the cone of
    the tree: its height is between -18.5 and 22.5, it rises with [i], and
    its [x] and [z] are within [(1 - i/4500) * 16 + 0.75] of the axis, a
    radius that shrinks to 0.75 at the top. *)
Theorem tree_cone (i : nat) (d : Draws) :
  (i < particleCount)%nat ->
  UnitDraws d ->
  let p := treePosOf i d in
  let rad := (1 - INR i / 4500) * 16 in
  0 < rad <= 16 /\
  -18.5 <= vy p < 22.5 /\
  Rabs (vy p - (INR i / 4500 * 40 - 18)) <= 0.5 /\
  Rabs (vx p) <= rad + 0.75 /\
  Rabs (vz p) <= rad + 0.75.
Proof.
  intros Hi Hd p rad.
  unfold UnitDraws, InUnit in Hd.
  destruct Hd as (_ & _ & _ & _ & _ & _ & _ & _ & Hx & Hy & Hz & _).
  assert (Hn : 0 <= INR i < 4500).
  { split; [ apply pos_INR | ].
    rewrite <- INR_particleCount. apply lt_INR. exact Hi. }
  assert (Hrad : 0 < rad <= 16) by (unfold rad; lra).
  assert (Hr : (1 - INR i / INR particleCount * treeHeight / treeHeight)
               * treeRadius = rad).
  { rewrite INR_particleCount. unfold treeHeight, treeRadius, rad. field. }
  split; [ exact Hrad | ].
  unfold p, treePosOf. cbn [vx vy vz]. rewrite Hr.
  rewrite INR_particleCount. unfold treeHeight.
  split; [ lra | ].
  split; [ apply Rabs_le; lra | ].
  set (ang := INR i * 2.3999).
  pose proof (COS_bound ang) as [Hc1 Hc2].
  pose proof (SIN_bound ang) as [Hs1 Hs2].
  split; apply Rabs_le; split; nra.
Qed.

Lemma tree_cone_witness :
  let d := {| rVal := 0.5; typeDraw := 0.5; scaleDraw := 0.5;
              rotSpeedX := 0.5; rotSpeedY := 0.5; rotSpeedZ := 0.5;
              rotationX := 0.5; rotationY := 0.5;
              jitterX := 0.5; jitterY := 0.5; jitterZ := 0.5;
              drawU := 0.5; drawV := 0.5;
              radiusDraw := 0.5; radiusCubed := 0.5; rndIdx := 0.5 |} in
  let p := treePosOf 0 d in
  let rad := (1 - INR 0 / 4500) * 16 in
  0 < rad <= 16 /\
  -18.5 <= vy p < 22.5 /\
  Rabs (vy p - (INR 0 / 4500 * 40 - 18)) <= 0.5 /\
  Rabs (vx p) <= rad + 0.75 /\
  Rabs (vz p) <= rad + 0.75.
Proof.
  apply (@tree_cone 0
           {| rVal := 0.5; typeDraw := 0.5; scaleDraw := 0.5;
              rotSpeedX := 0.5; rotSpeedY := 0.5; rotSpeedZ := 0.5;
              rotationX := 0.5; rotationY := 0.5;
              jitterX := 0.5; jitterY := 0.5; jitterZ := 0.5;
              drawU := 0.5; drawV := 0.5;
              radiusDraw := 0.5; radiusCubed := 0.5; rndIdx := 0.5 |}).
  - unfold particleCount. lia.
  - unfold UnitDraws, InUnit. cbn. repeat split; lra.
Defined.


Lemma lerp_same (v : Vector3) (alpha : R) : lerp v v alpha = v.
Proof. unfold lerp. destruct v as [a b c]. cbn. f_equal; ring. Qed.

Lemma fontLoadedFrom_nth (sample : nat -> Vector3) (particles : list NewParticle) :
  forall k j,
    nth_error (fontLoadedFrom k sample particles) j
    = option_map (fun p => withTextPos p (sample (k + j)%nat))
        (nth_error particles j).
Proof.
  induction particles as [| p rest IH]; intros k j.
  - destruct j; reflexivity.
  - destruct j as [| j]; cbn [fontLoadedFrom nth_error option_map].
    + now rewrite Nat.add_0_r.
    + rewrite IH. now rewrite Nat.add_succ_comm.
Qed.

(** X19. A particle just created stands on its tree target, and until the
    font arrives its text target is its tree target: in the formations
    TREE and TEXT the loop leaves it where it is, so before the font
    arrives the text formation shows the tree.  The arrival of the font
    changes the text targets only, gives each particle the point sampled
    for it, and puts all of them in the plane [z = 0]. *)
Theorem fresh_particles_rest (i : nat) (d : Draws) :
  let p := positions (newParticle i d) in
  currentPos p = treePos p /\ textPos p = treePos p /\
  animateParticle TREE p = p /\ animateParticle TEXT p = p /\
  (forall (sample : nat -> Vector3) (particles : list NewParticle) k q,
      nth_error (fontLoaded sample particles) k = Some q ->
      exists q0,
        nth_error particles k = Some q0 /\
        textPos (positions q)
        = {| vx := vx (sample k); vy := vy (sample k); vz := 0 |} /\
        treePos (positions q) = treePos (positions q0) /\
        explodePos (positions q) = explodePos (positions q0) /\
        currentPos (positions q) = currentPos (positions q0) /\
        id q = id q0 /\ type q = type q0 /\ meshIndex q = meshIndex q0).
Proof.
  intros p. subst p. cbn [positions newParticle currentPos treePos textPos].
  split; [ reflexivity | split; [ reflexivity | ] ].
  split; [ | split ].
  - unfold animateParticle. cbn [targetOf currentPos treePos explodePos textPos].
    now rewrite lerp_same.
  - unfold animateParticle. cbn [targetOf currentPos treePos explodePos textPos].
    now rewrite lerp_same.
  - intros sample particles k q Hq. unfold fontLoaded in Hq.
    rewrite fontLoadedFrom_nth in Hq.
    destruct (nth_error particles k) as [q0 |]; [ | discriminate Hq ].
    cbn in Hq. injection Hq as <-. exists q0. cbn. repeat split.
Qed.

(** **** The mesh indices *)

Lemma createFrom_indices (draws : list Draws) :
  forall i sI cI,
    let ps := createFrom i sI cI draws in
    length ps = length draws /\
    map id ps = seq i (length draws) /\
    map meshIndex (ofShape sphere ps) = seq sI (length (ofShape sphere ps)) /\
    map meshIndex (ofShape cube ps) = seq cI (length (ofShape cube ps)).
Proof.
  induction draws as [| d rest IH]; intros i sI cI; [ cbn; auto | ].
  cbn [createFrom]. cbv zeta.
  destruct (type (newParticle i d)) eqn:Et.
  - destruct (IH (S i) (S sI) cI) as (H1 & H2 & H3 & H4).
    unfold ofShape in *. cbn [filter map length withMeshIndex type id meshIndex].
    rewrite Et. cbn [Shape_eqb map length seq meshIndex].
    rewrite H1, H2, H3, H4. auto.
  - destruct (IH (S i) sI (S cI)) as (H1 & H2 & H3 & H4).
    unfold ofShape in *. cbn [filter map length withMeshIndex type id meshIndex].
    rewrite Et. cbn [Shape_eqb map length seq meshIndex].
    rewrite H1, H2, H3, H4. auto.
Qed.

Lemma ofShape_split (particles : list NewParticle) :
  (length (ofShape sphere particles) + length (ofShape cube particles)
   = length particles)%nat.
Proof.
  unfold ofShape.
  induction particles as [| p rest IH]; [ reflexivity | ].
  cbn [filter]. destruct (type p); cbn [Shape_eqb length]; lia.
Qed.

(** X20. The loop gives the particles the ids 0, 1, 2, ... in order, and
    to the particles of each shape the mesh indices 0, 1, 2, ... in order:
    no two spheres share a slot of the sphere mesh, no two cubes a slot of
    the cube mesh, and no slot is skipped. *)
Theorem mesh_indices_are_consecutive (draws : list Draws) :
  let ps := createParticles draws in
  length ps = length draws /\
  map id ps = seq 0 (length draws) /\
  map meshIndex (ofShape sphere ps) = seq 0 (length (ofShape sphere ps)) /\
  map meshIndex (ofShape cube ps) = seq 0 (length (ofShape cube ps)) /\
  (length (ofShape sphere ps) + length (ofShape cube ps) = length draws)%nat.
Proof.
  intros ps. subst ps. unfold createParticles.
  destruct (createFrom_indices draws 0 0 0) as (H1 & H2 & H3 & H4).
  repeat split; try assumption.
  rewrite ofShape_split. exact H1.
Qed.

Lemma spheres_only (draws : list Draws) :
  Forall (fun d => typeDraw d < 0.7) draws ->
  forall i sI cI,
    length (ofShape sphere (createFrom i sI cI draws)) = length draws.
Proof.
  induction 1 as [| d rest Hd _ IH]; intros i sI cI; [ reflexivity | ].
  cbn [createFrom]. cbv zeta.
  assert (Et : type (newParticle i d) = sphere).
  { unfold newParticle. cbn [type].
    destruct (Rlt_dec (typeDraw d) 0.7); [ reflexivity | contradiction ]. }
  rewrite Et. unfold ofShape in *. cbn [filter withMeshIndex type].
  rewrite Et. cbn [Shape_eqb length]. rewrite IH. reflexivity.
Qed.

(** X21. The shape of a particle is drawn at random, while the sphere mesh
    is created with 3150 instances and the cube mesh with 1350: nothing
    keeps a mesh index below the number of instances.  When more than 3150
    of the draws give a sphere, a sphere gets the index 3150, one past the
    last instance; when more than 1350 give a cube, a cube gets 1350. *)
Theorem mesh_index_can_pass_the_instances (draws : list Draws) :
  let ps := createParticles draws in
  ((sphereCount < length (ofShape sphere ps))%nat ->
   exists p, In p ps /\ type p = sphere /\ meshIndex p = sphereCount) /\
  ((cubeCount < length (ofShape cube ps))%nat ->
   exists p, In p ps /\ type p = cube /\ meshIndex p = cubeCount).
Proof.
  intros ps. subst ps. unfold createParticles.
  destruct (createFrom_indices draws 0 0 0) as (_ & _ & H3 & H4).
  cbv zeta in H3, H4.
  set (ps := createFrom 0 0 0 draws) in *.
  assert (Hfind : forall s n,
             map meshIndex (ofShape s ps) = seq 0 (length (ofShape s ps)) ->
             (n < length (ofShape s ps))%nat ->
             exists p, In p ps /\ type p = s /\ meshIndex p = n).
  { intros s n Hseq Hn.
    assert (Hin : In n (map meshIndex (ofShape s ps))).
    { rewrite Hseq. apply in_seq. lia. }
    apply in_map_iff in Hin. destruct Hin as (p & Hp & Hin).
    unfold ofShape in Hin. apply filter_In in Hin. destruct Hin as [Hin Hs].
    exists p. repeat split; auto.
    destruct (type p), s; try reflexivity; discriminate Hs. }
  split; intros Hn; eapply Hfind; eauto.
Qed.

(** 3151 particles whose draw for the shape is 0.5: all are spheres. *)
Lemma mesh_index_can_pass_the_instances_witness :
  exists p,
    In p (createParticles
            (repeat {| rVal := 0.5; typeDraw := 0.5; scaleDraw := 0.5;
                       rotSpeedX := 0.5; rotSpeedY := 0.5; rotSpeedZ := 0.5;
                       rotationX := 0.5; rotationY := 0.5;
                       jitterX := 0.5; jitterY := 0.5; jitterZ := 0.5;
                       drawU := 0.5; drawV := 0.5;
                       radiusDraw := 0.5; radiusCubed := 0.5;
                       rndIdx := 0.5 |} (S sphereCount))) /\
    type p = sphere /\ meshIndex p = sphereCount.
Proof.
  apply (proj1 (mesh_index_can_pass_the_instances _)).
  unfold createParticles. rewrite spheres_only.
  - rewrite repeat_length. apply Nat.lt_succ_diag_r.
  - apply Forall_forall. intros d Hd. apply repeat_spec in Hd. subst d.
    cbn [typeDraw]. lra.
Defined.

End CreationFacts.

(* ================================================================== *)
(** ** The panel, the control pad and the game canvas *)

Module PanelFacts.

Import PanelDrag.

Local Open Scope R_scope.

Lemma bounded_cases (lo hi v : R) :
  lo <= hi ->
  lo <= Rmax lo (Rmin v hi) <= hi /\
  (lo <= v <= hi -> Rmax lo (Rmin v hi) = v).
Proof.
  intros H. unfold Rmin. destruct (Rle_dec v hi);
    unfold Rmax;
    match goal with |- context [Rle_dec ?a ?b] => destruct (Rle_dec a b) end;
    lra.
Qed.

(** X22. A move of a drag leaves at least [SAFE_MARGIN] = 40 pixels of the
    panel inside the container on each axis, wherever the pointer goes,
    when the container and the panel together are at least 80 wide and
    high. *)
Theorem dragged_panel_stays_reachable (s : Panel) (l : Layout)
    (client : Point) :
  isDragging s = true ->
  2 * SAFE_MARGIN <= containerW l + panelW l ->
  2 * SAFE_MARGIN <= containerH l + panelH l ->
  Within l (position (handleDragMove s (Some l) client)).
Proof.
  intros Hd Hw Hh. unfold handleDragMove, Within. rewrite Hd. cbn.
  unfold SAFE_MARGIN in *.
  destruct (@bounded_cases (- panelW l + 40) (containerW l - 40)
              (px (startPosRef s) + (px client - px (dragStartRef s))))
    as [Hx _]; [ lra | ].
  destruct (@bounded_cases (- panelH l + 40) (containerH l - 40)
              (py (startPosRef s) + (py client - py (dragStartRef s))))
    as [Hy _]; [ lra | ].
  lra.
Qed.

Lemma drag_moves_compose (s : Panel) (earlier : option Layout)
    (l : Layout) (c1 c2 : Point) :
  handleDragMove (handleDragMove s earlier c1) (Some l) c2
  = handleDragMove s (Some l) c2.
Proof.
  unfold handleDragMove.
  destruct (isDragging s) eqn:Hd; [ | rewrite Hd; reflexivity ].
  destruct earlier as [l1 | ]; cbn; [ | rewrite Hd ]; reflexivity.
Qed.

(** X23. The panel follows the pointer, not its path: after any earlier
    move of the same drag, a move to [client] puts the panel where a
    single move to [client] would. *)
Theorem drag_follows_the_pointer (s : Panel) (earlier : option Layout)
    (l : Layout) (c1 c2 : Point) :
  handleDragMove (handleDragMove s earlier c1) (Some l) c2
  = handleDragMove s (Some l) c2.
Proof.
  apply drag_moves_compose.
Qed.

(** X24. A press and a release with the pointer back where it was pressed
    leave a panel that was within the allowed positions where it was,
    whatever moves came in between; and once released, moves do
    nothing. *)
Theorem press_and_release_in_place (s : Panel) (l : Layout)
    (client wandered : Point) :
  Within l (position s) ->
  let pressed := handleDragStart s client in
  let back := handleDragMove (handleDragMove pressed (Some l) wandered)
                (Some l) client in
  position (handleDragEnd back) = position s /\
  (forall layout c,
     handleDragMove (handleDragEnd back) layout c = handleDragEnd back).
Proof.
  intros Hin pressed back. split; [ | reflexivity ].
  unfold back. rewrite drag_moves_compose. unfold pressed. cbn.
  unfold Within, SAFE_MARGIN in *.
  destruct (@bounded_cases (- panelW l + 40) (containerW l - 40)
              (px (position s) + (px client - px client)))
    as [_ Hx]; [ lra | ].
  destruct (@bounded_cases (- panelH l + 40) (containerH l - 40)
              (py (position s) + (py client - py client)))
    as [_ Hy]; [ lra | ].
  rewrite Hx, Hy by lra.
  destruct (position s) as [a b]. cbn. f_equal; lra.
Qed.

(** *** A panel of 300 by 200 in a container of 800 by 600 *)

Lemma dragged_panel_stays_reachable_witness :
  Within {| containerW := 800; containerH := 600;
            panelW := 300; panelH := 200 |}
    (position
       (handleDragMove
          {| position := {| px := 0; py := 0 |}; isDragging := true;
             dragStartRef := {| px := 10; py := 10 |};
             startPosRef := {| px := 0; py := 0 |} |}
          (Some {| containerW := 800; containerH := 600;
                   panelW := 300; panelH := 200 |})
          {| px := 10000; py := -10000 |})).
Proof.
  apply (@dragged_panel_stays_reachable
           {| position := {| px := 0; py := 0 |}; isDragging := true;
              dragStartRef := {| px := 10; py := 10 |};
              startPosRef := {| px := 0; py := 0 |} |}
           {| containerW := 800; containerH := 600;
              panelW := 300; panelH := 200 |}
           {| px := 10000; py := -10000 |}).
  - reflexivity.
  - unfold SAFE_MARGIN. cbn. lra.
  - unfold SAFE_MARGIN. cbn. lra.
Defined.

Lemma press_and_release_in_place_witness :
  let s := {| position := {| px := 20; py := 30 |}; isDragging := false;
              dragStartRef := {| px := 0; py := 0 |};
              startPosRef := {| px := 0; py := 0 |} |} in
  let l := {| containerW := 800; containerH := 600;
              panelW := 300; panelH := 200 |} in
  let pressed := handleDragStart s {| px := 25; py := 35 |} in
  let back := handleDragMove
                (handleDragMove pressed (Some l) {| px := 10000; py := 0 |})
                (Some l) {| px := 25; py := 35 |} in
  position (handleDragEnd back) = position s /\
  (forall layout c,
     handleDragMove (handleDragEnd back) layout c = handleDragEnd back).
Proof.
  apply (@press_and_release_in_place
           {| position := {| px := 20; py := 30 |}; isDragging := false;
              dragStartRef := {| px := 0; py := 0 |};
              startPosRef := {| px := 0; py := 0 |} |}
           {| containerW := 800; containerH := 600;
              panelW := 300; panelH := 200 |}
           {| px := 25; py := 35 |} {| px := 10000; py := 0 |}).
  unfold Within, SAFE_MARGIN. cbn. lra.
Defined.

End PanelFacts.

Module PadFacts.

Import ControlPad.

Local Open Scope R_scope.

Lemma round_percent (v : R) :
  0 <= v <= 1 -> (0 <= round (v * 100) <= 100)%Z.
Proof.
  intros Hv. unfold round.
  destruct (base_Int_part (v * 100 + 0.5)) as [Hle Hgt].
  split.
  - assert (H : IZR (-1) < IZR (Int_part (v * 100 + 0.5))) by lra.
    apply lt_IZR in H. lia.
  - assert (H : IZR (Int_part (v * 100 + 0.5)) < IZR 101) by lra.
    apply lt_IZR in H. lia.
Qed.

Lemma percent_cases (v : R) :
  Rmax 0 (Rmin 100 (v * 100)) = 100 * Rmax 0 (Rmin 1 v).
Proof.
  unfold Rmin. destruct (Rle_dec 100 (v * 100)), (Rle_dec 1 v);
    unfold Rmax;
    repeat match goal with
           | |- context [Rle_dec ?a ?b] => destruct (Rle_dec a b)
           end;
    lra.
Qed.

(** X25. The bar of the pad and the tree read the spread alike: the
    percentage of the pad is a hundred times the normalised spread that
    sets the radius of the camera, so it lies between 0 and 100, and a
    missing spread is shown as 0. *)
Theorem pad_shows_the_normalised_spread (result : HandTrackingResult R) :
  spreadPercent result = 100 * ChristmasTree.normalizedSpread result /\
  0 <= spreadPercent result <= 100 /\
  0 <= barWidth result <= spreadPercent result /\
  (handSpread result = None -> spreadPercent result = 0).
Proof.
  assert (E : spreadPercent result
              = 100 * ChristmasTree.normalizedSpread result).
  { unfold spreadPercent, ChristmasTree.normalizedSpread,
      ChristmasTree.orZero.
    destruct (handSpread result) as [h | ].
    - destruct (Req_dec_T h 0) as [_ | _].
      + destruct (FormationFacts.clamp_cases ((0 - 0.35) / 0.65))
          as [[? ->] | [[? ->] | [? ->]]]; lra.
      + apply percent_cases.
    - destruct (FormationFacts.clamp_cases ((0 - 0.35) / 0.65))
        as [[? ->] | [[? ->] | [? ->]]]; lra. }
  pose proof (FormationFacts.normalizedSpread_bounds result) as Hb.
  repeat split; try lra.
  - unfold barWidth. destruct (Gesture_eqb _ _); lra.
  - unfold barWidth. destruct (Gesture_eqb _ _); lra.
  - intros Hn. unfold spreadPercent. rewrite Hn. reflexivity.
Qed.

(** X26. For a hand whose landmarks lie in the image, the two percentages
    the pad shows for the result of the frame are whole numbers between 0
    and 100. *)
Theorem pad_percentages_in_range (landmarks : list (Landmark R))
    (hands : list (list (Landmark R)))
    (video : LocalGestureService.Video) (debugCanvas : bool) :
  Forall PoseMoves.InImage landmarks ->
  let r := fst (LocalGestureService.processVideoFrame
                  (Some (LocalGestureService.DetectReturns
                           (Some (landmarks :: hands))))
                  video debugCanvas) in
  (0 <= xPercent r <= 100)%Z /\ (0 <= yPercent r <= 100)%Z.
Proof.
  intros Hin r.
  destruct (@ServiceFacts.frame_in_range landmarks hands video debugCanvas Hin)
    as [Hx Hy].
  fold r in Hx, Hy.
  unfold xPercent, yPercent. split; apply round_percent; assumption.
Qed.

Lemma pad_percentages_in_range_witness :
  let r := fst (LocalGestureService.processVideoFrame
                  (Some (LocalGestureService.DetectReturns
                           (Some [PoseMoves.pointing_pose_R])))
                  Samples.vga false) in
  (0 <= xPercent r <= 100)%Z /\ (0 <= yPercent r <= 100)%Z.
Proof.
  apply (@pad_percentages_in_range PoseMoves.pointing_pose_R []
           Samples.vga false).
  unfold PoseMoves.pointing_pose_R, PoseMoves.ptR.
  repeat constructor; cbn; lra.
Defined.

End PadFacts.

Module CanvasFacts.

Import GameCanvas GameCanvasNaN.

Local Open Scope R_scope.

Lemma between_cases (lo hi v : R) :
  lo <= hi -> lo <= Rmax lo (Rmin hi v) <= hi.
Proof.
  intros H. unfold Rmin. destruct (Rle_dec hi v);
    unfold Rmax;
    match goal with |- context [Rle_dec ?a ?b] => destruct (Rle_dec a b) end;
    lra.
Qed.

Lemma spread_size (h : R) :
  15 + Rmax 0 (Rmin 1 ((h - 0.35) / (1 - 0.35))) * (140 - 15)
  = 15 + 125 * Rmax 0 (Rmin 1 ((h - 0.35) / 0.65)).
Proof.
  replace (1 - 0.35) with 0.65 by lra. lra.
Qed.

Lemma targetSizeOf_range (g : Game) (r : HandTrackingResult R) :
  15 <= size g <= 140 -> 15 <= targetSizeOf g r <= 140.
Proof.
  intros Hs. unfold targetSizeOf.
  destruct (isDetected r); [ | assumption ].
  destruct (Gesture_eqb (gesture r) POINTING); [ lra | ].
  destruct (handSpread r) as [h | ]; [ | assumption ].
  cbv zeta. rewrite spread_size.
  destruct (FormationFacts.clamp_cases ((h - 0.35) / 0.65))
    as [[? ->] | [[? ->] | [? ->]]]; lra.
Qed.

Lemma targetXOf_range (g : Game) (r : HandTrackingResult R) :
  InRange g -> 15 <= targetXOf g r <= CANVAS_WIDTH - 15.
Proof.
  intros (Hs & Hx & Hy). unfold targetXOf, CANVAS_WIDTH in *.
  destruct (isDetected r); [ | assumption ].
  cbv zeta.
  pose proof (@between_cases (size g) (800 - size g) (x r * 800)).
  lra.
Qed.

Lemma targetYOf_range (g : Game) (r : HandTrackingResult R) :
  InRange g -> 15 <= targetYOf g r <= CANVAS_HEIGHT - 15.
Proof.
  intros (Hs & Hx & Hy). unfold targetYOf, CANVAS_HEIGHT in *.
  destruct (isDetected r); [ | assumption ].
  cbv zeta.
  pose proof (@between_cases (size g) (600 - size g) (y r * 600)).
  lra.
Qed.

Lemma animateStep_range (g : Game) (r : HandTrackingResult R) :
  InRange g -> InRange (animateStep g r).
Proof.
  intros Hg.
  pose proof (targetXOf_range r Hg) as Hx.
  pose proof (targetYOf_range r Hg) as Hy.
  destruct Hg as (Hs & Hpx & Hpy).
  pose proof (@targetSizeOf_range g r Hs) as Ht.
  unfold InRange, animateStep. cbn [size posX posY].
  unfold CANVAS_WIDTH, CANVAS_HEIGHT in *. lra.
Qed.

Lemma initialGame_range : InRange initialGame.
Proof.
  unfold InRange, initialGame, CANVAS_WIDTH, CANVAS_HEIGHT, OBJECT_SIZE.
  cbn. lra.
Qed.

Lemma animateSteps_range (results : list (HandTrackingResult R)) (g : Game) :
  InRange g -> InRange (animateSteps g results).
Proof.
  revert g. induction results as [ | r rest IH]; intros g Hg; cbn;
    [ assumption | ].
  apply IH, animateStep_range, Hg.
Qed.

(** *** The cursor on numbers that may be NaN *)

Lemma trimTrailN_num (points : list TrailPoint) :
  trimTrailN (map numPoint points) = map numPoint (trimTrail points).
Proof.
  unfold trimTrailN, trimTrail. rewrite length_map.
  destruct (20 <? length points)%nat; [ | reflexivity ].
  destruct points; reflexivity.
Qed.

Lemma fadeN_num (p : TrailPoint) : fadeN (numPoint p) = numPoint (fade p).
Proof. reflexivity. Qed.

Lemma trail_num (points : list TrailPoint) :
  map fadeN (trimTrailN (map numPoint points))
  = map numPoint (map fade (trimTrail points)).
Proof.
  rewrite trimTrailN_num, !map_map. apply map_ext. intros p. apply fadeN_num.
Qed.

Lemma trail_pushed_num (points : list TrailPoint) (p : TrailPoint) :
  map fadeN (trimTrailN (map numPoint points ++ [numPoint p]))
  = map numPoint (map fade (trimTrail (points ++ [p]))).
Proof.
  rewrite <- trail_num, map_app. reflexivity.
Qed.

Lemma animateStepN_num (g : Game) (r : HandTrackingResult JSNum) :
  ReadsNumbers r ->
  animateStepN (numGame g) r = numGame (animateStep g (realResult r)).
Proof.
  intros Hr. unfold ReadsNumbers in Hr.
  unfold animateStepN, animateStep, targetXOfN, targetYOfN, targetSizeOfN,
    targetXOf, targetYOf, targetSizeOf, numGame, realResult.
  cbn [posXN posYN sizeN trailN isDetected gesture handSpread x y
       posX posY size trail].
  destruct r as [rx ry det ges hs]. cbn [isDetected gesture handSpread x y] in *.
  destruct det.
  - destruct (Hr eq_refl) as (Hx & Hy & Hs).
    destruct rx as [a |]; [ | contradiction ].
    destruct ry as [b |]; [ | contradiction ].
    destruct ges; cbn [Gesture_eqb realOf option_map].
    all: try (destruct hs as [[h |] |];
              [ | exfalso; apply Hs; [ discriminate | reflexivity ] | ]).
    all: cbn [realOf option_map nadd nsub nmul ndiv nmax nmin lift2];
      f_equal;
      match goal with
      | |- map fadeN (trimTrailN
                        (_ ++ [ {| n_x := Num ?u; n_y := Num ?v; n_alpha := _;
                                   n_size := Num ?w |} ])) = _ =>
          exact (trail_pushed_num (trail g)
                   {| t_x := u; t_y := v; t_alpha := 1; t_size := w |})
      end.
  - cbn [nadd nsub nmul lift2]. f_equal. apply trail_num.
Qed.

Lemma animateStepsN_num (results : list (HandTrackingResult JSNum)) :
  Forall ReadsNumbers results ->
  forall g,
    animateStepsN (numGame g) results
    = numGame (animateSteps g (map realResult results)).
Proof.
  induction 1 as [| r rest Hr _ IH]; intros g; [ reflexivity | ].
  cbn [animateStepsN animateSteps map].
  rewrite (animateStepN_num g Hr). apply IH.
Qed.

Lemma initialGameN_num : initialGameN = numGame initialGame.
Proof. reflexivity. Qed.

Lemma posXN_sticks (g : GameN) (r : HandTrackingResult JSNum) :
  posXN g = NaN -> posXN (animateStepN g r) = NaN.
Proof.
  intros H. unfold animateStepN. cbn [posXN]. rewrite H. reflexivity.
Qed.

Lemma posXN_lost (g : GameN) (r : HandTrackingResult JSNum) :
  isDetected r = true -> x r = NaN -> posXN (animateStepN g r) = NaN.
Proof.
  intros Hd Hx. unfold animateStepN, targetXOfN. cbn [posXN].
  rewrite Hd, Hx.
  destruct (posXN g), (sizeN g); reflexivity.
Qed.

Lemma posXN_sticks_all (results : list (HandTrackingResult JSNum)) :
  forall g, posXN g = NaN -> posXN (animateStepsN g results) = NaN.
Proof.
  induction results as [| r rest IH]; intros g H; [ exact H | ].
  cbn [animateStepsN]. apply IH, posXN_sticks, H.
Qed.

Lemma animateStepsN_app (first rest : list (HandTrackingResult JSNum)) :
  forall g,
    animateStepsN g (first ++ rest) = animateStepsN (animateStepsN g first) rest.
Proof.
  induction first as [| r first IH]; intros g; [ reflexivity | ].
  cbn [animateStepsN app]. apply IH.
Qed.

Lemma posYN_sticks (g : GameN) (r : HandTrackingResult JSNum) :
  posYN g = NaN -> posYN (animateStepN g r) = NaN.
Proof.
  intros H. unfold animateStepN. cbn [posYN]. rewrite H. reflexivity.
Qed.

Lemma sizeN_sticks (g : GameN) (r : HandTrackingResult JSNum) :
  sizeN g = NaN -> sizeN (animateStepN g r) = NaN.
Proof.
  intros H. unfold animateStepN. cbn [sizeN]. rewrite H. reflexivity.
Qed.

Lemma posYN_lost (g : GameN) (r : HandTrackingResult JSNum) :
  isDetected r = true -> y r = NaN -> posYN (animateStepN g r) = NaN.
Proof.
  intros Hd Hy. unfold animateStepN, targetYOfN. cbn [posYN].
  rewrite Hd, Hy.
  destruct (posYN g), (sizeN g); reflexivity.
Qed.

Lemma sizeN_lost (g : GameN) (r : HandTrackingResult JSNum) :
  isDetected r = true -> gesture r <> POINTING -> handSpread r = Some NaN ->
  sizeN (animateStepN g r) = NaN.
Proof.
  intros Hd Hg Hs. unfold animateStepN, targetSizeOfN. cbn [sizeN].
  rewrite Hd, Hs.
  destruct (gesture r); try contradiction; cbn [Gesture_eqb];
    destruct (sizeN g); reflexivity.
Qed.

Lemma sticks_all (field : GameN -> JSNum) :
  (forall g r, field g = NaN -> field (animateStepN g r) = NaN) ->
  forall results g,
    field g = NaN -> field (animateStepsN g results) = NaN.
Proof.
  intros Hstep results.
  induction results as [| r rest IH]; intros g H; [ exact H | ].
  cbn [animateStepsN]. apply IH, Hstep, H.
Qed.

Lemma cursorColorN_num (g : Game) :
  cursorColorN (numGame g)
  = (Num (fst (fst (cursorColor g))), Num (snd (fst (cursorColor g))),
     Num (snd (cursorColor g))).
Proof.
  unfold cursorColorN, cursorColor, numGame.
  cbn [sizeN nsub ndiv nmul nadd lift2 nltb].
  destruct (Rlt_dec ((size g - 15) / (140 - 15)) 0.5); reflexivity.
Qed.

Lemma cursorColorN_lost (g : GameN) :
  sizeN g = NaN -> cursorColorN g = (NaN, NaN, NaN).
Proof. intros H. unfold cursorColorN. rewrite H. reflexivity. Qed.

Lemma cursorColor_range (g : Game) :
  InRange g ->
  0 <= fst (fst (cursorColor g)) <= 255 /\
  0 <= snd (fst (cursorColor g)) <= 255 /\
  0 <= snd (cursorColor g) <= 255.
Proof.
  intros (Hs & _). unfold cursorColor.
  set (s := size g) in *.
  assert (Ht : 0 <= (s - 15) / (140 - 15) <= 1).
  { replace (140 - 15) with 125 by lra. lra. }
  set (t := (s - 15) / (140 - 15)) in *.
  cbv zeta. destruct (Rlt_dec t 0.5); cbn [fst snd]; lra.
Qed.

(** X27. While what the step reads of the tracking results are numbers
    (the [x] and [y] of a detected hand, and its [handSpread] unless it
    points), wherever they lie (also with [x] and [y] outside the image):
    at every frame the radius of the cursor is a number between 15 and 140
    and its centre at least 15 inside the canvas on each side.  The
    condition is needed: [processVideoFrame] returns NaN for a pose with a
    NaN where it reads, and one detected result with a NaN [x] (or [y], or
    a NaN [handSpread] while not pointing) makes the [x] of the cursor (or
    its [y], or its radius) NaN at that frame and at every later frame,
    whatever the later results are.  Rounding is left out. *)
Theorem cursor_stays_in_range (results : list (HandTrackingResult JSNum)) :
  Forall ReadsNumbers results ->
  let g := animateStepsN initialGameN results in
  (exists s px py,
      sizeN g = Num s /\ posXN g = Num px /\ posYN g = Num py /\
      15 <= s <= 140 /\ 15 <= px <= 785 /\ 15 <= py <= 585) /\
  (forall lost later,
      isDetected lost = true ->
      let g' := animateStepsN g (lost :: later) in
      (x lost = NaN -> posXN g' = NaN) /\
      (y lost = NaN -> posYN g' = NaN) /\
      (gesture lost <> POINTING -> handSpread lost = Some NaN ->
       sizeN g' = NaN)).
Proof.
  intros Hall g. split.
  - unfold g. rewrite initialGameN_num, (animateStepsN_num Hall).
    destruct (animateSteps_range (map realResult results)
                initialGame_range) as (Hs & Hx & Hy).
    unfold CANVAS_WIDTH, CANVAS_HEIGHT in *.
    do 3 eexists. cbn [numGame sizeN posXN posYN].
    split; [ reflexivity | split; [ reflexivity | split; [ reflexivity | ] ] ].
    lra.
  - intros lost later Hd g'. unfold g'. cbn [animateStepsN].
    split; [ | split ].
    + intros Hx. apply (sticks_all posXN posXN_sticks), posXN_lost; assumption.
    + intros Hy. apply (sticks_all posYN posYN_sticks), posYN_lost; assumption.
    + intros Hg Hs.
      apply (sticks_all sizeN sizeN_sticks), sizeN_lost; assumption.
Qed.

Lemma trail_step (g : Game) (r : HandTrackingResult R) :
  (length (trail g) <= 20)%nat ->
  length (trail (animateStep g r))
  = Nat.min 20 (length (trail g) + (if isDetected r then 1 else 0)).
Proof.
  intros Hl. unfold animateStep. cbn [trail]. rewrite length_map.
  unfold trimTrail.
  destruct (isDetected r).
  - rewrite length_app. cbn [length].
    destruct (Nat.ltb_spec 20 (length (trail g) + 1)) as [Hlt | Hge].
    + destruct (trail g) as [ | p rest]; cbn [length app tl] in *; [ lia | ].
      rewrite length_app. cbn [length]. lia.
    + rewrite length_app. cbn [length]. lia.
  - destruct (Nat.ltb_spec 20 (length (trail g))); lia.
Qed.

Lemma trail_steps (results : list (HandTrackingResult R)) (g : Game) :
  (length (trail g) <= 20)%nat ->
  length (trail (animateSteps g results))
  = Nat.min 20 (length (trail g) + detections results).
Proof.
  revert g. induction results as [ | r rest IH]; intros g Hl.
  - unfold detections. cbn [animateSteps filter length]. lia.
  - cbn [animateSteps]. rewrite IH by (rewrite trail_step by exact Hl; lia).
    rewrite trail_step by exact Hl.
    unfold detections. cbn [filter].
    destruct (isDetected r); cbn [length]; lia.
Qed.

Lemma trail_step_alpha (g : Game) (r : HandTrackingResult R) :
  Forall (fun p => t_alpha p <= 1) (trail g) ->
  Forall (fun p => t_alpha p <= 0.95) (trail (animateStep g r)).
Proof.
  intros Ha. unfold animateStep. cbn [trail].
  apply Forall_map.
  assert (Hp : Forall (fun p => t_alpha p <= 1)
                 (if isDetected r
                  then trail g ++
                       [ {| t_x := posX g + (targetXOf g r - posX g) * 0.15;
                            t_y := posY g + (targetYOf g r - posY g) * 0.15;
                            t_alpha := 1;
                            t_size := size g
                                      + (targetSizeOf g r - size g) * 0.1 |} ]
                  else trail g)).
  { destruct (isDetected r); [ | assumption ].
    apply Forall_app. split; [ assumption | ].
    constructor; [ cbn; lra | constructor ]. }
  assert (Ht : forall l, Forall (fun p => t_alpha p <= 1) l ->
                         Forall (fun p => t_alpha p <= 1) (trimTrail l)).
  { intros l Hl. unfold trimTrail. destruct (20 <? length l)%nat;
      [ | assumption ].
    destruct Hl; cbn; [ constructor | assumption ]. }
  apply Ht in Hp. revert Hp. apply Forall_impl. intros p Hle. cbn. lra.
Qed.

(** X28. The trail holds as many points as frames had a hand, up to 20:
    a frame with a hand adds a point (the oldest goes when there are 21),
    a frame without one removes none. Every point left after a frame
    has an alpha of at most 0.95. *)
Theorem trail_length (results : list (HandTrackingResult R)) :
  let g := animateSteps initialGame results in
  length (trail g) = Nat.min 20 (detections results) /\
  Forall (fun p => t_alpha p <= 0.95) (trail g).
Proof.
  intros g. split.
  - unfold g. rewrite trail_steps by (cbn; lia). reflexivity.
  - unfold g. clear g.
    assert (H : forall g0,
              Forall (fun p => t_alpha p <= 0.95) (trail g0) ->
              Forall (fun p => t_alpha p <= 0.95)
                (trail (animateSteps g0 results))).
    { induction results as [ | r rest IH]; intros g0 H0; cbn;
        [ assumption | ].
      apply IH, trail_step_alpha. revert H0. apply Forall_impl.
      intros p Hp. lra. }
    apply H. constructor.
Qed.

(** X29. While what the step reads of the tracking results are numbers,
    the colour blended for the cursor of an open or closed hand is a colour
    at every frame: its red, green and blue are numbers between 0 and 255.
    After one detected result that does not point and has a NaN
    [handSpread], the three components are NaN at every later frame.
    Rounding is left out. *)
Theorem cursor_colour_in_range (results : list (HandTrackingResult JSNum)) :
  Forall ReadsNumbers results ->
  let g := animateStepsN initialGameN results in
  (exists red green blue,
      cursorColorN g = (Num red, Num green, Num blue) /\
      0 <= red <= 255 /\ 0 <= green <= 255 /\ 0 <= blue <= 255) /\
  (forall lost later,
      isDetected lost = true -> gesture lost <> POINTING ->
      handSpread lost = Some NaN ->
      cursorColorN (animateStepsN g (lost :: later)) = (NaN, NaN, NaN)).
Proof.
  intros Hall g. split.
  - unfold g. rewrite initialGameN_num, (animateStepsN_num Hall).
    rewrite cursorColorN_num.
    do 3 eexists. split; [ reflexivity | ].
    apply cursorColor_range, animateSteps_range,
      initialGame_range.
  - intros lost later Hd Hg Hs. apply cursorColorN_lost.
    cbn [animateStepsN].
    apply (sticks_all sizeN sizeN_sticks), sizeN_lost; assumption.
Qed.

Lemma held_step (g : Game) (r : HandTrackingResult R) (h : R) :
  isDetected r = true ->
  gesture r <> POINTING ->
  handSpread r = Some h ->
  targetSizeOf g r = 15 + 125 * Rmax 0 (Rmin 1 ((h - 0.35) / 0.65)).
Proof.
  intros Hd Hg Hs. unfold targetSizeOf. rewrite Hd, Hs.
  destruct (gesture r); try contradiction; cbn [Gesture_eqb];
    cbv zeta; apply spread_size.
Qed.

(** X30. While an open or closed hand is held, the radius of the cursor
    closes a tenth of its gap to [15 + 125 * n] at each frame, [n] the
    normalised spread that the tree turns into the radius of the camera:
    after [k] frames the gap is [0.9 ^ k] of what it was. *)
Theorem cursor_size_follows_the_spread (g : Game)
    (r : HandTrackingResult R) (h : R) (k : nat) :
  isDetected r = true ->
  gesture r <> POINTING ->
  handSpread r = Some h ->
  let goal := 15 + 125 * ChristmasTree.normalizedSpread r in
  size (animateSteps g (repeat r k)) - goal = 0.9 ^ k * (size g - goal).
Proof.
  intros Hd Hg Hs goal.
  assert (Hn : forall g0, targetSizeOf g0 r = goal).
  { intros g0. rewrite (@held_step g0 r h Hd Hg Hs).
    unfold goal, ChristmasTree.normalizedSpread, ChristmasTree.orZero.
    rewrite Hs. destruct (Req_dec_T h 0) as [-> | _]; [ | reflexivity ].
    reflexivity. }
  revert g. induction k as [ | k IH]; intros g.
  - cbn. lra.
  - cbn [repeat animateSteps]. rewrite IH.
    unfold animateStep. cbn [size]. rewrite Hn. cbn [pow]. lra.
Qed.

Lemma cursor_size_follows_the_spread_witness :
  size (animateSteps initialGame
          (repeat {| x := 0.5; y := 0.5; isDetected := true;
                     gesture := GENERAL; handSpread := Some 1 |} 2))
  - (15 + 125 * ChristmasTree.normalizedSpread
                  {| x := 0.5; y := 0.5; isDetected := true;
                     gesture := GENERAL; handSpread := Some 1 |})
  = 0.9 ^ 2 * (size initialGame
               - (15 + 125 * ChristmasTree.normalizedSpread
                               {| x := 0.5; y := 0.5; isDetected := true;
                                  gesture := GENERAL;
                                  handSpread := Some 1 |})).
Proof.
  apply (@cursor_size_follows_the_spread initialGame
           {| x := 0.5; y := 0.5; isDetected := true;
              gesture := GENERAL; handSpread := Some 1 |} 1 2).
  - reflexivity.
  - discriminate.
  - reflexivity.
Defined.

(** *** Results with numbers where they are read *)

Lemma cursor_stays_in_range_witness :
  let sample :=
    [ {| x := Num 2; y := Num (-1); isDetected := true; gesture := GENERAL;
         handSpread := Some (Num 1) |};
      {| x := NaN; y := NaN; isDetected := false; gesture := NONE;
         handSpread := Some NaN |};
      {| x := Num 0.25; y := Num 0.5; isDetected := true;
         gesture := POINTING; handSpread := Some NaN |} ] in
  let g := animateStepsN initialGameN sample in
  (exists s px py,
      sizeN g = Num s /\ posXN g = Num px /\ posYN g = Num py /\
      15 <= s <= 140 /\ 15 <= px <= 785 /\ 15 <= py <= 585) /\
  (forall lost later,
      isDetected lost = true ->
      let g' := animateStepsN g (lost :: later) in
      (x lost = NaN -> posXN g' = NaN) /\
      (y lost = NaN -> posYN g' = NaN) /\
      (gesture lost <> POINTING -> handSpread lost = Some NaN ->
       sizeN g' = NaN)).
Proof.
  apply (@cursor_stays_in_range
           [ {| x := Num 2; y := Num (-1); isDetected := true;
                gesture := GENERAL; handSpread := Some (Num 1) |};
             {| x := NaN; y := NaN; isDetected := false; gesture := NONE;
                handSpread := Some NaN |};
             {| x := Num 0.25; y := Num 0.5; isDetected := true;
                gesture := POINTING; handSpread := Some NaN |} ]).
  repeat constructor; cbn; try discriminate; intros; try discriminate;
    try congruence.
Defined.

Lemma cursor_colour_in_range_witness :
  let sample :=
    [ {| x := Num 0.5; y := Num 0.5; isDetected := true; gesture := GENERAL;
         handSpread := Some (Num 1) |};
      {| x := Num 0.5; y := Num 0.5; isDetected := true; gesture := GENERAL;
         handSpread := None |} ] in
  let g := animateStepsN initialGameN sample in
  (exists red green blue,
      cursorColorN g = (Num red, Num green, Num blue) /\
      0 <= red <= 255 /\ 0 <= green <= 255 /\ 0 <= blue <= 255) /\
  (forall lost later,
      isDetected lost = true -> gesture lost <> POINTING ->
      handSpread lost = Some NaN ->
      cursorColorN (animateStepsN g (lost :: later)) = (NaN, NaN, NaN)).
Proof.
  apply (@cursor_colour_in_range
           [ {| x := Num 0.5; y := Num 0.5; isDetected := true;
                gesture := GENERAL; handSpread := Some (Num 1) |};
             {| x := Num 0.5; y := Num 0.5; isDetected := true;
                gesture := GENERAL; handSpread := None |} ]).
  repeat constructor; cbn; try discriminate; intros; try discriminate;
    try congruence.
Defined.

End CanvasFacts.
